(** * target-postgres: [db_sync.py]

    A shallow embedding of [target_postgres/db_sync.py] and the properties
    of its type lattice, column namer, schema/record flattener, schema
    diff and staged batch load.

    Conventions of the embedding.
    - A Python [str] is a [string]: one [ascii] per character.  Property
      names enter the program through [inflect_name], whose first
      substitution replaces every character outside [a-zA-Z0-9] by an
      underscore, so a character beyond the 8-bit range behaves like any
      other punctuation character; every later step sees ASCII only.
    - A Python exception is a value of [exn]; code that may raise lives in
      the [outcome] monad.
    - A [dict] is an association list in insertion order with unique keys.
    - The database is an explicit state threaded through the methods of
      [DbSync]: a connection provider answers the statements, and a
      session logs every statement submitted and every commit and
      rollback.
    - [json.dumps], [json.loads] and the builtin [str] are parameters of
      the functions that call them.
    - Logging is left out.  So are [open_connection], whose connection is
      the provider's, and the two methods that submit statement forms of
      their own and that nothing else of the file calls:
      [create_schema_if_not_exists] and [copy_from]. *)

From Stdlib Require Import String Ascii ZArith Lia List Bool Permutation.
From stdpp Require Import base option list sorting gmap strings.

#[local] Set Warnings "-clear-no-such-hyp".
Local Open Scope bool_scope.
Local Open Scope nat_scope.

(** * Exceptions and the outcome monad *)

Inductive exn : Type :=
| KeyError (key : string)
| IndexError
| TypeError
| AttributeError
| ValueError (msg : string)
| DatabaseError (text : string).

(** [Stuck] is the embedding's own verdict on a recursion that used up its
    fuel; the wrappers below give every call enough fuel, and the
    totality lemmas show [Stuck] is never returned by them. *)
Inductive outcome (A : Type) : Type :=
| Ret (a : A)
| Raise (e : exn)
| Stuck.
Arguments Ret {A} a.
Arguments Raise {A} e.
Arguments Stuck {A}.

Definition bind {A B} (m : outcome A) (k : A -> outcome B) : outcome B :=
  match m with
  | Ret a => k a
  | Raise e => Raise e
  | Stuck => Stuck
  end.

Declare Scope py_scope.
Delimit Scope py_scope with py.
Notation "x <- m ;; k" := (bind m (fun x => k))
  (at level 100, m at next level, right associativity) : py_scope.
Local Open Scope py_scope.

Fixpoint mapM {A B} (f : A -> outcome B) (l : list A) : outcome (list B) :=
  match l with
  | [] => Ret []
  | x :: l' => y <- f x ;; ys <- mapM f l' ;; Ret (y :: ys)
  end.

(** * Characters and strings *)

Module Str.

Definition in_range (lo hi : nat) (c : ascii) : bool :=
  let n := nat_of_ascii c in (lo <=? n) && (n <=? hi).

(** [[a-z]], [[A-Z]] and [[0-9]]. *)
Definition is_lower : ascii -> bool := in_range 97 122.
Definition is_upper : ascii -> bool := in_range 65 90.
Definition is_digit : ascii -> bool := in_range 48 57.
Definition is_alnum (c : ascii) : bool := is_lower c || is_upper c || is_digit c.

Definition underscore_char : ascii := "_"%char.
Definition newline_char : ascii := ascii_of_nat 10.

(** [str.lower] and [str.upper] on one ASCII character. *)
Definition lower_char (c : ascii) : ascii :=
  if is_upper c then ascii_of_nat (nat_of_ascii c + 32) else c.
Definition upper_char (c : ascii) : ascii :=
  if is_lower c then ascii_of_nat (nat_of_ascii c - 32) else c.

Fixpoint map (f : ascii -> ascii) (s : string) : string :=
  match s with
  | EmptyString => EmptyString
  | String c s' => String (f c) (map f s')
  end.

Definition lower : string -> string := map lower_char.

(** [sep.join(l)]. *)
Fixpoint join (sep : string) (l : list string) : string :=
  match l with
  | [] => ""
  | [x] => x
  | x :: l' => x +:+ sep +:+ join sep l'
  end.

(** [s[0:n]]. *)
Definition slice_to (n : nat) (s : string) : string := String.substring 0 n s.

(** [needle in s] for two strings. *)
Fixpoint contains (needle s : string) : bool :=
  String.prefix needle s ||
  match s with
  | EmptyString => false
  | String _ s' => contains needle s'
  end.

(** The longest prefix of [s] made of characters in the class [p], and
    the rest of [s]. *)
Fixpoint span (p : ascii -> bool) (s : string) : string * string :=
  match s with
  | EmptyString => (EmptyString, EmptyString)
  | String c s' =>
      if p c then let '(run, rest) := span p s' in (String c run, rest)
      else (EmptyString, s)
  end.

(** Every character of [s] is in the class [p]. *)
Fixpoint all (p : ascii -> bool) (s : string) : bool :=
  match s with
  | EmptyString => true
  | String c s' => p c && all p s'
  end.

(** The characters of a normalized name: [[a-zA-Z0-9_]]. *)
Definition is_word (c : ascii) : bool :=
  is_alnum c || Ascii.eqb c underscore_char.

(** All of [s] but its last character, and that character. *)
Fixpoint unsnoc (s : string) : option (string * ascii) :=
  match s with
  | EmptyString => None
  | String c s' =>
      match unsnoc s' with
      | None => Some (EmptyString, c)
      | Some (init, z) => Some (String c init, z)
      end
  end.

End Str.

(** * Regular-expression substitution

    [re.sub(pattern, repl, s)] replaces the leftmost non-overlapping matches
    of [pattern], scanning left to right.  A pattern is embedded as a
    [matcher]: told whether the scan is at the beginning of the string and
    given the text from the current position on, it answers with the
    replacement text and the number of characters matched.  None of the
    patterns of this program matches the empty string. *)

Module Re.

Definition matcher : Type := bool -> string -> option (string * nat).

(** [skip] counts the characters of the last match still to be passed. *)
Fixpoint scan (m : matcher) (bos : bool) (skip : nat) (s : string) : string :=
  match s with
  | EmptyString => EmptyString
  | String c s' =>
      match skip with
      | S k => scan m false k s'
      | O =>
          match m bos s with
          | Some (repl, n) => repl +:+ scan m false (Nat.pred n) s'
          | None => String c (scan m false 0 s')
          end
      end
  end.

Definition sub (m : matcher) (s : string) : string := scan m true 0 s.

(** [[^a-zA-Z0-9]] replaced by ["_"]. *)
Definition non_alnum : matcher := fun _ s =>
  match s with
  | String c _ => if Str.is_alnum c then None else Some ("_", 1)
  | EmptyString => None
  end.

(** [([A-Z]+)_([A-Z][a-z])] replaced by [\1__\2].  The greedy run of
    capitals must be followed by the underscore, so only the longest run
    can match. *)
Definition acronym_underscore_word : matcher := fun _ s =>
  match Str.span Str.is_upper s with
  | (String r run, String u0 (String a (String b _))) =>
      if Ascii.eqb u0 Str.underscore_char && Str.is_upper a && Str.is_lower b
      then Some (String r run +:+ "__" +:+ String a (String b ""),
                 String.length (String r run) + 3)
      else None
  | _ => None
  end.

(** [([a-z\d])_([A-Z])] replaced by [\1__\2]. *)
Definition lower_underscore_upper : matcher := fun _ s =>
  match s with
  | String a (String u0 (String b _)) =>
      if (Str.is_lower a || Str.is_digit a) && Ascii.eqb u0 Str.underscore_char
         && Str.is_upper b
      then Some (String a ("__" +:+ String b ""), 3)
      else None
  | _ => None
  end.

(** [([A-Z]+)([A-Z][a-z])] replaced by [\1_\2].  The run of capitals
    gives back its last letter to the second group, so the run has at
    least two letters and a lower-case letter follows it. *)
Definition acronym_word : matcher := fun _ s =>
  match Str.span Str.is_upper s with
  | (run, String b _) =>
      match Str.unsnoc run with
      | Some (String r init, a) =>
          if Str.is_lower b
          then Some (String r init +:+ "_" +:+ String a (String b ""),
                     String.length run + 1)
          else None
      | _ => None
      end
  | _ => None
  end.

(** [([a-z\d])([A-Z])] replaced by [\1_\2]. *)
Definition lower_upper : matcher := fun _ s =>
  match s with
  | String a (String b _) =>
      if (Str.is_lower a || Str.is_digit a) && Str.is_upper b
      then Some (String a ("_" +:+ String b ""), 2)
      else None
  | _ => None
  end.

(** ["-"] replaced by ["_"] ([str.replace]). *)
Definition hyphen : matcher := fun _ s =>
  match s with
  | String c _ => if Ascii.eqb c "-"%char then Some ("_", 1) else None
  | EmptyString => None
  end.

(** [(?:^|_)(.)] replaced by the upper-cased group.  The first
    alternative is tried first: at the beginning of the string the first
    character itself is the group, even when it is an underscore. *)
Definition word_start : matcher := fun bos s =>
  match s with
  | String a rest =>
      if bos && negb (Ascii.eqb a Str.newline_char)
      then Some (String (Str.upper_char a) "", 1)
      else
        match rest with
        | String b _ =>
            if Ascii.eqb a Str.underscore_char && negb (Ascii.eqb b Str.newline_char)
            then Some (String (Str.upper_char b) "", 2)
            else None
        | EmptyString => None
        end
  | EmptyString => None
  end.

(** [[a-z]] replaced by the empty string. *)
Definition lower_letter : matcher := fun _ s =>
  match s with
  | String c _ => if Str.is_lower c then Some ("", 1) else None
  | EmptyString => None
  end.

End Re.

(** * Classes of matchers *)

(** A matcher that never shortens the text: the match is not empty and
    the replacement is at least as long as the match. *)
Definition expanding (m : Re.matcher) : Prop :=
  ∀ bos s repl n, m bos s = Some (repl, n) → 1 ≤ n ∧ n ≤ String.length repl.

(** A matcher whose replacement stays in the class [p] when the text
    does. *)
Definition preserves (p : ascii → bool) (m : Re.matcher) : Prop :=
  ∀ bos s repl n, Str.all p s → m bos s = Some (repl, n) → Str.all p repl.

(** * The functions of the [inflection] package used by the program *)

Module inflection.

(** [inflection.underscore(word)]: two substitutions, hyphens to
    underscores, lower case. *)
Definition underscore (word : string) : string :=
  let word := Re.sub Re.acronym_word word in
  let word := Re.sub Re.lower_upper word in
  let word := Re.sub Re.hyphen word in
  Str.lower word.

(** [inflection.camelize(string)] with its default
    [uppercase_first_letter=True]. *)
Definition camelize (s : string) : string := Re.sub Re.word_start s.

End inflection.

(** * ColumnNamer: [inflect_name] and [flatten_key] *)

(** [name[0]] raises [IndexError] on the empty string. *)
Definition first_char (name : string) : outcome ascii :=
  match name with
  | String c _ => Ret c
  | EmptyString => Raise IndexError
  end.

Definition inflect_name (name : string) : outcome string :=
  let name := Re.sub Re.non_alnum name in
  let name := Re.sub Re.acronym_underscore_word name in
  let name := Re.sub Re.lower_underscore_upper name in
  c <- first_char name ;;
  let name := if Str.is_digit c then "_" +:+ name else name in
  Ret (inflection.underscore name).

Definition double_quote : string := String (ascii_of_nat 34) EmptyString.

Definition safe_column_name (name : string) : string :=
  double_quote +:+ name +:+ double_quote.

(** The loop body of [flatten_key] on one segment: the lower-cased capitals
    of the camelized segment, or the first three characters of the segment
    when that acronym has at most one character. *)
Definition reduce_segment (segment : string) : string :=
  let reduced_key := Re.sub Re.lower_letter (inflection.camelize segment) in
  Str.lower (if 1 <? String.length reduced_key then reduced_key
             else Str.slice_to 3 segment).

(** [l[i]] on a list. *)
Definition list_index {A} (l : list A) (i : nat) : outcome A :=
  match l !! i with
  | Some x => Ret x
  | None => Raise IndexError
  end.

(** The [while] loop of [flatten_key]; one unit of fuel per iteration. *)
Fixpoint reduce_loop (fuel : nat) (sep : string) (inflected_key : list string)
    (reducer_index : nat) : outcome (list string) :=
  if (63 <=? String.length (Str.join sep inflected_key))
     && (reducer_index <? length inflected_key)
  then
    match fuel with
    | O => Stuck
    | S fuel' =>
        segment <- list_index inflected_key reducer_index ;;
        reduce_loop fuel' sep
          (<[reducer_index := reduce_segment segment]> inflected_key)
          (S reducer_index)
    end
  else Ret inflected_key.

Definition flatten_key (k : string) (parent_key : list string) (sep : string)
    : outcome string :=
  let full_key := parent_key ++ [k] in
  inflected_key <- mapM inflect_name full_key ;;
  inflected_key <- reduce_loop (length inflected_key) sep inflected_key 0 ;;
  Ret (Str.join sep inflected_key).

(** The segments after the first [i] of them were abbreviated. *)
Definition abbreviated (i : nat) (inflected : list string) : list string :=
  (reduce_segment <$> take i inflected) ++ drop i inflected.

(** The name [a] followed by seventy digits [1]. *)
Definition overlong_segment : string :=
  String "a" (string_of_list_ascii (replicate 70 "1"%char)).

(** * Python values

    The JSON-compatible values of schemas and records.  A float is kept as
    its IEEE-754 binary64 bit pattern; a [dict] keeps its entries in
    insertion order. *)

#[local] Set Warnings "-register-all".
Inductive value : Type :=
| VNone
| VBool (b : bool)
| VInt (n : Z)
| VFloat (bits : Z)
| VStr (s : string)
| VList (elems : list value)
| VDict (entries : list (string * value)).

Module Py.

(** [bool(v)]. *)
Definition truthy (v : value) : bool :=
  match v with
  | VNone => false
  | VBool b => b
  | VInt n => negb (n =? 0)%Z
  | VFloat bits => negb (Z.land bits (2 ^ 63 - 1) =? 0)%Z
  | VStr s => negb (String.eqb s "")
  | VList elems => negb (Nat.eqb (length elems) 0)
  | VDict entries => negb (Nat.eqb (length entries) 0)
  end.

(** [isinstance(v, dict)] and [type(v) is list]. *)
Definition is_dict (v : value) : bool :=
  match v with VDict _ => true | _ => false end.
Definition is_list (v : value) : bool :=
  match v with VList _ => true | _ => false end.

Fixpoint lookup {A} (k : string) (entries : list (string * A)) : option A :=
  match entries with
  | [] => None
  | (k', x) :: rest => if String.eqb k k' then Some x else lookup k rest
  end.

Definition has_key {A} (k : string) (entries : list (string * A)) : bool :=
  match lookup k entries with Some _ => true | None => false end.

(** [d[k] = x] on a dict: an existing key keeps its place. *)
Fixpoint dict_set {A} (k : string) (x : A) (entries : list (string * A))
    : list (string * A) :=
  match entries with
  | [] => [(k, x)]
  | (k', x') :: rest =>
      if String.eqb k k' then (k, x) :: rest else (k', x') :: dict_set k x rest
  end.

(** [dict(items)]. *)
Definition dict_of_items {A} (items : list (string * A)) : list (string * A) :=
  fold_left (fun d kv => dict_set (fst kv) (snd kv) d) items [].

Definition is_str (k : string) (v : value) : bool :=
  match v with VStr s => String.eqb s k | _ => false end.

(** [k in v] for a string [k]. *)
Definition contains (k : string) (v : value) : outcome bool :=
  match v with
  | VDict entries => Ret (has_key k entries)
  | VList elems => Ret (existsb (is_str k) elems)
  | VStr s => Ret (Str.contains k s)
  | _ => Raise TypeError
  end.

(** [v[k]] for a string [k]. *)
Definition getitem (k : string) (v : value) : outcome value :=
  match v with
  | VDict entries =>
      match lookup k entries with
      | Some x => Ret x
      | None => Raise (KeyError k)
      end
  | _ => Raise TypeError
  end.

(** [v[0]]. *)
Definition getitem0 (v : value) : outcome value :=
  match v with
  | VList (x :: _) => Ret x
  | VList [] => Raise IndexError
  | VStr (String c _) => Ret (VStr (String c ""))
  | VStr EmptyString => Raise IndexError
  | VDict _ => Raise (KeyError "0")
  | _ => Raise TypeError
  end.

(** [v.items()], and with it [v.keys()] and [v.values()]. *)
Definition items (v : value) : outcome (list (string * value)) :=
  match v with
  | VDict entries => Ret entries
  | _ => Raise AttributeError
  end.

(** The nesting depth of a value, the fuel of the recursive walks. *)
Fixpoint depth (v : value) : nat :=
  match v with
  | VList elems => S (list_max (List.map depth elems))
  | VDict entries =>
      S (list_max (List.map (fun kv => depth (snd kv)) entries))
  | _ => 0
  end.

End Py.

(** * TypeLattice *)

Definition JSONSCHEMA_TYPES : gset string :=
  list_to_set ["string"; "number"; "integer"; "object"; "array"; "boolean"; "null"].

Definition JSONSCHEMA_TYPE_TO_POSTGRES_TYPE : list (string * string) :=
  [ ("string", "character varying");
    ("number", "numeric");
    ("integer", "bigint");
    ("object", "jsonb");
    ("array", "jsonb");
    ("boolean", "boolean") ].

Definition _JSONSCHEMA_TYPE_CAN_CAST_TO : list (string * gset string) :=
  [ ("string", JSONSCHEMA_TYPES);
    ("number", list_to_set ["integer"; "boolean"]);
    ("integer", list_to_set ["boolean"]);
    ("object", list_to_set ["array"]);
    ("array", ∅);
    ("boolean", ∅);
    ("null", ∅) ].

Definition get_usable_types (types : gset string) : gset string :=
  let types := types ∖ {["null"]} in
  JSONSCHEMA_TYPES ∩ types.

Definition get_castable_types (target_type : string) : gset string :=
  let accepts := default ∅ (Py.lookup target_type _JSONSCHEMA_TYPE_CAN_CAST_TO) in
  let accepts := accepts ∪ {[target_type]} in
  get_usable_types accepts.

(** [sorted(types)] on a set of strings. *)
Definition sorted (types : gset string) : list string :=
  merge_sort String.le (elements types).

(** One iteration of the scoring loop of [most_general_type]. *)
Definition score_step (types : gset string) (best : nat * option string)
    (t : string) : nat * option string :=
  let castable_types := get_castable_types t in
  let score := size (castable_types ∩ types) in
  if fst best <? score then (score, Some t) else best.

Definition most_general_type (types : list string) : string :=
  match types with
  | [] => "string"
  | _ =>
      let types := get_usable_types (list_to_set types) in
      let best := fold_left (score_step types) (sorted types) (0, None) in
      match snd best with
      | None => "string"
      | Some best_type =>
          if decide (types ⊆ get_castable_types best_type) then best_type
          else "string"
      end
  end.

(** The score [most_general_type] gives the kind [t]. *)
Definition score (observed : gset string) (t : string) : nat :=
  size (get_castable_types t ∩ observed).

(** [t] is the highest-scoring observed kind, the first one in the order
    of [sorted] among those with equal score. *)
Definition first_highest (observed : gset string) (t : string) : Prop :=
  t ∈ observed
  ∧ (∀ t', t' ∈ observed → score observed t' ≤ score observed t)
  ∧ (∀ t', t' ∈ observed → score observed t' = score observed t →
           String.le t t').

(** The kind names that reach [most_general_type] from a schema's ["type"].
    A single string is wrapped in a list.  Of a list, [most_general_type]
    builds a set: a list or dict element is unhashable ([TypeError]); any
    other element that is no string is no kind name, [get_usable_types]
    discards it, and a list holding nothing else resolves to ["string"]
    like the empty list.  A dict is iterated by its keys.  A falsy scalar
    takes the early return, a truthy one is not iterable. *)
Fixpoint hashable_names (elems : list value) : outcome (list string) :=
  match elems with
  | [] => Ret []
  | VStr s :: rest => names <- hashable_names rest ;; Ret (s :: names)
  | VList _ :: _ | VDict _ :: _ => Raise TypeError
  | _ :: rest => hashable_names rest
  end.

Definition type_names (types : value) : outcome (list string) :=
  match types with
  | VStr s => Ret [s]
  | VList elems => hashable_names elems
  | VDict entries => Ret (List.map fst entries)
  | _ => if Py.truthy types then Raise TypeError else Ret []
  end.

(** [schema_property['format'] if 'format' in schema_property else None]. *)
Definition property_format_of (schema_property : value) : outcome value :=
  has_format <- Py.contains "format" schema_property ;;
  if has_format then Py.getitem "format" schema_property else Ret VNone.

Definition _column_type_generic (schema_property : value) : outcome string :=
  property_format <- property_format_of schema_property ;;
  types <- Py.getitem "type" schema_property ;;
  types <- type_names types ;;
  let concrete_type := most_general_type types in
  if String.eqb concrete_type "string" && Py.is_str "date-time" property_format
  then Ret "timestamp with time zone"
  else if String.eqb concrete_type "string" && Py.is_str "date" property_format
  then Ret "date"
  else
    let concrete_type :=
      if Py.has_key concrete_type JSONSCHEMA_TYPE_TO_POSTGRES_TYPE
      then concrete_type else "string" in
    match Py.lookup concrete_type JSONSCHEMA_TYPE_TO_POSTGRES_TYPE with
    | Some pg_type => Ret pg_type
    | None => Raise (KeyError concrete_type)
    end.

Definition _column_type_simple (schema_property : value) : outcome string :=
  property_type <- Py.getitem "type" schema_property ;;
  property_format <- property_format_of schema_property ;;
  is_object <- Py.contains "object" property_type ;;
  is_array <- (if is_object then Ret true else Py.contains "array" property_type) ;;
  if is_array then Ret "jsonb"
  else if Py.is_str "date-time" property_format then Ret "timestamp with time zone"
  else if Py.is_str "date" property_format then Ret "date"
  else
    is_number <- Py.contains "number" property_type ;;
    if is_number then Ret "numeric"
    else
      is_integer <- Py.contains "integer" property_type ;;
      is_string <- (if is_integer then Py.contains "string" property_type
                    else Ret false) ;;
      if is_string then Ret "character varying"
      else
        is_boolean <- Py.contains "boolean" property_type ;;
        if is_boolean then Ret "boolean"
        else
          is_integer <- Py.contains "integer" property_type ;;
          if is_integer then Ret "bigint" else Ret "character varying".

Definition column_type (schema_property : value) (use_simple : bool)
    : outcome string :=
  if use_simple then _column_type_simple schema_property
  else _column_type_generic schema_property.

(** A column clause keeps the quoted name and the type apart;
    [column_clause_text] is the text the source formats. *)
Record clause : Type := Clause { clause_name : string; clause_type : string }.

Definition column_clause_text (c : clause) : string :=
  clause_name c +:+ " " +:+ clause_type c.

Definition column_clause (name : string) (schema_property : value)
    (use_simple_column_type : bool) : outcome clause :=
  type <- column_type schema_property use_simple_column_type ;;
  Ret (Clause (safe_column_name name) type).

(** * SchemaFlattener *)

(** [sorted(items, key=lambda item: item[0])].  The order of strings is
    the order of their code points. *)
Definition key_le {A} (x y : string * A) : Prop := String.le (fst x) (fst y).

#[local] Instance key_le_dec {A} : RelDecision (@key_le A).
Proof. intros x y. unfold key_le. apply _. Defined.

Definition sorted_by_key {A} (items : list (string * A)) : list (string * A) :=
  merge_sort key_le items.

(** [itertools.groupby(l, key)]: the runs of adjacent items with equal
    keys, each with its key. *)
Fixpoint groupby {A} (key : A -> string) (l : list A) : list (string * list A) :=
  match l with
  | [] => []
  | x :: l' =>
      match groupby key l' with
      | (k, g) :: groups =>
          if String.eqb (key x) k then (k, x :: g) :: groups
          else (key x, [x]) :: (k, g) :: groups
      | [] => [(key x, [x])]
      end
  end.

Definition duplicate_message (k : string) : string :=
  "Duplicate column name produced in schema: " +:+ k.

Fixpoint check_groups {A} (groups : list (string * list A)) : outcome unit :=
  match groups with
  | [] => Ret tt
  | (k, g) :: rest =>
      if 1 <? length g then Raise (ValueError (duplicate_message k))
      else check_groups rest
  end.

(** The first name that is equal to its successor. *)
Fixpoint first_adjacent (keys : list string) : option string :=
  match keys with
  | a :: (b :: _) as rest =>
      if String.eqb a b then Some a else first_adjacent rest
  | _ => None
  end.

(** [elem['type'] = [...]] on the dict [elem]. *)
Definition set_type (elem : value) (kinds : list string) : value :=
  match elem with
  | VDict entries => VDict (Py.dict_set "type" (VList (List.map VStr kinds)) entries)
  | _ => elem
  end.

(** The body of the [for] loop of [flatten_schema] on one entry of
    [d['properties'].items()]: the items it adds to [items] (none on
    [continue] and after the warning).  [rec] is the recursive call. *)
Definition flatten_schema_entry
    (rec : value -> list string -> string -> outcome (list (string * value)))
    (k : string) (v : value) (parent_key : list string) (sep : string)
    : outcome (list (string * value)) :=
  new_key <- flatten_key k parent_key sep ;;
  any_of <- Py.contains "anyOf" v ;;
  v <- (if any_of then alternatives <- Py.getitem "anyOf" v ;;
                       Py.getitem0 alternatives
        else Ret v) ;;
  keys <- Py.items v ;;
  if Py.has_key "type" keys then
    type <- Py.getitem "type" v ;;
    is_object <- Py.contains "object" type ;;
    has_properties <- (if is_object then Py.contains "properties" v
                       else Ret false) ;;
    if has_properties then rec v (parent_key ++ [k]) sep
    else Ret [(new_key, v)]
  else
    match keys with
    | [] => Ret []
    | (_, first) :: _ =>
        elem <- Py.getitem0 first ;;
        type <- Py.getitem "type" elem ;;
        if Py.is_str "string" type
        then Ret [(new_key, set_type elem ["null"; "string"])]
        else if Py.is_str "array" type
        then Ret [(new_key, set_type elem ["null"; "array"])]
        else Ret []
    end.

(** The [for] loop of [flatten_schema]; [items] is the list built so far. *)
Fixpoint flatten_schema_loop
    (rec : value -> list string -> string -> outcome (list (string * value)))
    (entries : list (string * value)) (parent_key : list string) (sep : string)
    (items : list (string * value)) : outcome (list (string * value)) :=
  match entries with
  | [] => Ret items
  | (k, v) :: rest =>
      added <- flatten_schema_entry rec k v parent_key sep ;;
      flatten_schema_loop rec rest parent_key sep (items ++ added)
  end.

Fixpoint flatten_schema_aux (fuel : nat) (d : value) (parent_key : list string)
    (sep : string) : outcome (list (string * value)) :=
  match fuel with
  | O => Stuck
  | S fuel' =>
      properties <- Py.getitem "properties" d ;;
      entries <- Py.items properties ;;
      items <- flatten_schema_loop (flatten_schema_aux fuel') entries
                 parent_key sep [] ;;
      let sorted_items := sorted_by_key items in
      _ <- check_groups (groupby fst sorted_items) ;;
      Ret (Py.dict_of_items sorted_items)
  end.

Definition flatten_schema (d : value) (parent_key : list string) (sep : string)
    : outcome (list (string * value)) :=
  flatten_schema_aux (S (Py.depth d)) d parent_key sep.

(** The columns the walk of [flatten_schema] registers, one for every
    property path that ends in a column: the loop of [flatten_schema]
    itself, without the collision check and without [dict(...)] at any
    level. *)
Fixpoint schema_columns_aux (fuel : nat) (d : value) (parent_key : list string)
    (sep : string) : outcome (list (string * value)) :=
  match fuel with
  | O => Stuck
  | S fuel' =>
      properties <- Py.getitem "properties" d ;;
      entries <- Py.items properties ;;
      flatten_schema_loop (schema_columns_aux fuel') entries parent_key sep []
  end.

Definition schema_columns (d : value) (parent_key : list string) (sep : string)
    : outcome (list (string * value)) :=
  schema_columns_aux (S (Py.depth d)) d parent_key sep.

(** How the recursive call with the collision check answers where the
    walk without it registers [cols]. *)
Definition checked (real : outcome (list (string * value)))
    (cols : list (string * value)) : Prop :=
  (NoDup (cols.*1) ∧ ∃ flat, real = Ret flat ∧ flat ≡ₚ cols)
  ∨ (¬ NoDup (cols.*1) ∧ ∃ k, real = Raise (ValueError (duplicate_message k))).

Section Record_flattening.

(** [json.dumps], the serializer of composite values. *)
Variable json_dumps : value -> string.

(** The [for] loop of [flatten_record] over [d.items()]. *)
Fixpoint flatten_record_loop
    (rec : value -> list string -> string -> outcome (list (string * value)))
    (entries : list (string * value)) (parent_key : list string) (sep : string)
    (items : list (string * value)) : outcome (list (string * value)) :=
  match entries with
  | [] => Ret items
  | (k, v) :: rest =>
      new_key <- flatten_key k parent_key sep ;;
      items <-
        (if Py.is_dict v then
           sub <- rec v (parent_key ++ [k]) sep ;;
           Ret ((items ++ sub) ++ [(new_key, VStr (json_dumps v))])
         else
           Ret (items ++ [(new_key, if Py.is_list v then VStr (json_dumps v)
                                    else v)])) ;;
      flatten_record_loop rec rest parent_key sep items
  end.

Fixpoint flatten_record_aux (fuel : nat) (d : value) (parent_key : list string)
    (sep : string) : outcome (list (string * value)) :=
  if negb (Py.truthy d) || negb (Py.is_dict d) then Ret []
  else
    match fuel with
    | O => Stuck
    | S fuel' =>
        entries <- Py.items d ;;
        items <- flatten_record_loop (flatten_record_aux fuel') entries
                   parent_key sep [] ;;
        Ret (Py.dict_of_items items)
    end.

Definition flatten_record (d : value) (parent_key : list string) (sep : string)
    : outcome (list (string * value)) :=
  flatten_record_aux (Py.depth d) d parent_key sep.

(** What one entry of a record adds to [items]: a nested mapping adds
    its flattened children and then its own path with its serialized
    value, a list adds its path with its serialized value, any other
    value adds its path with the value itself. *)
Definition contributes (parent_key : list string) (sep : string)
    (entry : string * value) (chunk : list (string * value)) : Prop :=
  ∃ new_key,
    flatten_key (fst entry) parent_key sep = Ret new_key
    ∧ match snd entry with
      | VDict _ =>
          ∃ children,
            flatten_record (snd entry)
              (parent_key ++ [fst entry]) sep = Ret children
            ∧ chunk = children ++ [(new_key, VStr (json_dumps (snd entry)))]
      | VList _ => chunk = [(new_key, VStr (json_dumps (snd entry)))]
      | _ => chunk = [(new_key, snd entry)]
      end.

End Record_flattening.

(** * Statements, connections and sessions

    The program formats SQL text and hands it to a cursor.  A [statement]
    keeps the arguments of the format string apart, so that a connection
    can act on them; [sql_text] is the text (the layout of the source's
    multi-line literals is not kept).  Names in a statement are the very
    strings the source formats in: column names are quoted, a table is
    [schema.table] or [table_temp]. *)

Inductive statement : Type :=
| SelectColumns (table_name schema_name : string)
| CreateTable (temporary : bool) (table : string) (columns : list clause)
    (primary_key : option (list string))
| Copy (table : string) (columns : list string) (file : list (list string))
| Update (table : string) (columns : list string) (temp_table : string)
    (key : list string)
| InsertAll (table : string) (columns : list string) (temp_table : string)
| InsertNew (table : string) (columns : list string) (temp_table : string)
    (key : list string)
| DropTable (table : string)
| AddColumn (table : string) (column : clause)
| DropColumn (table : string) (column_name : string).

Definition sql_text (q : statement) : string :=
  match q with
  | SelectColumns _ _ =>
      "SELECT column_name, data_type FROM information_schema.columns " +:+
      "WHERE lower(table_name) = %s AND lower(table_schema) = %s"
  | CreateTable temporary table columns primary_key =>
      "CREATE " +:+ (if temporary then "TEMP " else EmptyString) +:+ "TABLE "
      +:+ table +:+ " (" +:+
      Str.join ", "
        (List.map column_clause_text columns ++
         match primary_key with
         | Some names => ["PRIMARY KEY (" +:+ Str.join ", " names +:+ ")"]
         | None => []
         end) +:+ ")"
  | Copy table columns _ =>
      "COPY " +:+ table +:+ " (" +:+ Str.join ", " columns +:+
      ") FROM STDIN WITH (FORMAT CSV)"
  | Update table columns temp_table key =>
      "UPDATE " +:+ table +:+ " SET " +:+
      Str.join ", " (List.map (fun c => c +:+ "=s." +:+ c) columns) +:+
      " FROM " +:+ temp_table +:+ " s WHERE " +:+
      Str.join " AND "
        (List.map (fun c => "s." +:+ c +:+ " = " +:+ table +:+ "." +:+ c) key)
  | InsertAll table columns temp_table =>
      "INSERT INTO " +:+ table +:+ " (" +:+ Str.join ", " columns +:+
      ") (SELECT s.* FROM " +:+ temp_table +:+ " s)"
  | InsertNew table columns temp_table key =>
      "INSERT INTO " +:+ table +:+ " (" +:+ Str.join ", " columns +:+
      ") (SELECT s.* FROM " +:+ temp_table +:+ " s LEFT OUTER JOIN " +:+ table
      +:+ " t ON " +:+
      Str.join " AND " (List.map (fun c => "s." +:+ c +:+ " = t." +:+ c) key)
      +:+ " WHERE " +:+
      Str.join " AND " (List.map (fun c => "t." +:+ c +:+ " is null") key) +:+ ")"
  | DropTable table => "DROP TABLE " +:+ table
  | AddColumn table column =>
      "ALTER TABLE " +:+ table +:+ " ADD COLUMN " +:+ column_clause_text column
  | DropColumn table column_name =>
      "ALTER TABLE " +:+ table +:+ " DROP COLUMN " +:+ column_name
  end.

(** A row fetched through a [DictCursor]. *)
Definition dict_row : Type := list (string * string).

(** What the server answers to a statement: the rows a [fetchall] returns,
    or an exception. *)
Inductive reply : Type :=
| Rows (rows : list dict_row)
| Failure (e : exn).

(** The connection provider: [execute] is [cursor.execute] and
    [cursor.copy_expert]; leaving a [with connection] block commits, or
    rolls back when the block raised. *)
Class Connection (D : Type) : Type := {
  execute : statement -> D -> reply * D;
  commit : D -> D;
  rollback : D -> D
}.

Inductive event : Type :=
| Submitted (q : statement)
| Committed
| RolledBack.

Record session (D : Type) : Type := Session { db : D; log : list event }.
Arguments Session {D} db log.
Arguments db {D} s.
Arguments log {D} s.

(** Code that talks to the database: a state-and-exception monad. *)
Definition io (D A : Type) : Type := session D -> outcome A * session D.

Definition io_bind {D A B} (m : io D A) (k : A -> io D B) : io D B :=
  fun s =>
    match m s with
    | (Ret a, s') => k a s'
    | (Raise e, s') => (Raise e, s')
    | (Stuck, s') => (Stuck, s')
    end.

Definition lift {D A} (o : outcome A) : io D A := fun s => (o, s).

Notation "x <~ m ;; k" := (io_bind m (fun x => k))
  (at level 100, m at next level, right associativity) : py_scope.

Fixpoint for_each {D A} (l : list A) (body : A -> io D unit) : io D unit :=
  match l with
  | [] => lift (Ret tt)
  | x :: l' => _ <~ body x ;; for_each l' body
  end.

Record StreamSchemaMessage : Type := {
  stream : string;
  schema : value;
  key_properties : list string
}.

(** The keys of the target configuration the class reads; the connection
    parameters are the provider's. *)
Record TargetConfig : Type := {
  config_schema : string;
  config_use_simple_column_type : option bool
}.

Definition primary_column_names (stream_schema_message : StreamSchemaMessage)
    : outcome (list string) :=
  mapM (fun p => name <- inflect_name p ;; Ret (safe_column_name name))
       (key_properties stream_schema_message).

Module DbSync.

Record t : Type := {
  self_target_config : TargetConfig;
  self_use_simple_column_type : bool;
  self_schema_name : string;
  self_stream_schema_message : StreamSchemaMessage;
  self_flatten_schema : list (string * value)
}.

Definition __init__ (target_config : TargetConfig)
    (stream_schema_message : StreamSchemaMessage) : outcome t :=
  let use_simple_column_type :=
    default true (config_use_simple_column_type target_config) in
  let schema_name := config_schema target_config in
  flattened <- flatten_schema (schema stream_schema_message) [] "__" ;;
  Ret {| self_target_config := target_config;
         self_use_simple_column_type := use_simple_column_type;
         self_schema_name := schema_name;
         self_stream_schema_message := stream_schema_message;
         self_flatten_schema := flattened |}.

Definition table_name (self : t) (table_name : string) (is_temporary : bool)
    : outcome string :=
  table_name <- inflect_name table_name ;;
  Ret (if is_temporary then table_name +:+ "_temp"
       else self_schema_name self +:+ "." +:+ table_name).

Definition column_names (self : t) : list string :=
  List.map (fun item => safe_column_name (fst item)) (self_flatten_schema self).

Definition insert_from_temp_table (self : t) : outcome statement :=
  let stream_schema_message := self_stream_schema_message self in
  let columns := column_names self in
  table <- table_name self (stream stream_schema_message) false ;;
  temp_table <- table_name self (stream stream_schema_message) true ;;
  if Nat.eqb (length (key_properties stream_schema_message)) 0
  then Ret (InsertAll table columns temp_table)
  else
    key <- primary_column_names stream_schema_message ;;
    Ret (InsertNew table columns temp_table key).

Definition update_from_temp_table (self : t) : outcome statement :=
  let stream_schema_message := self_stream_schema_message self in
  let columns := column_names self in
  table <- table_name self (stream stream_schema_message) false ;;
  temp_table <- table_name self (stream stream_schema_message) true ;;
  key <- primary_column_names stream_schema_message ;;
  Ret (Update table columns temp_table key).

Definition drop_temp_table (self : t) : outcome statement :=
  let stream_schema_message := self_stream_schema_message self in
  temp_table <- table_name self (stream stream_schema_message) true ;;
  Ret (DropTable temp_table).

Definition create_table_query (self : t) (is_temporary : bool)
    : outcome statement :=
  let stream_schema_message := self_stream_schema_message self in
  columns <- mapM (fun item => column_clause (fst item) (snd item)
                                 (self_use_simple_column_type self))
                  (self_flatten_schema self) ;;
  primary_key <-
    (if Nat.eqb (length (key_properties stream_schema_message)) 0
     then Ret None
     else names <- primary_column_names stream_schema_message ;;
          Ret (Some names)) ;;
  table <- table_name self (stream stream_schema_message) is_temporary ;;
  Ret (CreateTable is_temporary table columns primary_key).

(** The pure part of the replacement loop of [update_columns] on one
    item of the flattened schema.  The live column is looked up before
    the test that the name is live. *)
Definition replacement (self : t) (columns_dict : list (string * dict_row))
    (item : string * value) : outcome (list (string * clause)) :=
  let '(name, properties_schema) := item in
  let name_lower := Str.lower name in
  col_type <- column_type properties_schema (self_use_simple_column_type self) ;;
  let col_type := Str.lower col_type in
  column <- match Py.lookup name_lower columns_dict with
            | Some column => Ret column
            | None => Raise (KeyError name_lower)
            end ;;
  col_data_type <- match Py.lookup "data_type" column with
                   | Some data_type => Ret data_type
                   | None => Raise (KeyError "data_type")
                   end ;;
  let col_data_type := Str.lower col_data_type in
  if Py.has_key name_lower columns_dict
     && negb (String.eqb col_data_type col_type)
     && negb (String.eqb col_data_type "timestamp without time zone"
              && String.eqb col_type "timestamp with time zone")
  then
    column <- column_clause name properties_schema
                (self_use_simple_column_type self) ;;
    Ret [(safe_column_name name, column)]
  else Ret [].

Fixpoint columns_to_replace (self : t) (columns_dict : list (string * dict_row))
    (items : list (string * value)) : outcome (list (string * clause)) :=
  match items with
  | [] => Ret []
  | item :: rest =>
      found <- replacement self columns_dict item ;;
      more <- columns_to_replace self columns_dict rest ;;
      Ret (found ++ more)
  end.

(** The list comprehension [columns_to_add] of [update_columns]. *)
Fixpoint columns_to_add (self : t) (columns_dict : list (string * dict_row))
    (items : list (string * value)) : outcome (list clause) :=
  match items with
  | [] => Ret []
  | (name, properties_schema) :: rest =>
      if Py.has_key (Str.lower name) columns_dict
      then columns_to_add self columns_dict rest
      else
        column <- column_clause name properties_schema
                    (self_use_simple_column_type self) ;;
        more <- columns_to_add self columns_dict rest ;;
        Ret (column :: more)
  end.

(** [{column['column_name'].lower(): column for column in columns}]. *)
Definition columns_by_name (columns : list dict_row)
    : outcome (list (string * dict_row)) :=
  items <- mapM (fun column =>
                   match Py.lookup "column_name" column with
                   | Some name => Ret (Str.lower name, column)
                   | None => Raise (KeyError "column_name")
                   end) columns ;;
  Ret (Py.dict_of_items items).

Section Records.

(** [json.dumps]; [json.loads] on a [str], [None] when the text is no JSON
    document ([JSONDecodeError]); the builtin [str]. *)
Variable json_dumps : value -> string.
Variable json_loads : string -> option value.
Variable str : value -> string.

(** The [try] block of [record_to_csv_row] on a value bound for a [jsonb]
    column: [json.loads] raises [TypeError] on anything but a [str] and
    [JSONDecodeError] on a [str] that is no JSON document; both are caught
    and the value is serialized. *)
Definition jsonb_value (v : value) : value :=
  match v with
  | VStr text =>
      match json_loads text with
      | Some _ => v
      | None => VStr (json_dumps v)
      end
  | _ => VStr (json_dumps v)
  end.

(** The body of the [for] loop of [record_to_csv_row] on one column. *)
Definition csv_field (self : t) (flatten : list (string * value))
    (name : string) (schema : value) : outcome value :=
  match Py.lookup name flatten with
  | None | Some VNone => Ret (VStr "")
  | Some value =>
      type <- column_type schema (self_use_simple_column_type self) ;;
      let type := Str.lower type in
      Ret (if String.eqb type "jsonb" then jsonb_value value else value)
  end.

Fixpoint record_to_csv_row_loop (self : t) (flatten : list (string * value))
    (items : list (string * value)) (row : list value) : outcome (list value) :=
  match items with
  | [] => Ret row
  | (name, schema) :: rest =>
      value <- csv_field self flatten name schema ;;
      record_to_csv_row_loop self flatten rest (row ++ [value])
  end.

Definition record_to_csv_row (self : t) (record : value)
    : outcome (list value) :=
  flatten <- flatten_record json_dumps record [] "__" ;;
  record_to_csv_row_loop self flatten (self_flatten_schema self) [].

(** [None] is the Python [None]. *)
Definition record_primary_key_string (self : t) (record : value)
    : outcome (option string) :=
  let key_properties := key_properties (self_stream_schema_message self) in
  if Nat.eqb (length key_properties) 0 then Ret None
  else if negb (Py.truthy record) then Ret None
  else
    flatten <- flatten_record json_dumps record [] "__" ;;
    key_props <- mapM (fun p =>
                         name <- inflect_name p ;;
                         match Py.lookup name flatten with
                         | Some value => Ret (str value)
                         | None => Raise (KeyError name)
                         end) key_properties ;;
    Ret (Some (Str.join "," key_props)).

End Records.

Section Methods.

Context {D : Type} `{Connection D}.

(** [cursor.execute(q)] inside an open [with connection] block. *)
Definition cursor_execute (q : statement) : io D (list dict_row) :=
  fun s =>
    let '(r, d) := execute q (db s) in
    (match r with Rows rows => Ret rows | Failure e => Raise e end,
     Session d (log s ++ [Submitted q])).

(** [with self.open_connection() as connection: body]. *)
Definition with_connection {A} (body : io D A) : io D A :=
  fun s =>
    match body s with
    | (Ret a, s') => (Ret a, Session (commit (db s')) (log s' ++ [Committed]))
    | (r, s') => (r, Session (rollback (db s')) (log s' ++ [RolledBack]))
    end.

Definition query (q : statement) : io D (list dict_row) :=
  with_connection (cursor_execute q).

Definition load_csv (self : t) (file : list (list string)) (count : nat)
    : io D unit :=
  let stream_schema_message := self_stream_schema_message self in
  let stream := stream stream_schema_message in
  with_connection (
    create <~ lift (create_table_query self true) ;;
    _ <~ cursor_execute create ;;
    temp_table <~ lift (table_name self stream true) ;;
    let copy_sql := Copy temp_table (column_names self) file in
    _ <~ cursor_execute copy_sql ;;
    _ <~ (if 0 <? length (key_properties stream_schema_message)
          then update <~ lift (update_from_temp_table self) ;;
               _ <~ cursor_execute update ;;
               lift (Ret tt)
          else lift (Ret tt)) ;;
    insert <~ lift (insert_from_temp_table self) ;;
    _ <~ cursor_execute insert ;;
    drop <~ lift (drop_temp_table self) ;;
    _ <~ cursor_execute drop ;;
    lift (Ret tt)).

(** The statements of one batch, in the order [load_csv] submits
    them. *)
Definition batch_statements (self : t) (file : list (list string))
    : outcome (list statement) :=
  let stream_schema_message := self_stream_schema_message self in
  create <- create_table_query self true ;;
  temp_table <- table_name self (stream stream_schema_message) true ;;
  update <- (if 0 <? length (key_properties stream_schema_message)
             then update <- update_from_temp_table self ;; Ret [update]
             else Ret []) ;;
  insert <- insert_from_temp_table self ;;
  drop <- drop_temp_table self ;;
  Ret ([create; Copy temp_table (column_names self) file] ++ update
       ++ [insert; drop]).

(** Statements submitted one after the other on one cursor, up to the
    first that fails. *)
Fixpoint submit_all (plan : list statement) : io D unit :=
  match plan with
  | [] => lift (Ret tt)
  | q :: rest => _ <~ cursor_execute q ;; submit_all rest
  end.

Definition get_table_columns (self : t) (table_name : string)
    : io D (list dict_row) :=
  query (SelectColumns (Str.lower table_name)
                       (Str.lower (self_schema_name self))).

Definition add_column (self : t) (column : clause) (stream : string)
    : io D unit :=
  table <~ lift (table_name self stream false) ;;
  _ <~ query (AddColumn table column) ;;
  lift (Ret tt).

Definition drop_column (self : t) (column_name : string) (stream : string)
    : io D unit :=
  table <~ lift (table_name self stream false) ;;
  _ <~ query (DropColumn table column_name) ;;
  lift (Ret tt).

Definition update_columns (self : t) : io D unit :=
  let stream_schema_message := self_stream_schema_message self in
  let stream := stream stream_schema_message in
  table <~ lift (inflect_name stream) ;;
  columns <~ get_table_columns self table ;;
  columns_dict <~ lift (columns_by_name columns) ;;
  to_add <~ lift (columns_to_add self columns_dict (self_flatten_schema self)) ;;
  _ <~ for_each to_add (fun column => add_column self column stream) ;;
  to_replace <~ lift (columns_to_replace self columns_dict
                        (self_flatten_schema self)) ;;
  for_each to_replace (fun '(column_name, column) =>
    _ <~ drop_column self column_name stream ;;
    add_column self column stream).

End Methods.

(** [get_tables] asks the catalogue for the tables of a schema, with the
    schema name as a parameter.  The provider answers; the log keeps the
    statements of type [statement], so this query shows in it by the
    closing of its connection block only. *)
Class Catalogue (D : Type) : Type := {
  select_tables : string -> D -> reply * D
}.

Section Table_sync.

Context {D : Type} `{Connection D} `{Catalogue D}.

Definition get_tables (self : t) : io D (list dict_row) :=
  with_connection (fun s =>
    let '(r, d) := select_tables (self_schema_name self) (db s) in
    (match r with Rows rows => Ret rows | Failure e => Raise e end,
     Session d (log s))).

(** The list comprehension [found_tables] of [sync_table]. *)
Fixpoint found_tables (stream : string) (tables : list dict_row)
    : outcome (list dict_row) :=
  match tables with
  | [] => Ret []
  | table :: rest =>
      match Py.lookup "table_name" table with
      | None => Raise (KeyError "table_name")
      | Some table_name =>
          more <- found_tables stream rest ;;
          Ret (if String.eqb (Str.lower table_name) (Str.lower stream)
               then table :: more else more)
      end
  end.

Definition sync_table (self : t) : io D unit :=
  let stream_schema_message := self_stream_schema_message self in
  stream <~ lift (inflect_name (stream stream_schema_message)) ;;
  tables <~ get_tables self ;;
  found <~ lift (found_tables stream tables) ;;
  if Nat.eqb (length found) 0
  then
    create <~ lift (create_table_query self false) ;;
    _ <~ query create ;;
    lift (Ret tt)
  else update_columns self.

End Table_sync.

End DbSync.

(** * A PostgreSQL session as a connection provider

    The server state the program can observe: relations by name, each with
    its catalogue columns (name and data type) and its rows, and the state
    as of the last commit.  A row maps column names to the text of their
    fields; the empty text and a missing column are NULL.  The model covers
    the statement forms the program emits.  It checks that relations and
    columns exist and that a CSV line has one field per column.

    What the model leaves to the server.
    - Identifiers are kept as written.  The server keeps the first 63
      bytes of an identifier and refuses the empty one, so the model
      stands for the server on the names [Pg.kept_whole] accepts; the
      names the program emits are ASCII, one byte per character.
    - The text of a statement is taken to parse, and the schema named in
      it to exist ([create_schema_if_not_exists] is the caller's).
    - The server's type and constraint checks are not modelled: a field
      is a text, and a PRIMARY KEY clause is carried by the statement but
      not enforced. *)

Module Pg.

Record relation : Type := Relation {
  rel_columns : list (string * string);
  rel_rows : list dict_row
}.

Record state : Type := State {
  tables : gmap string relation;
  committed : gmap string relation
}.

(** An unquoted identifier is folded to lower case. *)
Definition fold_name (text : string) : string := Str.lower text.

(** The longest identifier the server stores: [NAMEDATALEN - 1] bytes. *)
Definition max_identifier_length : nat := 63.

(** The server stores the identifier [name] as written: it is not empty
    and within the bound, so nothing of it is cut off. *)
Definition kept_whole (name : string) : bool :=
  (0 <? String.length name) && (String.length name <=? max_identifier_length).

(** The name inside a quoted identifier. *)
Definition unquote (name : string) : string :=
  match name with
  | String _ rest =>
      match Str.unsnoc rest with
      | Some (body, _) => body
      | None => EmptyString
      end
  | EmptyString => EmptyString
  end.

Definition has_column (r : relation) (quoted : string) : bool :=
  Py.has_key (unquote quoted) (rel_columns r).

Definition field (row : dict_row) (name : string) : string :=
  default EmptyString (Py.lookup name row).

(** [s.k = t.k] for every key column: NULL equals nothing. *)
Definition key_match (key : list string) (s t : dict_row) : bool :=
  forallb (fun k => negb (String.eqb (field s (unquote k)) EmptyString)
                    && String.eqb (field s (unquote k)) (field t (unquote k)))
          key.

(** The row [SELECT s.*] yields, under the names of the insert's column
    list. *)
Definition select_star (s : relation) (columns : list string) (row : dict_row)
    : dict_row :=
  zip (List.map unquote columns)
      (List.map (fun c => field row (fst c)) (rel_columns s)).

Definition assign (columns : list string) (s t : dict_row) : dict_row :=
  fold_left (fun t c => Py.dict_set (unquote c) (field s (unquote c)) t)
            columns t.

Definition put (name : string) (r : relation) (st : state) : state :=
  State (<[name := r]> (tables st)) (committed st).

Definition failed (text : string) (st : state) : reply * state :=
  (Failure (DatabaseError text), st).

Definition done (st : state) : reply * state := (Rows [], st).

Definition run (q : statement) (st : state) : reply * state :=
  match q with
  | SelectColumns table_name schema_name =>
      match tables st !! (schema_name +:+ "." +:+ table_name) with
      | Some r =>
          (Rows (List.map (fun c => [("column_name", fst c); ("data_type", snd c)])
                          (rel_columns r)), st)
      | None => (Rows [], st)
      end
  | CreateTable _ table columns _ =>
      match tables st !! fold_name table with
      | Some _ => failed "relation already exists" st
      | None =>
          done (put (fold_name table)
                    (Relation (List.map (fun c => (unquote (clause_name c),
                                                   clause_type c)) columns) [])
                    st)
      end
  | Copy table columns file =>
      match tables st !! fold_name table with
      | None => failed "relation does not exist" st
      | Some r =>
          if Nat.eqb (length columns) 0 then failed "syntax error" st
          else if negb (forallb (has_column r) columns)
          then failed "column does not exist" st
          else if negb (forallb (fun line => Nat.eqb (length line) (length columns))
                                file)
          then failed "wrong number of fields" st
          else
            done (put (fold_name table)
                      (Relation (rel_columns r)
                         (rel_rows r ++
                          List.map (zip (List.map unquote columns)) file))
                      st)
      end
  | Update table columns temp_table key =>
      match tables st !! fold_name table, tables st !! fold_name temp_table with
      | Some t, Some s =>
          if Nat.eqb (length columns) 0 || Nat.eqb (length key) 0
          then failed "syntax error" st
          else if negb (forallb (has_column t) (columns ++ key)
                        && forallb (has_column s) (columns ++ key))
          then failed "column does not exist" st
          else
            done (put (fold_name table)
                      (Relation (rel_columns t)
                         (List.map (fun row =>
                            match List.find (fun srow => key_match key srow row)
                                            (rel_rows s) with
                            | Some srow => assign columns srow row
                            | None => row
                            end) (rel_rows t)))
                      st)
      | _, _ => failed "relation does not exist" st
      end
  | InsertAll table columns temp_table =>
      match tables st !! fold_name table, tables st !! fold_name temp_table with
      | Some t, Some s =>
          if Nat.eqb (length columns) 0 then failed "syntax error" st
          else if negb (forallb (has_column t) columns)
          then failed "column does not exist" st
          else if negb (Nat.eqb (length (rel_columns s)) (length columns))
          then failed "wrong number of expressions" st
          else
            done (put (fold_name table)
                      (Relation (rel_columns t)
                         (rel_rows t ++
                          List.map (select_star s columns) (rel_rows s)))
                      st)
      | _, _ => failed "relation does not exist" st
      end
  | InsertNew table columns temp_table key =>
      match tables st !! fold_name table, tables st !! fold_name temp_table with
      | Some t, Some s =>
          if Nat.eqb (length columns) 0 || Nat.eqb (length key) 0
          then failed "syntax error" st
          else if negb (forallb (has_column t) (columns ++ key)
                        && forallb (has_column s) key)
          then failed "column does not exist" st
          else if negb (Nat.eqb (length (rel_columns s)) (length columns))
          then failed "wrong number of expressions" st
          else
            done (put (fold_name table)
                      (Relation (rel_columns t)
                         (rel_rows t ++
                          List.map (select_star s columns)
                            (List.filter
                               (fun srow =>
                                  negb (existsb (key_match key srow) (rel_rows t)))
                               (rel_rows s))))
                      st)
      | _, _ => failed "relation does not exist" st
      end
  | DropTable table =>
      match tables st !! fold_name table with
      | Some _ => done (State (delete (fold_name table) (tables st)) (committed st))
      | None => failed "relation does not exist" st
      end
  | AddColumn table column =>
      match tables st !! fold_name table with
      | Some t =>
          if has_column t (clause_name column)
          then failed "column already exists" st
          else
            done (put (fold_name table)
                      (Relation (rel_columns t ++
                                 [(unquote (clause_name column), clause_type column)])
                                (rel_rows t))
                      st)
      | None => failed "relation does not exist" st
      end
  | DropColumn table column_name =>
      match tables st !! fold_name table with
      | Some t =>
          if has_column t column_name
          then
            let keep := fun (c : string * string) =>
                          negb (String.eqb (fst c) (unquote column_name)) in
            done (put (fold_name table)
                      (Relation (List.filter keep (rel_columns t))
                                (List.map (List.filter keep) (rel_rows t)))
                      st)
          else failed "column does not exist" st
      | None => failed "relation does not exist" st
      end
  end.

#[global] Instance connection : Connection state := {|
  execute := run;
  commit := fun st => State (tables st) (tables st);
  rollback := fun st => State (committed st) (committed st)
|}.

(** A state with one committed relation. *)
Definition single (name : string) (r : relation) : state :=
  State {[ name := r ]} {[ name := r ]}.

Definition start (st : state) : session state := Session st [].

End Pg.

(** The tables of a schema as [information_schema.tables] lists them:
    the relations stored under [table_schema.table_name]. *)
Fixpoint strip_prefix (prefix s : string) : option string :=
  match prefix, s with
  | EmptyString, _ => Some s
  | String a prefix', String b s' =>
      if Ascii.eqb a b then strip_prefix prefix' s' else None
  | _, _ => None
  end.

#[global] Instance pg_catalogue : DbSync.Catalogue Pg.state := {|
  DbSync.select_tables := fun table_schema st =>
    (Rows (omap (fun entry =>
                   match strip_prefix (table_schema +:+ ".") (fst entry) with
                   | Some table_name => Some [("table_name", table_name)]
                   | None => None
                   end)
                (map_to_list (Pg.tables st))), st)
|}.

(** * Example streams *)

Definition kind (name : string) : value :=
  VDict [("type", VList [VStr "null"; VStr name])].

Definition users_config : TargetConfig :=
  {| config_schema := "public"; config_use_simple_column_type := None |}.

Definition users_message : StreamSchemaMessage := {|
  stream := "Users";
  schema := VDict [("properties",
                    VDict [("id", kind "integer"); ("fullName", kind "string")])];
  key_properties := []
|}.

Definition users_sync : DbSync.t := {|
  DbSync.self_target_config := users_config;
  DbSync.self_use_simple_column_type := true;
  DbSync.self_schema_name := "public";
  DbSync.self_stream_schema_message := users_message;
  DbSync.self_flatten_schema := [("full_name", kind "string"); ("id", kind "integer")]
|}.

(** The target with both columns and one row. *)
Definition users_table : Pg.state :=
  Pg.single "public.users"
    (Pg.Relation [("id", "bigint"); ("full_name", "character varying")]
                 [[("id", "7"); ("full_name", "Eve")]]).

(** The target before the column [full_name] was known. *)
Definition users_table_without_name : Pg.state :=
  Pg.single "public.users" (Pg.Relation [("id", "bigint")] [[("id", "7")]]).

(** The same, with [id] stored as a boolean. *)
Definition users_table_with_boolean_id : Pg.state :=
  Pg.single "public.users" (Pg.Relation [("id", "boolean")] []).

(** Both columns live, [id] stored as a boolean. *)
Definition users_table_retyped : Pg.state :=
  Pg.single "public.users"
    (Pg.Relation [("id", "boolean"); ("full_name", "character varying")] []).

(** A schema with the nested path [answers.q1] and the top-level property
    [answers__q1]. *)
Definition clashing_message : StreamSchemaMessage := {|
  stream := "survey";
  schema :=
    VDict [("properties", VDict [
      ("answers", VDict [
         ("type", VList [VStr "null"; VStr "object"]);
         ("properties", VDict [("q1", VDict [("type", VList [VStr "string"])])])]);
      ("answers__q1", VDict [("type", VList [VStr "integer"])])])];
  key_properties := []
|}.

(** A stream of orders with a key, a nested object and a timestamp. *)
Definition orders_message : StreamSchemaMessage := {|
  stream := "Orders";
  schema :=
    VDict [("properties", VDict [
      ("orderId", kind "integer");
      ("customer", VDict [
         ("type", VList [VStr "null"; VStr "object"]);
         ("properties", VDict [("name", kind "string")])]);
      ("tags", kind "array");
      ("placedAt", VDict [("type", VList [VStr "null"; VStr "string"]);
                          ("format", VStr "date-time")])])];
  key_properties := ["orderId"]
|}.

Definition orders_sync : DbSync.t := {|
  DbSync.self_target_config := users_config;
  DbSync.self_use_simple_column_type := true;
  DbSync.self_schema_name := "public";
  DbSync.self_stream_schema_message := orders_message;
  DbSync.self_flatten_schema :=
    [("customer__name", kind "string"); ("order_id", kind "integer");
     ("placed_at", VDict [("type", VList [VStr "null"; VStr "string"]);
                          ("format", VStr "date-time")]);
     ("tags", kind "array")]
|}.

(** The target of the orders, with one row. *)
Definition orders_table : Pg.state :=
  Pg.single "public.orders"
    (Pg.Relation [("customer__name", "character varying"); ("order_id", "bigint");
                  ("placed_at", "timestamp with time zone"); ("tags", "jsonb")]
                 [[("customer__name", "Eve"); ("order_id", "7");
                   ("placed_at", "2020-01-01 00:00:00+00"); ("tags", "[]")]]).

(** * Vocabulary of the properties *)

(** The characters of an unquoted lower-case identifier: [[a-z0-9_]]. *)
Definition is_ident (c : ascii) : bool :=
  Str.is_lower c || Str.is_digit c || Ascii.eqb c Str.underscore_char.

(** The first character of [s] is no digit ([s] is not empty). *)
Definition starts_without_digit (s : string) : bool :=
  match s with
  | String c _ => negb (Str.is_digit c)
  | EmptyString => false
  end.

(** [t] can be cast to [u]: the relation [get_castable_types] tabulates. *)
Definition casts_to (t u : string) : Prop := t ∈ get_castable_types u.

(** No mapping reachable from [v] through mappings has the empty string
    among its keys. *)
Fixpoint well_keyed (v : value) : bool :=
  match v with
  | VDict entries =>
      forallb (fun kv => negb (String.eqb (fst kv) "") && well_keyed (snd kv))
              entries
  | _ => true
  end.

(** A value a CSV writer takes as one field: no list and no mapping. *)
Definition is_scalar (v : value) : bool :=
  negb (Py.is_dict v) && negb (Py.is_list v).

(** The kinds of the lattice: the JSON-schema types but [null]. *)
Definition kinds : list string :=
  ["array"; "boolean"; "integer"; "number"; "object"; "string"].

(** The sublists of a list, each a choice of some of its elements. *)
Fixpoint sublists {A} (l : list A) : list (list A) :=
  match l with
  | [] => [[]]
  | x :: l' => (cons x <$> sublists l') ++ sublists l'
  end.

(** What [flatten_record] answers, by the keys of the record. *)
Definition answers (d : value) (r : outcome (list (string * value))) : Prop :=
  if well_keyed d then ∃ flat, r = Ret flat else r = Raise IndexError.

(** The log of statements that ran each in a connection block of its
    own: every statement is followed by the commit of its block, or by the
    rollback when the statement failed. *)
Definition own_transactions (steps : list (statement * bool)) : list event :=
  concat ((fun step : statement * bool =>
             [Submitted (fst step); if snd step then Committed else RolledBack])
          <$> steps).

(** The statements of schema evolution: the read of the live columns,
    the addition and the removal of a column. *)
Definition alters_columns (q : statement) : bool :=
  match q with
  | SelectColumns _ _ | AddColumn _ _ | DropColumn _ _ => true
  | _ => false
  end.

(** A live column stored under the desired type, or stored without a time
    zone where the desired type has one: the replacement loop of
    [update_columns] leaves it alone. *)
Definition settled (self : DbSync.t) (columns_dict : list (string * dict_row))
    (item : string * value) : Prop :=
  ∃ column stored desired,
    column_type (snd item) (DbSync.self_use_simple_column_type self) = Ret desired
    ∧ Py.lookup (Str.lower (fst item)) columns_dict = Some column
    ∧ Py.lookup "data_type" column = Some stored
    ∧ (Str.lower stored = Str.lower desired
       ∨ (Str.lower stored = "timestamp without time zone"
          ∧ Str.lower desired = "timestamp with time zone")).

(** What a run of schema evolution leaves in the log: statements of
    schema evolution, each in a block of its own, all committed but
    possibly the last, and all committed when the run returns. *)
Definition stepwise {D A} (m : io D A) : Prop :=
  ∀ s, ∃ steps,
    log (snd (m s)) = log s ++ own_transactions steps
    ∧ Forall (λ step, alters_columns (fst step)) steps
    ∧ (∀ i step, steps !! i = Some step → snd step = false → S i = length steps)
    ∧ ((∃ a, fst (m s) = Ret a) → Forall (λ step, snd step = true) steps).


(** The row of the catalogue names the table [name], letter case aside. *)
Definition names_table (name : string) (row : dict_row) : bool :=
  match Py.lookup "table_name" row with
  | Some table_name => String.eqb (Str.lower table_name) (Str.lower name)
  | None => false
  end.

(** The rows [information_schema.columns] holds for a relation. *)
Definition catalogue_rows (columns : list (string * string)) : list dict_row :=
  List.map (λ c, [("column_name", fst c); ("data_type", snd c)]) columns.

(** The PostgreSQL types the program knows. *)
Definition postgres_types : list string :=
  ["character varying"; "numeric"; "bigint"; "jsonb"; "boolean";
   "timestamp with time zone"; "date"].

(** * Properties *)

(** ** Strings and substitutions *)

Section String_facts.

Lemma string_length_app (s1 s2 : string) :
  String.length (s1 +:+ s2) = String.length s1 + String.length s2.
Proof. induction s1 as [|c s1 IH]; simpl; [done|]. by rewrite IH. Qed.

Lemma string_length_map f (s : string) : String.length (Str.map f s) = String.length s.
Proof. induction s as [|c s IH]; simpl; [done|]. by rewrite IH. Qed.

Lemma length_span p (s : string) :
  String.length s =
  String.length (fst (Str.span p s)) + String.length (snd (Str.span p s)).
Proof.
  induction s as [|c s IH]; simpl; [done|].
  destruct (p c); [|done].
  destruct (Str.span p s) as [run rest]; simpl in *. by rewrite IH.
Qed.

Lemma length_unsnoc (s init : string) (z : ascii) :
  Str.unsnoc s = Some (init, z) → String.length s = S (String.length init).
Proof.
  revert init. induction s as [|c s IH]; intros init; simpl; [done|].
  destruct (Str.unsnoc s) as [[init' z']|] eqn:Hs.
  - intros [= <- <-]. simpl. by rewrite (IH init').
  - intros [= <- <-]. destruct s as [|c' s]; [done|].
    simpl in Hs. by destruct (Str.unsnoc s) as [[? ?]|].
Qed.

End String_facts.

Section Re_facts.

Lemma scan_length m bos skip s :
  expanding m →
  String.length s - skip ≤ String.length (Re.scan m bos skip s).
Proof.
  intros Hm. revert bos skip.
  induction s as [|c s IH]; intros bos skip; simpl; [lia|].
  destruct skip as [|k].
  - destruct (m bos (String c s)) as [[repl n]|] eqn:Hmatch.
    + apply Hm in Hmatch as [Hn Hrepl].
      rewrite string_length_app. specialize (IH false (Nat.pred n)). lia.
    + simpl. specialize (IH false 0). lia.
  - apply IH.
Qed.

Lemma sub_length m s :
  expanding m → String.length s ≤ String.length (Re.sub m s).
Proof. intros Hm. pose proof (scan_length m true 0 s Hm). unfold Re.sub. lia. Qed.

Lemma non_alnum_expanding : expanding Re.non_alnum.
Proof.
  intros bos [|c s] repl n; simpl; [done|].
  destruct (Str.is_alnum c); [done|]. intros [= <- <-]. simpl. lia.
Qed.

Lemma acronym_underscore_word_expanding : expanding Re.acronym_underscore_word.
Proof.
  intros bos s repl n. unfold Re.acronym_underscore_word.
  destruct (Str.span Str.is_upper s) as [[|r run] [|u0 [|a [|b rest]]]]; try done.
  destruct (_ && _); [|done]. intros [= <- <-].
  rewrite !string_length_app. simpl. lia.
Qed.

Lemma lower_underscore_upper_expanding : expanding Re.lower_underscore_upper.
Proof.
  intros bos [|a [|u0 [|b s]]] repl n; simpl; try done.
  destruct (_ && _); [|done]. intros [= <- <-]. simpl. lia.
Qed.

Lemma acronym_word_expanding : expanding Re.acronym_word.
Proof.
  intros bos s repl n. unfold Re.acronym_word.
  destruct (Str.span Str.is_upper s) as [run [|b rest]]; [done|].
  destruct (Str.unsnoc run) as [[[|r init] a]|] eqn:Hrun; try done.
  destruct (Str.is_lower b); [|done]. intros [= <- <-].
  apply length_unsnoc in Hrun. rewrite Hrun, !string_length_app. simpl. lia.
Qed.

Lemma lower_upper_expanding : expanding Re.lower_upper.
Proof.
  intros bos [|a [|b s]] repl n; simpl; try done.
  destruct (_ && _); [|done]. intros [= <- <-]. simpl. lia.
Qed.

Lemma hyphen_expanding : expanding Re.hyphen.
Proof.
  intros bos [|c s] repl n; simpl; [done|].
  destruct (Ascii.eqb c "-"); [|done]. intros [= <- <-]. simpl. lia.
Qed.

End Re_facts.

(** ** ColumnNamer *)

Section Namer_facts.

Lemma underscore_length (word : string) :
  String.length word ≤ String.length (inflection.underscore word).
Proof.
  unfold inflection.underscore, Str.lower. rewrite string_length_map.
  etrans; [apply (sub_length _ _ acronym_word_expanding)|].
  etrans; [apply (sub_length _ _ lower_upper_expanding)|].
  apply (sub_length _ _ hyphen_expanding).
Qed.

Lemma inflect_name_returns (name : string) :
  name ≠ EmptyString →
  ∃ normalized, inflect_name name = Ret normalized
                ∧ String.length name ≤ String.length normalized.
Proof.
  intros Hname. unfold inflect_name.
  set (n1 := Re.sub Re.non_alnum name).
  set (n2 := Re.sub Re.acronym_underscore_word n1).
  set (n3 := Re.sub Re.lower_underscore_upper n2).
  assert (String.length name ≤ String.length n3) as Hlen.
  { etrans; [apply (sub_length _ _ non_alnum_expanding)|].
    etrans; [apply (sub_length _ _
                      acronym_underscore_word_expanding)|].
    apply (sub_length _ _ lower_underscore_upper_expanding). }
  clearbody n3. destruct n3 as [|c rest].
  { destruct name; [done|]. simpl in Hlen. lia. }
  simpl. eexists. split; [done|].
  etrans; [|apply underscore_length].
  destruct (Str.is_digit c); [rewrite string_length_app|]; simpl in *; lia.
Qed.

Lemma mapM_inflect_name_returns (names : list string) :
  Forall (λ n, n ≠ EmptyString) names →
  ∃ inflected, mapM inflect_name names = Ret inflected
               ∧ length inflected = length names.
Proof.
  induction 1 as [|n names Hn _ [inflected [IH Hlen]]]; simpl.
  - by exists [].
  - destruct (inflect_name_returns n Hn) as [n' [-> _]]. simpl.
    rewrite IH. simpl. exists (n' :: inflected). split; [done|].
    simpl. by rewrite Hlen.
Qed.

Lemma abbreviated_length i inflected :
  length (abbreviated i inflected) = length inflected.
Proof.
  unfold abbreviated.
  rewrite List.length_app, length_fmap, length_take, length_drop. lia.
Qed.

Lemma abbreviated_step i inflected segment :
  inflected !! i = Some segment →
  abbreviated i inflected !! i = Some segment
  ∧ <[i := reduce_segment segment]> (abbreviated i inflected)
    = abbreviated (S i) inflected.
Proof.
  intros Hi. pose proof (lookup_lt_Some _ _ _ Hi) as Hlt.
  unfold abbreviated.
  assert (length (reduce_segment <$> take i inflected) = i) as Hpre.
  { rewrite length_fmap, length_take. lia. }
  split.
  - rewrite lookup_app_r by lia. rewrite Hpre, Nat.sub_diag.
    rewrite lookup_drop. by rewrite Nat.add_0_r.
  - rewrite insert_app_r_alt by lia. rewrite Hpre, Nat.sub_diag.
    rewrite (drop_S _ _ _ Hi). simpl.
    rewrite (take_S_r _ _ _ Hi), fmap_app. simpl.
    by rewrite <- app_assoc.
Qed.

Lemma reduce_loop_unfold fuel sep inflected_key reducer_index :
  reduce_loop fuel sep inflected_key reducer_index =
  if (63 <=? String.length (Str.join sep inflected_key))
     && (reducer_index <? length inflected_key)
  then
    match fuel with
    | O => Stuck
    | S fuel' =>
        segment <- list_index inflected_key reducer_index ;;
        reduce_loop fuel' sep
          (<[reducer_index := reduce_segment segment]> inflected_key)
          (S reducer_index)
    end
  else Ret inflected_key.
Proof. by destruct fuel. Qed.

(** The [while] loop abbreviates segments from the left and stops at the
    first point where the joined name is under the cap, or when no
    segment is left. *)
Lemma reduce_loop_returns sep inflected fuel i :
  i ≤ length inflected →
  length inflected - i ≤ fuel →
  ∃ j, i ≤ j ≤ length inflected
       ∧ reduce_loop fuel sep (abbreviated i inflected) i
         = Ret (abbreviated j inflected)
       ∧ (String.length (Str.join sep (abbreviated j inflected)) < 63
          ∨ j = length inflected)
       ∧ ∀ j', i ≤ j' < j →
           63 ≤ String.length (Str.join sep (abbreviated j' inflected)).
Proof.
  revert i. induction fuel as [|fuel IH]; intros i Hi Hfuel;
    rewrite reduce_loop_unfold, abbreviated_length.
  - assert (i = length inflected) as -> by lia.
    exists (length inflected). split; [lia|]. split; [|split; [by right|lia]].
    by rewrite Nat.ltb_irrefl, andb_false_r.
  - destruct (63 <=? String.length (Str.join sep (abbreviated i inflected)))
      eqn:Hcap; cbn [andb].
    + destruct (i <? length inflected) eqn:Hlt.
      * apply Nat.ltb_lt in Hlt.
        destruct (lookup_lt_is_Some_2 inflected i Hlt) as [segment Hseg].
        destruct (abbreviated_step i inflected segment Hseg) as [Hlook Hins].
        unfold list_index. rewrite Hlook. cbn [bind]. rewrite Hins.
        destruct (IH (S i)) as (j & Hj & Hrun & Hstop & Hmin); [lia..|].
        exists j. split; [lia|]. split; [done|]. split; [done|].
        intros j' Hj'. destruct (decide (j' = i)) as [->|].
        -- by apply Nat.leb_le.
        -- apply Hmin. lia.
      * apply Nat.ltb_ge in Hlt. assert (i = length inflected) as -> by lia.
        exists (length inflected). split; [lia|].
        split; [done|]. split; [by right|lia].
    + apply Nat.leb_gt in Hcap.
      exists i. split; [lia|]. split; [done|]. split; [by left|lia].
Qed.

End Namer_facts.

(** C10. [inflect_name] reads [name[0]] without a guard: the empty name
    raises [IndexError]; for a non-empty name the index is in bounds (the
    call returns) and the normalized name is not empty. *)
Theorem inflect_name_first_character :
  inflect_name EmptyString = Raise IndexError
  ∧ ∀ name, name ≠ EmptyString →
      ∃ normalized, inflect_name name = Ret normalized
                    ∧ normalized ≠ EmptyString.
Proof.
  split; [done|]. intros name Hname.
  destruct (inflect_name_returns name Hname) as [normalized [Hret Hlen]].
  exists normalized. split; [done|].
  intros ->. destruct name; [done|]. simpl in Hlen. lia.
Qed.

Lemma inflect_name_first_character_witness :
  ∃ normalized, inflect_name "fooBar" = Ret normalized
                ∧ normalized ≠ EmptyString.
Proof. apply (proj2 inflect_name_first_character "fooBar"). discriminate. Defined.

(** C2, as amended.  [flatten_key] has no length failure.  For a path of
    non-empty segments it returns the joined name with the first [i]
    segments abbreviated, where [i] is the first point at which the joined
    name is shorter than 63 characters, or the number of segments when
    there is no such point: the name is then returned as it is, at or
    above the cap. *)
Theorem flatten_key_length_policy (k : string) (parent_key : list string)
    (sep : string) :
  Forall (λ n, n ≠ EmptyString) (parent_key ++ [k]) →
  ∃ inflected i,
    mapM inflect_name (parent_key ++ [k]) = Ret inflected
    ∧ i ≤ length inflected
    ∧ flatten_key k parent_key sep = Ret (Str.join sep (abbreviated i inflected))
    ∧ (String.length (Str.join sep (abbreviated i inflected)) < 63
       ∨ i = length inflected)
    ∧ ∀ j, j < i → 63 ≤ String.length (Str.join sep (abbreviated j inflected)).
Proof.
  intros Hnames.
  destruct (mapM_inflect_name_returns _ Hnames) as [inflected [Hinf _]].
  destruct (reduce_loop_returns sep inflected (length inflected) 0)
    as (i & Hi & Hrun & Hstop & Hmin); [lia..|].
  exists inflected, i. split; [done|]. split; [lia|].
  split; [|split; [done|intros j Hj; apply Hmin; lia]].
  unfold flatten_key. rewrite Hinf. simpl.
  change inflected with (abbreviated 0 inflected) at 2.
  rewrite Hrun. done.
Qed.

Lemma flatten_key_length_policy_witness :
  ∃ inflected i,
    mapM inflect_name ([] ++ ["fooBar"]) = Ret inflected
    ∧ i ≤ length inflected
    ∧ flatten_key "fooBar" [] "__" = Ret (Str.join "__" (abbreviated i inflected))
    ∧ (String.length (Str.join "__" (abbreviated i inflected)) < 63
       ∨ i = length inflected)
    ∧ ∀ j, j < i → 63 ≤ String.length (Str.join "__" (abbreviated j inflected)).
Proof.
  apply (flatten_key_length_policy "fooBar" [] "__").
  repeat constructor; discriminate.
Defined.

(** C2, counterexample.  Abbreviated, the one-segment path
    [overlong_segment] still has 71 characters; [flatten_key] returns that
    name and raises nothing. *)
Lemma flatten_key_returns_overlong_name :
  mapM inflect_name ([] ++ [overlong_segment]) = Ret [overlong_segment]
  ∧ 63 ≤ String.length (Str.join "__" (reduce_segment <$> [overlong_segment]))
  ∧ flatten_key overlong_segment [] "__" = Ret overlong_segment
  ∧ String.length overlong_segment = 71.
Proof. vm_compute. repeat split; lia. Qed.

(** ** Record flattening *)

Section Record_facts.

Variable json_dumps : value -> string.

Lemma depth_entry (entries : list (string * value)) k v :
  (k, v) ∈ entries → Py.depth v < Py.depth (VDict entries).
Proof.
  intros Hin. simpl. apply Nat.lt_succ_r.
  pose proof (proj1 (list_max_le
    (List.map (λ kv, Py.depth (snd kv)) entries) _) (Nat.le_refl _)) as Hall.
  rewrite List.Forall_forall in Hall. apply Hall.
  apply in_map_iff. exists (k, v). split; [done|]. by apply list_elem_of_In.
Qed.

Lemma flatten_record_aux_unfold fuel d parent_key sep :
  flatten_record_aux json_dumps fuel d parent_key sep =
  if negb (Py.truthy d) || negb (Py.is_dict d) then Ret []
  else
    match fuel with
    | O => Stuck
    | S fuel' =>
        entries <- Py.items d ;;
        items <- flatten_record_loop json_dumps
                   (flatten_record_aux json_dumps fuel') entries
                   parent_key sep [] ;;
        Ret (Py.dict_of_items items)
    end.
Proof. by destruct fuel. Qed.

(** The loop only calls [rec] on the values of the entries. *)
Lemma flatten_record_loop_ext rec1 rec2 entries parent_key sep items :
  (∀ k v, (k, v) ∈ entries →
     rec1 v (parent_key ++ [k]) sep = rec2 v (parent_key ++ [k]) sep) →
  flatten_record_loop json_dumps rec1 entries parent_key sep items
  = flatten_record_loop json_dumps rec2 entries parent_key sep items.
Proof.
  revert items. induction entries as [|[k v] entries IH]; intros items Hrec;
    simpl; [done|].
  destruct (flatten_key k parent_key sep) as [new_key| |]; simpl; [|done..].
  rewrite <- (Hrec k v) by left.
  destruct (Py.is_dict v); simpl.
  - destruct (rec1 v (parent_key ++ [k]) sep); simpl; [|done..].
    apply IH. intros k' v' Hin. apply Hrec. by right.
  - apply IH. intros k' v' Hin. apply Hrec. by right.
Qed.

(** Fuel beyond the depth of the value changes nothing. *)
Lemma flatten_record_aux_fuel fuel d parent_key sep :
  Py.depth d ≤ fuel →
  flatten_record_aux json_dumps fuel d parent_key sep
  = flatten_record json_dumps d parent_key sep.
Proof.
  unfold flatten_record. revert d parent_key.
  induction (lt_wf fuel) as [fuel _ IH]. intros d parent_key Hfuel.
  rewrite (flatten_record_aux_unfold fuel), (flatten_record_aux_unfold (Py.depth d)).
  destruct d as [| | | | | |entries];
    cbn [Py.is_dict negb]; rewrite ?orb_true_r; try done.
  destruct (negb (Py.truthy (VDict entries)) || false); [done|].
  change (Py.depth (VDict entries)) with
    (S (list_max (List.map (λ kv, Py.depth (snd kv)) entries))) in *.
  set (m := list_max (List.map (λ kv, Py.depth (snd kv)) entries)) in *.
  destruct fuel as [|fuel]; [lia|].
  cbn [Py.items bind].
  rewrite (flatten_record_loop_ext (flatten_record_aux json_dumps fuel)
             (flatten_record_aux json_dumps m)); [done|].
  intros k v Hin. pose proof (depth_entry entries k v Hin) as Hv.
  change (Py.depth (VDict entries)) with (S m) in Hv.
  rewrite (IH fuel) by lia. rewrite (IH m) by lia. done.
Qed.

Lemma flatten_record_loop_chunks fuel entries parent_key sep items result :
  (∀ k v, (k, v) ∈ entries → Py.depth v ≤ fuel) →
  flatten_record_loop json_dumps (flatten_record_aux json_dumps fuel) entries
    parent_key sep items = Ret result →
  ∃ chunks, Forall2 (contributes json_dumps parent_key sep) entries chunks
            ∧ result = items ++ concat chunks.
Proof.
  revert items result.
  induction entries as [|[k v] entries IH]; intros items result Hfuel; simpl.
  - intros [= <-]. exists []. split; [constructor|]. by rewrite app_nil_r.
  - destruct (flatten_key k parent_key sep) as [new_key| |] eqn:Hkey;
      simpl; [|done..].
    assert (∀ chunk rest,
      contributes json_dumps parent_key sep (k, v) chunk →
      flatten_record_loop json_dumps (flatten_record_aux json_dumps fuel) entries
        parent_key sep (items ++ chunk) = Ret rest →
      ∃ chunks, Forall2 (contributes json_dumps parent_key sep) ((k, v) :: entries) chunks
                ∧ rest = items ++ concat chunks) as Hstep.
    { intros chunk rest Hchunk Hrest.
      apply IH in Hrest as (chunks & Hall & ->); [|intros; apply (Hfuel k0); by right].
      exists (chunk :: chunks). split; [by constructor|].
      simpl. by rewrite app_assoc. }
    destruct v as [| | | | | |sub_entries]; simpl;
      try (apply Hstep; exists new_key; by split).
    rewrite flatten_record_aux_fuel by (apply (Hfuel k); left).
    destruct (flatten_record json_dumps (VDict sub_entries) (parent_key ++ [k]) sep)
      as [children| |] eqn:Hsub; simpl; [|done..].
    rewrite <- app_assoc. apply Hstep. exists new_key. split; [done|].
    simpl. by exists children.
Qed.

End Record_facts.

(** C9. For an input that is no non-empty mapping, [flatten_record] returns
    the empty mapping: it neither raises nor recurses. *)
Theorem flatten_record_not_a_mapping (json_dumps : value -> string) (d : value)
    (parent_key : list string) (sep : string) :
  (∀ entries, d = VDict entries → entries = []) →
  flatten_record json_dumps d parent_key sep = Ret [].
Proof.
  intros Hd. unfold flatten_record. rewrite flatten_record_aux_unfold.
  destruct d as [| | | | | |entries];
    cbn [Py.is_dict negb]; rewrite ?orb_true_r; try done.
  by rewrite (Hd entries eq_refl).
Qed.

Lemma flatten_record_not_a_mapping_witness :
  flatten_record (λ _, "null") (VList [VDict [("a", VInt 1)]]) [] "__" = Ret [].
Proof. apply flatten_record_not_a_mapping. intros entries [=]. Defined.



(** ** TypeLattice *)

Section Lattice_facts.

Lemma score_step_unfold observed best t :
  score_step observed best t =
  if fst best <? score observed t then (score observed t, Some t) else best.
Proof. done. Qed.

Lemma scoring_keeps observed l b o :
  Forall (λ x, score observed x ≤ b) l →
  fold_left (score_step observed) l (b, o) = (b, o).
Proof.
  induction 1 as [|x l Hx _ IH]; simpl; [done|].
  rewrite score_step_unfold. simpl.
  destruct (Nat.ltb_spec b (score observed x)); [lia|done].
Qed.

Lemma scoring_takes observed l1 t l2 b o :
  Forall (λ x, score observed x < score observed t) l1 →
  b < score observed t →
  Forall (λ x, score observed x ≤ score observed t) l2 →
  fold_left (score_step observed) (l1 ++ t :: l2) (b, o)
  = (score observed t, Some t).
Proof.
  intros Hl1. revert b o.
  induction Hl1 as [|x l1 Hx _ IH]; intros b o Hb Hl2; simpl.
  - rewrite score_step_unfold. simpl.
    destruct (Nat.ltb_spec b (score observed t)); [|lia].
    by apply scoring_keeps.
  - rewrite score_step_unfold. simpl.
    destruct (Nat.ltb_spec b (score observed x)); by apply IH.
Qed.

Lemma scoring_picks observed l acc t :
  snd (fold_left (score_step observed) l acc) = Some t →
  snd acc = Some t ∨ t ∈ l.
Proof.
  revert acc. induction l as [|x l IH]; intros acc; simpl; [by left|].
  intros Hpick. apply IH in Hpick as [Hacc|Hin]; [|right; by right].
  rewrite score_step_unfold in Hacc.
  destruct (fst acc <? score observed x); [|by left].
  simpl in Hacc. injection Hacc as ->. right; left.
Qed.

Lemma elem_of_sorted observed t : t ∈ sorted observed ↔ t ∈ observed.
Proof.
  unfold sorted. rewrite merge_sort_Permutation. apply elem_of_elements.
Qed.

Lemma sorted_split observed t :
  t ∈ observed →
  ∃ l1 l2, sorted observed = l1 ++ t :: l2
           ∧ (∀ x, x ∈ l1 → x ∈ observed ∧ String.le x t ∧ x ≠ t)
           ∧ (∀ x, x ∈ l2 → x ∈ observed).
Proof.
  intros Ht. apply elem_of_sorted in Ht.
  apply list_elem_of_split in Ht as (l1 & l2 & Hsplit).
  exists l1, l2. split; [done|].
  assert (StronglySorted String.le (l1 ++ t :: l2)) as Hsorted.
  { rewrite <- Hsplit. apply StronglySorted_merge_sort; apply _. }
  assert (NoDup (l1 ++ t :: l2)) as Hnodup.
  { rewrite <- Hsplit. unfold sorted. rewrite merge_sort_Permutation.
    apply NoDup_elements. }
  split.
  - intros x Hx. split; [|split].
    + apply elem_of_sorted. rewrite Hsplit. apply elem_of_app. by left.
    + apply (StronglySorted_app_1_elem_of _ _ _ _ _ Hsorted Hx). left.
    + intros ->. apply NoDup_app in Hnodup as (_ & Hdisj & _).
      apply (Hdisj t Hx). left.
  - intros x Hx. apply elem_of_sorted. rewrite Hsplit.
    apply elem_of_app. right. by right.
Qed.

Lemma usable_not_null types : "null" ∉ get_usable_types types.
Proof. unfold get_usable_types. set_solver. Qed.

Lemma usable_castable_self types t :
  t ∈ get_usable_types types → t ∈ get_castable_types t.
Proof.
  unfold get_castable_types, get_usable_types. intros Ht.
  apply elem_of_intersection in Ht as [Hschema Hrest].
  apply elem_of_intersection. split; [done|]. set_solver.
Qed.

Lemma score_positive types t :
  t ∈ get_usable_types types → 0 < score (get_usable_types types) t.
Proof.
  intros Ht. unfold score.
  assert (size (get_castable_types t ∩ get_usable_types types) ≠ 0); [|lia].
  apply size_non_empty_iff. intros Hempty.
  assert (t ∈ get_castable_types t ∩ get_usable_types types) as Hin.
  { apply elem_of_intersection. split; [|done].
    by apply (usable_castable_self types). }
  rewrite Hempty in Hin. by apply not_elem_of_empty in Hin.
Qed.

Lemma scoring_first_highest types t :
  first_highest (get_usable_types types) t →
  fold_left (score_step (get_usable_types types))
    (sorted (get_usable_types types)) (0, None)
  = (score (get_usable_types types) t, Some t).
Proof.
  intros (Ht & Hmax & Hfirst).
  destruct (sorted_split _ t Ht) as (l1 & l2 & -> & Hl1 & Hl2).
  apply scoring_takes.
  - apply Forall_forall. intros x Hx.
    destruct (Hl1 x Hx) as (Hobs & Hle & Hne).
    destruct (decide (score (get_usable_types types) x
                      = score (get_usable_types types) t)) as [Heq|Hneq].
    + destruct Hne. apply (anti_symm String.le); [done|]. by apply Hfirst.
    + specialize (Hmax x Hobs). lia.
  - by apply score_positive.
  - apply Forall_forall. intros x Hx. apply Hmax. by apply Hl2.
Qed.

(** An observed kind that covers every observed kind has the highest
    score; the first such kind in sorted order is the first with that
    score. *)
Lemma covering_first_highest types t :
  t ∈ get_usable_types types →
  get_usable_types types ⊆ get_castable_types t →
  (∀ t', t' ∈ get_usable_types types →
         get_usable_types types ⊆ get_castable_types t' → String.le t t') →
  first_highest (get_usable_types types) t.
Proof.
  intros Ht Hcover Hleast.
  assert (∀ t', score (get_usable_types types) t' ≤ size (get_usable_types types))
    as Hbound.
  { intros t'. apply subseteq_size, intersection_subseteq_r. }
  assert (score (get_usable_types types) t = size (get_usable_types types))
    as Hfull.
  { unfold score. f_equal. apply set_eq. intros x.
    rewrite elem_of_intersection. split; [by intros [_ ?]|]. intros Hx.
    split; [by apply Hcover|done]. }
  split; [done|]. split.
  - intros t' _. rewrite Hfull. apply Hbound.
  - intros t' Ht' Hscore. apply Hleast; [done|].
    rewrite Hfull in Hscore. unfold score in Hscore.
    assert (get_castable_types t' ∩ get_usable_types types
            = get_usable_types types) as Heq.
    { apply set_subseteq_size_eq; [apply intersection_subseteq_r|lia]. }
    intros x Hx. rewrite <- Heq in Hx. by apply elem_of_intersection in Hx as [? _].
Qed.

Lemma most_general_type_unfold types :
  types ≠ [] →
  most_general_type types =
  let observed := get_usable_types (list_to_set types) in
  match snd (fold_left (score_step observed) (sorted observed) (0, None)) with
  | None => "string"
  | Some best_type =>
      if decide (observed ⊆ get_castable_types best_type) then best_type
      else "string"
  end.
Proof. by destruct types. Qed.

Lemma usable_of_nil : get_usable_types (list_to_set []) = ∅.
Proof. unfold get_usable_types. set_solver. Qed.

End Lattice_facts.

(** C4. [most_general_type] works on the observed kinds without [null]
    (and without names that are no kind).  It returns the highest-scoring
    observed kind, the first in sorted order among equal scores, when the
    castable set of that kind covers every observed kind, and ["string"]
    when it does not; so it returns the first observed kind in sorted order
    whose castable set covers every observed kind when there is one, and
    ["string"] when nothing is observed and when no observed kind covers
    all of them.  In particular [{integer, boolean}] gives [integer],
    [{string, integer}] gives [string] and the empty set gives
    [string]. *)
Theorem most_general_type_spec (types : list string) :
  let observed := get_usable_types (list_to_set types) in
  ("null" ∉ observed)
  ∧ (observed = ∅ → most_general_type types = "string")
  ∧ (∀ t, first_highest observed t →
          observed ⊆ get_castable_types t → most_general_type types = t)
  ∧ (∀ t, first_highest observed t →
          ¬ observed ⊆ get_castable_types t → most_general_type types = "string")
  ∧ (∀ t, t ∈ observed → observed ⊆ get_castable_types t →
          (∀ t', t' ∈ observed → observed ⊆ get_castable_types t' →
                 String.le t t') →
          most_general_type types = t)
  ∧ ((∀ t, t ∈ observed → ¬ observed ⊆ get_castable_types t) →
     most_general_type types = "string")
  ∧ most_general_type ["integer"; "boolean"] = "integer"
  ∧ most_general_type ["string"; "integer"] = "string"
  ∧ most_general_type [] = "string".
Proof.
  intros observed.
  assert (∀ t, first_highest observed t → types ≠ []) as Hnonempty.
  { intros t (Ht & _) ->. subst observed. rewrite usable_of_nil in Ht. set_solver. }
  split; [apply usable_not_null|].
  assert (∀ t, first_highest observed t →
               observed ⊆ get_castable_types t → most_general_type types = t)
    as Hbest.
  { intros t Hfirst Hcover.
    rewrite most_general_type_unfold by eauto. cbv zeta. fold observed.
    subst observed. rewrite (scoring_first_highest _ t Hfirst). simpl.
    by rewrite decide_True. }
  split; [|split; [done|split; [|split; [|split]]]].
  - intros Hempty. destruct types as [|k types]; [done|].
    rewrite most_general_type_unfold by done. fold observed.
    rewrite Hempty. unfold sorted. by rewrite elements_empty.
  - intros t Hfirst Hcover.
    rewrite most_general_type_unfold by eauto. cbv zeta. fold observed.
    subst observed. rewrite (scoring_first_highest _ t Hfirst). simpl.
    by rewrite decide_False.
  - intros t Ht Hcover Hleast. apply Hbest; [|done].
    by apply covering_first_highest.
  - intros Hnone. destruct types as [|k types]; [done|].
    rewrite most_general_type_unfold by done. cbv zeta. fold observed.
    destruct (snd (fold_left _ _ _)) as [best|] eqn:Hpick; [|done].
    apply scoring_picks in Hpick as [Hinit|Hin]; [done|].
    apply elem_of_sorted in Hin. rewrite decide_False; [done|by apply Hnone].
  - by vm_compute.
Qed.

Lemma most_general_type_spec_witness :
  first_highest (get_usable_types (list_to_set ["integer"; "boolean"])) "integer"
  ∧ get_usable_types (list_to_set ["integer"; "boolean"])
    ⊆ get_castable_types "integer"
  ∧ most_general_type ["integer"; "boolean"] = "integer".
Proof.
  assert (∀ t', t' ∈ get_usable_types (list_to_set ["integer"; "boolean"]) →
                t' = "integer" ∨ t' = "boolean") as Hkinds.
  { unfold get_usable_types, JSONSCHEMA_TYPES. set_solver. }
  assert (first_highest (get_usable_types (list_to_set ["integer"; "boolean"]))
            "integer") as Hfirst.
  { split; [|split].
    - apply (bool_decide_unpack _). by vm_compute.
    - intros t' [-> | ->]%Hkinds; vm_compute; lia.
    - intros t' [-> | ->]%Hkinds; vm_compute; [done|lia]. }
  assert (get_usable_types (list_to_set ["integer"; "boolean"])
          ⊆ get_castable_types "integer") as Hcover.
  { apply (bool_decide_unpack _). by vm_compute. }
  split; [done|]. split; [done|].
  exact (proj1 (proj2 (proj2 (most_general_type_spec ["integer"; "boolean"])))
           "integer" Hfirst Hcover).
Defined.

(** ** Schema flattening *)

Section Collision_facts.

Context {A : Type}.
Implicit Types (l items : list (string * A)) (keys : list string).

Lemma groupby_head (x : string * A) l :
  ∃ g groups, groupby fst (x :: l) = (fst x, x :: g) :: groups.
Proof.
  revert x. induction l as [|y l IH]; intros x; simpl.
  - by exists [], [].
  - destruct (IH y) as (g & groups & Heq). simpl in Heq. rewrite Heq.
    destruct (String.eqb_spec (fst x) (fst y)) as [Hxy|Hxy].
    + rewrite <- Hxy. by eexists _, _.
    + by eexists _, _.
Qed.

Lemma check_groups_adjacent l :
  check_groups (groupby fst l) =
  match first_adjacent (l.*1) with
  | Some k => Raise (ValueError (duplicate_message k))
  | None => Ret tt
  end.
Proof.
  induction l as [|x l IH]; [done|].
  destruct l as [|y l]; [done|].
  destruct (groupby_head y l) as (g & groups & Heq).
  change (groupby fst (x :: y :: l)) with
    (match groupby fst (y :: l) with
     | (k, g) :: groups =>
         if String.eqb (fst x) k then (k, x :: g) :: groups
         else (fst x, [x]) :: (k, g) :: groups
     | [] => [(fst x, [x])]
     end).
  rewrite Heq in IH |- *.
  change (first_adjacent ((x :: y :: l).*1)) with
    (if String.eqb (fst x) (fst y) then Some (fst x)
     else first_adjacent ((y :: l).*1)).
  destruct (String.eqb_spec (fst x) (fst y)) as [Hxy|Hxy].
  - simpl. by rewrite Hxy.
  - apply IH.
Qed.

Lemma first_adjacent_Some keys k : first_adjacent keys = Some k → ¬ NoDup keys.
Proof.
  induction keys as [|a [|b keys] IH]; [done..|].
  change (first_adjacent (a :: b :: keys)) with
    (if String.eqb a b then Some a else first_adjacent (b :: keys)).
  destruct (String.eqb_spec a b) as [->|Hab].
  - intros _ Hnodup. apply NoDup_cons in Hnodup as [Hnotin _].
    apply Hnotin. left.
  - intros Hfirst Hnodup. apply NoDup_cons in Hnodup as [_ Hrest]. by apply IH.
Qed.

Lemma first_adjacent_None keys :
  StronglySorted String.le keys → first_adjacent keys = None → NoDup keys.
Proof.
  induction 1 as [|a keys Hsorted IH Hall]; [constructor|].
  destruct keys as [|b keys]; [intros _; apply NoDup_singleton|].
  change (first_adjacent (a :: b :: keys)) with
    (if String.eqb a b then Some a else first_adjacent (b :: keys)).
  destruct (String.eqb_spec a b) as [->|Hab]; [done|].
  intros Hnone. apply NoDup_cons. split; [|by apply IH].
  intros Hin. apply Hab.
  apply Forall_cons in Hall as [Hab' _].
  apply (anti_symm String.le); [done|].
  apply elem_of_cons in Hin as [->|Hin]; [done|].
  apply StronglySorted_cons in Hsorted as [Hb _].
  by apply (proj1 (Forall_forall _ _) Hb).
Qed.

#[local] Instance key_le_transitive : Transitive (@key_le A).
Proof. intros x y z. unfold key_le. apply transitivity. Qed.

#[local] Instance key_le_total : Total (@key_le A).
Proof. intros x y. unfold key_le. apply total, _. Qed.

Lemma sorted_by_key_keys items :
  StronglySorted String.le ((sorted_by_key items).*1)
  ∧ sorted_by_key items ≡ₚ items.
Proof.
  split; [|apply merge_sort_Permutation].
  apply StronglySorted_fmap with (R1 := key_le); [done|].
  apply StronglySorted_merge_sort; apply _.
Qed.

Lemma dict_set_fresh k (x : A) l :
  k ∉ l.*1 → Py.dict_set k x l = l ++ [(k, x)].
Proof.
  induction l as [|[k' x'] l IH]; simpl; [done|].
  intros Hk. apply not_elem_of_cons in Hk as [Hne Hk].
  destruct (String.eqb_spec k k'); [done|]. by rewrite IH.
Qed.

Lemma dict_of_items_NoDup l : NoDup (l.*1) → Py.dict_of_items l = l.
Proof.
  unfold Py.dict_of_items.
  assert (∀ acc, NoDup ((acc ++ l).*1) →
    fold_left (λ d kv, Py.dict_set (fst kv) (snd kv) d) l acc = acc ++ l)
    as Hfold; [|apply (Hfold [])].
  induction l as [|[k x] l IH]; intros acc Hnodup; simpl.
  - by rewrite app_nil_r.
  - rewrite dict_set_fresh.
    + rewrite IH; rewrite <- app_assoc; done.
    + rewrite fmap_app in Hnodup. apply NoDup_app in Hnodup as (_ & Hdisj & _).
      intros Hin. apply (Hdisj k Hin). left.
Qed.

(** The end of [flatten_schema]: sort by name, raise on the first name
    that occurs twice, else hand the sorted items out. *)
Lemma collision_check items :
  (NoDup (items.*1) →
     check_groups (groupby fst (sorted_by_key items)) = Ret tt
     ∧ Py.dict_of_items (sorted_by_key items) = sorted_by_key items)
  ∧ (¬ NoDup (items.*1) →
     ∃ k, check_groups (groupby fst (sorted_by_key items))
          = Raise (ValueError (duplicate_message k))).
Proof.
  destruct (sorted_by_key_keys items) as [Hsorted Hperm].
  rewrite check_groups_adjacent.
  assert (NoDup ((sorted_by_key items).*1) ↔ NoDup (items.*1)) as Hnodup.
  { by rewrite Hperm. }
  split.
  - intros Hitems. apply Hnodup in Hitems. split; [|by apply dict_of_items_NoDup].
    destruct (first_adjacent _) as [k|] eqn:Hfirst; [|done].
    by apply first_adjacent_Some in Hfirst.
  - intros Hitems.
    destruct (first_adjacent _) as [k|] eqn:Hfirst; [by exists k|].
    destruct Hitems. apply Hnodup. by apply first_adjacent_None.
Qed.

End Collision_facts.

Section Schema_facts.

Implicit Types (rec : value → list string → string →
                      outcome (list (string * value))).

Lemma flatten_schema_loop_prefix rec entries parent_key sep items cols :
  flatten_schema_loop rec entries parent_key sep items = Ret cols →
  ∃ more, cols = items ++ more.
Proof.
  revert items. induction entries as [|[k v] entries IH]; intros items; simpl.
  - intros [= <-]. exists []. by rewrite app_nil_r.
  - destruct (flatten_schema_entry rec k v parent_key sep) as [added| |];
      simpl; [|done..].
    intros (more & ->)%IH. exists (added ++ more). by rewrite app_assoc.
Qed.

Lemma flatten_schema_entry_checked rec_w rec_r k v parent_key sep cols :
  (∀ v' cols', rec_w v' (parent_key ++ [k]) sep = Ret cols' →
               checked (rec_r v' (parent_key ++ [k]) sep) cols') →
  flatten_schema_entry rec_w k v parent_key sep = Ret cols →
  (∃ added, flatten_schema_entry rec_r k v parent_key sep = Ret added
            ∧ added ≡ₚ cols)
  ∨ (¬ NoDup (cols.*1)
     ∧ ∃ name, flatten_schema_entry rec_r k v parent_key sep
               = Raise (ValueError (duplicate_message name))).
Proof.
  intros Hrec. unfold flatten_schema_entry.
  repeat match goal with
  | |- context [bind ?m _] =>
      lazymatch m with
      | rec_w _ _ _ => fail
      | _ => destruct m; cbn [bind]; try done
      end
  | |- context [if ?b then _ else _] => destruct b
  | |- context [match ?l with [] => _ | _ :: _ => _ end] =>
      destruct l as [|[? ?] ?]
  end;
  try (intros [= <-]; left; by eexists).
  intros Hcols. destruct (Hrec _ _ Hcols) as [(_ & flat & -> & Hperm)|(Hdup & name & ->)].
  - left. by exists flat.
  - right. split; [done|]. by exists name.
Qed.

Lemma flatten_schema_loop_checked rec_w rec_r entries parent_key sep
    items_w items_r cols :
  (∀ k v' cols', rec_w v' (parent_key ++ [k]) sep = Ret cols' →
                 checked (rec_r v' (parent_key ++ [k]) sep) cols') →
  items_r ≡ₚ items_w →
  flatten_schema_loop rec_w entries parent_key sep items_w = Ret cols →
  (∃ items, flatten_schema_loop rec_r entries parent_key sep items_r = Ret items
            ∧ items ≡ₚ cols)
  ∨ (¬ NoDup (cols.*1)
     ∧ ∃ name, flatten_schema_loop rec_r entries parent_key sep items_r
               = Raise (ValueError (duplicate_message name))).
Proof.
  intros Hrec. revert items_w items_r.
  induction entries as [|[k v] entries IH]; intros items_w items_r Hitems; simpl.
  - intros [= <-]. left. by exists items_r.
  - destruct (flatten_schema_entry rec_w k v parent_key sep) as [added_w| |]
      eqn:Hentry; simpl; [|done..].
    intros Hloop.
    destruct (flatten_schema_entry_checked rec_w rec_r k v parent_key sep
                added_w (Hrec k) Hentry)
      as [(added_r & -> & Hadded)|(Hdup & name & ->)]; simpl.
    + apply (IH (items_w ++ added_w)); [|done]. by rewrite Hitems, Hadded.
    + right. split; [|by exists name].
      apply flatten_schema_loop_prefix in Hloop as (more & ->).
      rewrite !fmap_app. intros Hnodup. apply Hdup.
      apply NoDup_app in Hnodup as (Hnodup & _).
      by apply NoDup_app in Hnodup as (_ & _ & Hnodup).
Qed.

Lemma flatten_schema_aux_checked fuel d parent_key sep cols :
  schema_columns_aux fuel d parent_key sep = Ret cols →
  checked (flatten_schema_aux fuel d parent_key sep) cols.
Proof.
  revert d parent_key cols.
  induction fuel as [|fuel IH]; intros d parent_key cols; simpl; [done|].
  destruct (Py.getitem "properties" d) as [properties| |]; simpl; [|done..].
  destruct (Py.items properties) as [entries| |]; simpl; [|done..].
  intros Hwalk.
  destruct (flatten_schema_loop_checked (schema_columns_aux fuel)
              (flatten_schema_aux fuel) entries parent_key sep [] [] cols)
    as [(items & -> & Hperm)|(Hdup & name & ->)]; [by intros; apply IH|done..| |].
  - simpl. destruct (collision_check items) as [Hunique Hclash].
    destruct (decide (NoDup (cols.*1))) as [Hnodup|Hdup].
    + left. split; [done|].
      destruct Hunique as [-> ->]; [by rewrite Hperm|]. simpl.
      eexists. split; [done|].
      etrans; [apply merge_sort_Permutation|done].
    + right. split; [done|].
      destruct Hclash as [name ->]; [by rewrite Hperm|]. by exists name.
  - right. split; [done|]. by exists name.
Qed.

Lemma flatten_schema_checked d parent_key sep cols :
  schema_columns d parent_key sep = Ret cols →
  checked (flatten_schema d parent_key sep) cols.
Proof. apply flatten_schema_aux_checked. Qed.

End Schema_facts.

(** C6. When the walk over a schema registers the same column name for two
    property paths, [flatten_schema] raises the [ValueError] of a duplicate
    column name.  It does so inside [DbSync.__init__]: no object is built,
    and whatever the caller would do with the object, the session is left
    as it was, with no statement submitted. *)
Theorem schema_conflict_rejected (target_config : TargetConfig)
    (stream_schema_message : StreamSchemaMessage)
    (cols : list (string * value)) :
  schema_columns (schema stream_schema_message) [] "__" = Ret cols →
  ¬ NoDup (cols.*1) →
  ∃ name,
    flatten_schema (schema stream_schema_message) [] "__"
    = Raise (ValueError (duplicate_message name))
    ∧ DbSync.__init__ target_config stream_schema_message
      = Raise (ValueError (duplicate_message name))
    ∧ ∀ (D A : Type) (use : DbSync.t → io D A) (s : session D),
        (self <~ lift (DbSync.__init__ target_config stream_schema_message) ;;
         use self) s
        = (Raise (ValueError (duplicate_message name)), s).
Proof.
  intros Hcols Hdup.
  destruct (flatten_schema_checked _ _ _ _ Hcols)
    as [(Hnodup & _)|(_ & name & Hraise)]; [done|].
  exists name. split; [done|].
  assert (DbSync.__init__ target_config stream_schema_message
          = Raise (ValueError (duplicate_message name))) as Hinit.
  { unfold DbSync.__init__. by rewrite Hraise. }
  split; [done|]. intros D A use s. unfold io_bind, lift. by rewrite Hinit.
Qed.

Lemma schema_conflict_rejected_witness :
  ∃ name,
    flatten_schema (schema clashing_message) [] "__"
    = Raise (ValueError (duplicate_message name))
    ∧ DbSync.__init__ {| config_schema := "public";
                         config_use_simple_column_type := None |} clashing_message
      = Raise (ValueError (duplicate_message name))
    ∧ ∀ (D A : Type) (use : DbSync.t → io D A) (s : session D),
        (self <~ lift (DbSync.__init__
                         {| config_schema := "public";
                            config_use_simple_column_type := None |}
                         clashing_message) ;;
         use self) s
        = (Raise (ValueError (duplicate_message name)), s).
Proof.
  apply (schema_conflict_rejected _ clashing_message
           [("answers__q1", VDict [("type", VList [VStr "string"])]);
            ("answers__q1", VDict [("type", VList [VStr "integer"])])]).
  - vm_compute. reflexivity.
  - intros Hnodup. apply NoDup_cons in Hnodup as [Hnotin _].
    apply Hnotin. left.
Defined.

(** ** The staged batch load *)

Section Batch_facts.

Context {D : Type} `{Connection D}.

Lemma table_name_stream self is_temporary name :
  inflect_name (stream (DbSync.self_stream_schema_message self)) = Ret name →
  DbSync.table_name self (stream (DbSync.self_stream_schema_message self))
    is_temporary
  = Ret (if is_temporary then name +:+ "_temp"
         else DbSync.self_schema_name self +:+ "." +:+ name).
Proof. intros Hname. unfold DbSync.table_name. by rewrite Hname. Qed.

(** When the creating statement can be built, so can the others. *)
Lemma create_table_query_builds self is_temporary create :
  DbSync.create_table_query self is_temporary = Ret create →
  ∃ name,
    inflect_name (stream (DbSync.self_stream_schema_message self)) = Ret name
    ∧ (length (key_properties (DbSync.self_stream_schema_message self)) ≠ 0 →
       ∃ key, primary_column_names (DbSync.self_stream_schema_message self)
              = Ret key)
    ∧ ∃ table columns primary_key,
        create = CreateTable is_temporary table columns primary_key.
Proof.
  unfold DbSync.create_table_query, DbSync.table_name.
  destruct (mapM _ _) as [columns| |]; cbn [bind]; [|done..].
  destruct (inflect_name _) as [name| |] eqn:Hname.
  - intros Hquery. exists name. split; [done|]. split.
    + intros Hkeys.
      destruct (Nat.eqb_spec
        (length (key_properties (DbSync.self_stream_schema_message self))) 0);
        [done|].
      destruct (primary_column_names _) as [key| |]; [by exists key|done..].
    + destruct (if Nat.eqb _ 0 then _ else _) as [primary_key| |];
        [|done..].
      injection Hquery as <-. by eexists _, _, _.
  - by destruct (if Nat.eqb _ 0 then _ else _) as [?| |].
  - by destruct (if Nat.eqb _ 0 then _ else _) as [?| |].
Qed.

Lemma batch_statements_builds self file create :
  DbSync.create_table_query self true = Ret create →
  ∃ prior drop,
    DbSync.drop_temp_table self = Ret drop
    ∧ DbSync.batch_statements self file = Ret (prior ++ [drop])
    ∧ (drop ∉ prior)
    ∧ ∀ count s,
        DbSync.load_csv self file count s
        = DbSync.with_connection (DbSync.submit_all (prior ++ [drop])) s.
Proof.
  intros Hcreate.
  destruct (create_table_query_builds _ _ _ Hcreate)
    as (name & Hname & Hkey & table & columns & primary_key & ->).
  assert (∀ (drop : statement) prior,
    Forall (λ q, match q with DropTable _ => False | _ => True end) prior →
    match drop with DropTable _ => True | _ => False end →
    drop ∉ prior) as Hfresh.
  { intros drop prior Hprior Hdrop Hin.
    apply (proj1 (Forall_forall _ _) Hprior) in Hin. by destruct drop. }
  pose proof (table_name_stream self true name Hname) as Htemp.
  pose proof (table_name_stream self false name Hname) as Htable.
  unfold DbSync.batch_statements, DbSync.load_csv, DbSync.drop_temp_table,
    DbSync.insert_from_temp_table, DbSync.update_from_temp_table.
  rewrite Hcreate, Htemp, Htable. cbn [bind].
  destruct (key_properties (DbSync.self_stream_schema_message self))
    as [|p keys] eqn:Hkeys.
  - cbn [length Nat.ltb Nat.leb Nat.eqb bind app].
    eexists [_; _; _], _. split; [done|]. split; [done|].
    split; [by apply Hfresh; repeat constructor|].
    intros count s. unfold DbSync.with_connection. cbn.
    unfold io_bind, lift.
    repeat (destruct (DbSync.cursor_execute _ _) as [[?| |] ?]; try done).
  - destruct Hkey as [key Hkey]; [done|]. rewrite Hkey.
    cbn [length Nat.ltb Nat.leb Nat.eqb bind app].
    eexists [_; _; _; _], _. split; [done|]. split; [done|].
    split; [by apply Hfresh; repeat constructor|].
    intros count s. unfold DbSync.with_connection. cbn.
    unfold io_bind, lift.
    repeat (destruct (DbSync.cursor_execute _ _) as [[?| |] ?]; try done).
Qed.

(** What [submit_all] submits is a beginning of the plan: all of it when
    every statement succeeds, else up to the statement that failed. *)
Lemma submit_all_log plan s :
  ∃ done,
    log (snd (DbSync.submit_all plan s)) = log s ++ (Submitted <$> done)
    ∧ match fst (DbSync.submit_all plan s) with
      | Ret _ => done = plan
      | Raise e =>
          ∃ before q after d,
            plan = before ++ q :: after ∧ done = before ++ [q]
            ∧ fst (execute q d) = Failure e
      | Stuck => False
      end.
Proof.
  revert s. induction plan as [|q plan IH]; intros s; simpl.
  - exists []. split; [by rewrite app_nil_r|done].
  - unfold io_bind, DbSync.cursor_execute.
    destruct (execute q (db s)) as [[rows|e] d] eqn:Hq.
    + destruct (IH (Session d (log s ++ [Submitted q]))) as (done & Hlog & Hres).
      exists (q :: done). split.
      * rewrite Hlog. simpl. by rewrite <- app_assoc.
      * destruct (fst (DbSync.submit_all plan _)) as [[]|e|]; [by subst| |done].
        destruct Hres as (before & q' & after & d' & -> & -> & Hfail).
        by exists (q :: before), q', after, d'.
    + exists [q]. split; [done|]. simpl.
      exists [], q, plan, (db s). by rewrite Hq.
Qed.




End Batch_facts.

(** ** Normalized names are words *)

Section Word_facts.

Lemma all_app p (s1 s2 : string) :
  Str.all p (s1 +:+ s2) = Str.all p s1 && Str.all p s2.
Proof.
  induction s1 as [|c s1 IH]; simpl; [done|]. by rewrite IH, andb_assoc.
Qed.

Lemma span_app p (s : string) :
  fst (Str.span p s) +:+ snd (Str.span p s) = s.
Proof.
  induction s as [|c s IH]; simpl; [done|].
  destruct (p c); [|done].
  destruct (Str.span p s) as [run rest]; simpl in *. by rewrite <- IH.
Qed.

Lemma unsnoc_app (s init : string) (z : ascii) :
  Str.unsnoc s = Some (init, z) → s = init +:+ String z EmptyString.
Proof.
  revert init. induction s as [|c s IH]; intros init; simpl; [done|].
  destruct (Str.unsnoc s) as [[init' z']|] eqn:Hs.
  - intros [= <- <-]. by rewrite (IH init').
  - intros [= <- <-]. destruct s as [|c' s]; [done|].
    simpl in Hs. by destruct (Str.unsnoc s) as [[? ?]|].
Qed.

Lemma scan_all p m bos skip s :
  preserves p m → Str.all p s → Str.all p (Re.scan m bos skip s).
Proof.
  intros Hm. revert bos skip.
  induction s as [|c s IH]; intros bos skip Hs; simpl; [done|].
  simpl in Hs. apply andb_prop_elim in Hs as [Hc Hs'].
  destruct skip as [|k]; [|by apply IH].
  destruct (m bos (String c s)) as [[repl n]|] eqn:Hmatch.
  - rewrite all_app. apply andb_prop_intro. split; [|by apply IH].
    apply (Hm bos (String c s) repl n); [|done].
    simpl. apply andb_prop_intro. by split.
  - simpl. apply andb_prop_intro. split; [done|by apply IH].
Qed.

Lemma non_alnum_word bos (s : string) :
  Str.all Str.is_word (Re.scan Re.non_alnum bos 0 s).
Proof.
  revert bos. induction s as [|c s IH]; intros bos; simpl; [done|].
  destruct (Str.is_alnum c) eqn:Hc; simpl.
  - unfold Str.is_word at 1. rewrite Hc. simpl. apply IH.
  - apply IH.
Qed.

Ltac split_all :=
  repeat match goal with
  | H : Is_true (_ && _) |- _ => apply andb_prop_elim in H as [? ?]
  | H : Is_true (Str.all _ (_ +:+ _)) |- _ => rewrite all_app in H
  | H : Is_true (Str.all _ (String _ _)) |- _ => cbn [Str.all] in H
  | |- Is_true (_ && _) => apply andb_prop_intro; split
  | |- Is_true (Str.all _ (_ +:+ _)) => rewrite all_app
  | |- Is_true (Str.all _ (String _ _)) => cbn [Str.all]
  end; try done; try by vm_compute.

Lemma acronym_underscore_word_preserves :
  preserves Str.is_word Re.acronym_underscore_word.
Proof.
  intros bos s repl n Hs. unfold Re.acronym_underscore_word.
  rewrite <- (span_app Str.is_upper s) in Hs.
  destruct (Str.span Str.is_upper s) as [[|r run] [|u0 [|a [|b rest]]]]; try done.
  destruct (_ && _); [|done]. intros [= <- <-]. simpl in Hs. split_all.
Qed.

Lemma lower_underscore_upper_preserves :
  preserves Str.is_word Re.lower_underscore_upper.
Proof.
  intros bos [|a [|u0 [|b s]]] repl n Hs; simpl; try done.
  destruct (_ && _); [|done]. intros [= <- <-]. split_all.
Qed.

Lemma acronym_word_preserves : preserves Str.is_word Re.acronym_word.
Proof.
  intros bos s repl n Hs. unfold Re.acronym_word.
  rewrite <- (span_app Str.is_upper s) in Hs.
  destruct (Str.span Str.is_upper s) as [run [|b rest]]; [done|].
  destruct (Str.unsnoc run) as [[[|r init] a]|] eqn:Hrun; try done.
  destruct (Str.is_lower b); [|done]. intros [= <- <-].
  apply unsnoc_app in Hrun as ->. simpl in Hs. split_all.
Qed.

Lemma lower_upper_preserves : preserves Str.is_word Re.lower_upper.
Proof.
  intros bos [|a [|b s]] repl n Hs; simpl; try done.
  destruct (_ && _); [|done]. intros [= <- <-]. split_all.
Qed.

Lemma hyphen_preserves : preserves Str.is_word Re.hyphen.
Proof.
  intros bos [|c s] repl n Hs; simpl; [done|].
  destruct (Ascii.eqb c "-"); [|done]. by intros [= <- <-].
Qed.

Lemma lower_char_word c : Str.is_word c → Str.is_word (Str.lower_char c).
Proof. destruct c as [[] [] [] [] [] [] [] []]; by vm_compute. Qed.

Lemma lower_word (s : string) :
  Str.all Str.is_word s → Str.all Str.is_word (Str.lower s).
Proof.
  induction s as [|c s IH]; simpl; [done|].
  intros [Hc Hs]%andb_prop_elim. apply andb_prop_intro.
  split; [by apply lower_char_word|by apply IH].
Qed.

Lemma underscore_word (word : string) :
  Str.all Str.is_word word → Str.all Str.is_word (inflection.underscore word).
Proof.
  intros Hword. unfold inflection.underscore, Re.sub.
  apply lower_word.
  apply scan_all; [apply hyphen_preserves|].
  apply scan_all; [apply lower_upper_preserves|].
  by apply scan_all; [apply acronym_word_preserves|].
Qed.

(** A normalized name holds letters, digits and underscores only. *)
Lemma inflect_name_word (name normalized : string) :
  inflect_name name = Ret normalized → Str.all Str.is_word normalized.
Proof.
  unfold inflect_name.
  set (n3 := Re.sub Re.lower_underscore_upper _).
  assert (Is_true (Str.all Str.is_word n3)) as Hn3.
  { apply scan_all; [apply lower_underscore_upper_preserves|].
    apply scan_all; [apply acronym_underscore_word_preserves|].
    apply non_alnum_word. }
  destruct (first_char n3) as [c| |]; simpl; [|done..].
  intros [= <-]. apply underscore_word.
  destruct (Str.is_digit c); [|done]. by rewrite all_app.
Qed.

Lemma word_has_no_dot (s1 s2 : string) :
  ¬ Str.all Str.is_word (Str.lower (s1 +:+ "." +:+ s2)).
Proof.
  induction s1 as [|c s1 IH]; simpl; [by intros []|].
  intros [_ Hs]%andb_prop_elim. by apply IH.
Qed.

(** The staging relation and the target never share a name. *)
Lemma staging_is_not_target (schema_name name normalized : string) :
  inflect_name name = Ret normalized →
  Pg.fold_name (schema_name +:+ "." +:+ normalized)
  ≠ Pg.fold_name (normalized +:+ "_temp").
Proof.
  intros Hname%inflect_name_word Heq.
  apply (word_has_no_dot schema_name normalized).
  unfold Pg.fold_name in Heq. rewrite Heq.
  apply lower_word. rewrite all_app. apply andb_prop_intro. by split.
Qed.

End Word_facts.

(** ** The batch load on the PostgreSQL model *)

Section Pg_facts.

Lemma flatten_schema_NoDup d parent_key sep flat :
  flatten_schema d parent_key sep = Ret flat → NoDup (flat.*1).
Proof.
  unfold flatten_schema. simpl.
  destruct (Py.getitem "properties" d) as [properties| |]; simpl; [|done..].
  destruct (Py.items properties) as [entries| |]; simpl; [|done..].
  destruct (flatten_schema_loop _ _ _ _ _) as [items| |]; simpl; [|done..].
  destruct (collision_check items) as [Hunique Hclash].
  destruct (decide (NoDup (items.*1))) as [Hnodup|Hdup].
  - destruct (Hunique Hnodup) as [-> ->]. simpl. intros [= <-].
    unfold sorted_by_key. by rewrite (merge_sort_Permutation _ items).
  - by destruct (Hclash Hdup) as [name ->].
Qed.

Lemma init_fields target_config stream_schema_message self :
  DbSync.__init__ target_config stream_schema_message = Ret self →
  DbSync.self_stream_schema_message self = stream_schema_message
  ∧ DbSync.self_schema_name self = config_schema target_config
  ∧ flatten_schema (schema stream_schema_message) [] "__"
    = Ret (DbSync.self_flatten_schema self).
Proof.
  unfold DbSync.__init__.
  destruct (flatten_schema _ _ _) as [flat| |]; simpl; [|done..].
  by intros [= <-].
Qed.

Lemma unsnoc_snoc (s : string) (c : ascii) :
  Str.unsnoc (s +:+ String c EmptyString) = Some (s, c).
Proof.
  induction s as [|a s IH]; [done|].
  change (String a s +:+ String c EmptyString)
    with (String a (s +:+ String c EmptyString)).
  simpl. by rewrite IH.
Qed.

Lemma unquote_safe_column_name (name : string) :
  Pg.unquote (safe_column_name name) = name.
Proof.
  unfold safe_column_name, double_quote.
  change (String (ascii_of_nat 34) EmptyString
          +:+ name +:+ String (ascii_of_nat 34) EmptyString)
    with (String (ascii_of_nat 34) (name +:+ String (ascii_of_nat 34) EmptyString)).
  unfold Pg.unquote. by rewrite unsnoc_snoc.
Qed.

Lemma column_clauses_names flat use_simple clauses :
  mapM (λ item, column_clause (fst item) (snd item) use_simple) flat
  = Ret clauses →
  (λ c, (Pg.unquote (clause_name c), clause_type c)) <$> clauses
  = zip (flat.*1) (clause_type <$> clauses)
  ∧ length clauses = length flat.
Proof.
  revert clauses. induction flat as [|[name props] flat IH]; intros clauses; simpl.
  - by intros [= <-].
  - unfold column_clause at 1.
    destruct (column_type props use_simple) as [type| |]; simpl; [|done..].
    destruct (mapM _ flat) as [rest| |]; simpl; [|done..].
    intros [= <-]. destruct (IH rest eq_refl) as [Hrest Hlen].
    cbn [fmap list_fmap clause_name clause_type fst zip zip_with length].
    by rewrite unquote_safe_column_name, Hrest, Hlen.
Qed.

Lemma submit_all_cons {D : Type} `{Connection D} q plan (s : session D) :
  fst (DbSync.submit_all (q :: plan) s) = Ret tt →
  ∃ rows d,
    execute q (db s) = (Rows rows, d)
    ∧ DbSync.submit_all (q :: plan) s
      = DbSync.submit_all plan (Session d (log s ++ [Submitted q])).
Proof.
  simpl. unfold io_bind, DbSync.cursor_execute.
  destruct (execute q (db s)) as [[rows|e] d]; [|done].
  intros _. by exists rows, d.
Qed.

Lemma run_create_inv st temporary table columns primary_key rows st' :
  Pg.run (CreateTable temporary table columns primary_key) st = (Rows rows, st') →
  Pg.tables st !! Pg.fold_name table = None
  ∧ st' = Pg.put (Pg.fold_name table)
            (Pg.Relation ((λ c, (Pg.unquote (clause_name c), clause_type c))
                          <$> columns) []) st.
Proof.
  cbn [Pg.run]. destruct (Pg.tables st !! Pg.fold_name table); [done|].
  by intros [= <- <-].
Qed.

Lemma run_copy_inv st table columns file rows st' :
  Pg.run (Copy table columns file) st = (Rows rows, st') →
  ∃ r, Pg.tables st !! Pg.fold_name table = Some r
       ∧ Forall (λ line, length line = length columns) file
       ∧ st' = Pg.put (Pg.fold_name table)
                 (Pg.Relation (Pg.rel_columns r)
                    (Pg.rel_rows r ++ (zip (Pg.unquote <$> columns) <$> file)))
                 st.
Proof.
  cbn [Pg.run]. destruct (Pg.tables st !! Pg.fold_name table) as [r|]; [|done].
  destruct (Nat.eqb _ 0); [done|].
  destruct (negb (forallb (Pg.has_column r) columns)); [done|].
  destruct (forallb _ file) eqn:Hfile; [|done]. simpl.
  intros [= <- <-]. exists r. split; [done|]. split; [|done].
  apply Forall_forall. intros line Hline%list_elem_of_In.
  apply (proj1 (forallb_forall _ _) Hfile) in Hline. by apply Nat.eqb_eq.
Qed.

Lemma run_insert_all_inv st table columns temp_table rows st' :
  Pg.run (InsertAll table columns temp_table) st = (Rows rows, st') →
  ∃ target staging,
    Pg.tables st !! Pg.fold_name table = Some target
    ∧ Pg.tables st !! Pg.fold_name temp_table = Some staging
    ∧ st' = Pg.put (Pg.fold_name table)
              (Pg.Relation (Pg.rel_columns target)
                 (Pg.rel_rows target
                  ++ (Pg.select_star staging columns <$> Pg.rel_rows staging)))
              st.
Proof.
  cbn [Pg.run].
  destruct (Pg.tables st !! Pg.fold_name table) as [target|]; [|done].
  destruct (Pg.tables st !! Pg.fold_name temp_table) as [staging|]; [|done].
  destruct (Nat.eqb _ 0); [done|].
  destruct (negb (forallb _ columns)); [done|].
  destruct (negb (Nat.eqb _ _)); [done|].
  intros [= <- <-]. by exists target, staging.
Qed.

Lemma run_drop_inv st table rows st' :
  Pg.run (DropTable table) st = (Rows rows, st') →
  st' = Pg.State (delete (Pg.fold_name table) (Pg.tables st)) (Pg.committed st).
Proof.
  cbn [Pg.run]. destruct (Pg.tables st !! Pg.fold_name table); [|done].
  by intros [= <- <-].
Qed.

Lemma field_zip (names fields : list string) :
  NoDup names → length fields = length names →
  (λ n, Pg.field (zip names fields) n) <$> names = fields.
Proof.
  intros Hnodup. revert fields.
  induction Hnodup as [|n names Hn Hnodup IH]; intros [|f fields] Hlen;
    simpl in *; try done.
  unfold Pg.field at 1. simpl. rewrite String.eqb_refl. simpl. f_equal.
  etrans; [|apply (IH fields); lia].
  apply list_fmap_ext. intros i n' Hn'. unfold Pg.field. simpl.
  destruct (String.eqb_spec n' n) as [->|]; [|done].
  destruct Hn. by apply list_elem_of_lookup_2 in Hn'.
Qed.

End Pg_facts.

Section Keyless_facts.

Context {D : Type} `{Connection D}.

(** Without key properties the batch is the staging create, the copy, the
    insert of all of staging and the drop. *)
Lemma keyless_batch (self : DbSync.t) (file : list (list string)) create :
  key_properties (DbSync.self_stream_schema_message self) = [] →
  DbSync.create_table_query self true = Ret create →
  ∃ name clauses,
    inflect_name (stream (DbSync.self_stream_schema_message self)) = Ret name
    ∧ mapM (λ item, column_clause (fst item) (snd item)
                      (DbSync.self_use_simple_column_type self))
           (DbSync.self_flatten_schema self) = Ret clauses
    ∧ ∀ count (s : session D),
        DbSync.load_csv self file count s
        = DbSync.with_connection
            (DbSync.submit_all
               [CreateTable true (name +:+ "_temp") clauses None;
                Copy (name +:+ "_temp") (DbSync.column_names self) file;
                InsertAll (DbSync.self_schema_name self +:+ "." +:+ name)
                  (DbSync.column_names self) (name +:+ "_temp");
                DropTable (name +:+ "_temp")]) s.
Proof.
  intros Hkeys Hcreate.
  destruct (batch_statements_builds self file create Hcreate)
    as (prior & drop & _ & Hplan & _ & Hload).
  unfold DbSync.batch_statements, DbSync.create_table_query,
    DbSync.insert_from_temp_table, DbSync.drop_temp_table, DbSync.table_name in Hplan.
  rewrite Hkeys in Hplan.
  destruct (mapM _ _) as [clauses| |] eqn:Hclauses;
    cbn [bind] in Hplan; [|done..].
  destruct (inflect_name _) as [name| |] eqn:Hname;
    cbn [bind length Nat.ltb Nat.leb Nat.eqb] in Hplan; [|done..].
  injection Hplan as Hplan. exists name, clauses.
  split; [done|]. split; [done|]. intros count s. by rewrite Hload, <- Hplan.
Qed.

(** Without key properties no update is submitted, whether the batch
    loads or fails. *)
Lemma keyless_batch_never_updates (self : DbSync.t) (file : list (list string))
    (count : nat) (s : session D) t c tt k :
  key_properties (DbSync.self_stream_schema_message self) = [] →
  Submitted (Update t c tt k) ∈ log (snd (DbSync.load_csv self file count s)) →
  Submitted (Update t c tt k) ∈ log s.
Proof.
  intros Hkeys.
  destruct (DbSync.create_table_query self true) as [create|e|] eqn:Hcreate.
  - destruct (keyless_batch self file create Hkeys Hcreate)
      as (name & clauses & _ & _ & ->).
    unfold DbSync.with_connection.
    destruct (submit_all_log
      [CreateTable true (name +:+ "_temp") clauses None;
       Copy (name +:+ "_temp") (DbSync.column_names self) file;
       InsertAll (DbSync.self_schema_name self +:+ "." +:+ name)
         (DbSync.column_names self) (name +:+ "_temp");
       DropTable (name +:+ "_temp")] s) as (done & Hlog & Hdone).
    assert (Update t c tt k ∉ done) as Hnone.
    { destruct (fst (DbSync.submit_all _ s)) as [[]|e|]; [| |done].
      - subst done. intros Hin.
        repeat (apply elem_of_cons in Hin as [Hin|Hin]; [done|]).
        by apply elem_of_nil in Hin.
      - destruct Hdone as (before & q & after & d & Hplan & -> & _).
        intros Hin. assert (Update t c tt k ∈ before ++ q :: after) as Hin'.
        { apply elem_of_app in Hin as [Hin|Hin%list_elem_of_singleton].
          - apply elem_of_app. by left.
          - subst q. apply elem_of_app. right. left. }
        rewrite <- Hplan in Hin'.
        repeat (apply elem_of_cons in Hin' as [Hin'|Hin']; [done|]).
        by apply elem_of_nil in Hin'. }
    destruct (DbSync.submit_all _ s) as [r s']. simpl in Hlog.
    assert (∀ e : event,
      Submitted (Update t c tt k) ∈ log s' ++ [e] → e ≠ Submitted (Update t c tt k) →
      Submitted (Update t c tt k) ∈ log s) as Hclose.
    { intros e Hin He. rewrite Hlog in Hin.
      apply elem_of_app in Hin as [Hin|Hin%list_elem_of_singleton]; [|done].
      apply elem_of_app in Hin as [Hin|Hin]; [done|].
      apply list_elem_of_fmap in Hin as (q & [= <-] & Hq). done. }
    destruct r as [[]|e|]; simpl; intros Hin; by apply (Hclose _ Hin).
  - unfold DbSync.load_csv, DbSync.with_connection, io_bind, lift.
    rewrite Hcreate. simpl.
    intros Hin. apply elem_of_app in Hin as [Hin|Hin%list_elem_of_singleton]; done.
  - unfold DbSync.load_csv, DbSync.with_connection, io_bind, lift.
    rewrite Hcreate. simpl.
    intros Hin. apply elem_of_app in Hin as [Hin|Hin%list_elem_of_singleton]; done.
Qed.

End Keyless_facts.

Section Rollback_facts.




End Rollback_facts.

(** C7. For an object built by the constructor from a stream without key
    properties, no batch ever submits an update.  A batch that loads
    submits the staging create, the bulk copy, one insert of all of staging
    and the drop; the target receives exactly the rows of the file, one
    per line and field by field, after its own rows, so that it grows by
    the number of lines; the staging relation is gone. *)
Theorem load_csv_without_keys (target_config : TargetConfig)
    (stream_schema_message : StreamSchemaMessage) (self : DbSync.t)
    (file : list (list string)) (count : nat) (s : session Pg.state) :
  DbSync.__init__ target_config stream_schema_message = Ret self →
  key_properties stream_schema_message = [] →
  let s' := snd (DbSync.load_csv self file count s) in
  let names := (DbSync.self_flatten_schema self).*1 in
  (∀ t c tt k, Submitted (Update t c tt k) ∈ log s' →
               Submitted (Update t c tt k) ∈ log s)
  ∧ (fst (DbSync.load_csv self file count s) = Ret tt →
     ∃ table temp_table clauses target batch,
       DbSync.table_name self (stream stream_schema_message) false = Ret table
       ∧ DbSync.table_name self (stream stream_schema_message) true
         = Ret temp_table
       ∧ batch = [CreateTable true temp_table clauses None;
                  Copy temp_table (DbSync.column_names self) file;
                  InsertAll table (DbSync.column_names self) temp_table;
                  DropTable temp_table]
       ∧ log s' = log s ++ (Submitted <$> batch) ++ [Committed]
       ∧ Pg.tables (db s) !! Pg.fold_name table = Some target
       ∧ Pg.tables (db s') !! Pg.fold_name table
         = Some (Pg.Relation (Pg.rel_columns target)
                   (Pg.rel_rows target ++ (zip names <$> file)))
       ∧ length (Pg.rel_rows target ++ (zip names <$> file))
         = length (Pg.rel_rows target) + length file
       ∧ Pg.tables (db s') !! Pg.fold_name temp_table = None).
Proof.
  intros Hinit Hkeys. cbv zeta.
  destruct (init_fields _ _ _ Hinit) as (Hmsg & Hschema & Hflat).
  pose proof (flatten_schema_NoDup _ _ _ _ Hflat) as Hnodup.
  rewrite <- Hmsg in Hkeys.
  split; [intros t c tt k; by apply keyless_batch_never_updates|].
  intros Hret.
  destruct (DbSync.create_table_query self true) as [create|e|] eqn:Hcreate;
    [|by unfold DbSync.load_csv, DbSync.with_connection, io_bind, lift in Hret;
         rewrite Hcreate in Hret..].
  destruct (keyless_batch self file create Hkeys Hcreate)
    as (name & clauses & Hname & Hclauses & Hload).
  rewrite Hload in Hret |- *. clear Hload Hcreate create.
  rewrite Hmsg in Hname.
  unfold DbSync.table_name. rewrite Hname. cbn [bind].
  pose proof (staging_is_not_target (DbSync.self_schema_name self) _ _ Hname)
    as Hdistinct.
  destruct (column_clauses_names _ _ _ Hclauses) as [Hcolumns Hlength].
  set (temp_table := name +:+ "_temp") in *.
  set (table := DbSync.self_schema_name self +:+ "." +:+ name) in *.
  set (columns := DbSync.column_names self) in *.
  assert (Pg.unquote <$> columns = (DbSync.self_flatten_schema self).*1)
    as Hunquote.
  { unfold columns, DbSync.column_names.
    rewrite <- list_fmap_compose. apply list_fmap_ext.
    intros i item _. apply unquote_safe_column_name. }
  unfold DbSync.with_connection in Hret |- *.
  destruct (DbSync.submit_all _ s) as [r s'] eqn:Hrun.
  destruct r as [[]|e|]; [|done..]. clear Hret.
  cbn [snd log db].
  assert (fst (DbSync.submit_all
            [CreateTable true temp_table clauses None;
             Copy temp_table columns file; InsertAll table columns temp_table;
             DropTable temp_table] s) = Ret tt) as Hok by by rewrite Hrun.
  destruct (submit_all_cons _ _ _ Hok) as (rows1 & st1 & Hq1 & Hrun1).
  rewrite Hrun1 in Hok, Hrun. clear Hrun1.
  destruct (submit_all_cons _ _ _ Hok) as (rows2 & st2 & Hq2 & Hrun2).
  rewrite Hrun2 in Hok, Hrun. clear Hrun2.
  destruct (submit_all_cons _ _ _ Hok) as (rows3 & st3 & Hq3 & Hrun3).
  rewrite Hrun3 in Hok, Hrun. clear Hrun3.
  destruct (submit_all_cons _ _ _ Hok) as (rows4 & st4 & Hq4 & Hrun4).
  rewrite Hrun4 in Hrun. clear Hrun4 Hok.
  cbn [db log DbSync.submit_all lift] in Hq1, Hq2, Hq3, Hq4, Hrun.
  injection Hrun as <-.
  cbn [execute Pg.connection] in Hq1, Hq2, Hq3, Hq4.
  apply run_create_inv in Hq1 as [Hfresh ->].
  apply run_copy_inv in Hq2 as (staging & Hstaging & Hlines & ->).
  apply run_insert_all_inv in Hq3 as (target & staged & Htarget & Hstaged & ->).
  apply run_drop_inv in Hq4 as ->.
  cbn [Pg.put Pg.tables Pg.committed] in *.
  rewrite lookup_insert_eq in Hstaging. injection Hstaging as <-.
  rewrite lookup_insert_eq in Hstaged. injection Hstaged as <-.
  rewrite !lookup_insert_ne in Htarget by done.
  cbn [Pg.rel_columns Pg.rel_rows app] in *.
  eexists table, temp_table, clauses, target, _.
  split; [done|]. split; [done|]. split; [reflexivity|].
  split; [cbn; by rewrite <- !app_assoc|].
  split; [done|]. cbn [commit Pg.connection Pg.tables db]. split; [|split].
  - rewrite lookup_delete_ne by done. rewrite lookup_insert_eq.
    do 3 f_equal. rewrite <- list_fmap_compose.
    apply list_fmap_ext. intros i line Hline.
    apply (proj1 (Forall_lookup _ _) Hlines) in Hline.
    assert (length columns = length (DbSync.self_flatten_schema self)) as Hsize.
    { unfold columns, DbSync.column_names. apply length_map. }
    unfold Pg.select_star. cbn [Pg.rel_columns compose]. rewrite Hcolumns.
    change (List.map Pg.unquote columns) with (Pg.unquote <$> columns).
    rewrite !Hunquote. f_equal.
    trans ((λ n, Pg.field (zip (DbSync.self_flatten_schema self).*1 line) n)
           <$> (zip (DbSync.self_flatten_schema self).*1
                    (clause_type <$> clauses)).*1);
      [symmetry; apply (List.map_map fst)|].
    rewrite fst_zip by (rewrite !length_fmap; lia).
    apply field_zip; [done|]. rewrite length_fmap. lia.
  - rewrite List.length_app, length_fmap. done.
  - apply lookup_delete_eq.
Qed.

Lemma load_csv_without_keys_witness :
  (∀ t c tt k,
     Submitted (Update t c tt k)
     ∈ log (snd (DbSync.load_csv users_sync [["Ann"; "1"]; ["Bob"; "2"]] 2
                   (Pg.start users_table))) →
     Submitted (Update t c tt k) ∈ log (Pg.start users_table))
  ∧ ∃ table temp_table clauses target batch,
      DbSync.table_name users_sync (stream users_message) false = Ret table
      ∧ DbSync.table_name users_sync (stream users_message) true = Ret temp_table
      ∧ batch = [CreateTable true temp_table clauses None;
                 Copy temp_table (DbSync.column_names users_sync)
                   [["Ann"; "1"]; ["Bob"; "2"]];
                 InsertAll table (DbSync.column_names users_sync) temp_table;
                 DropTable temp_table]
      ∧ log (snd (DbSync.load_csv users_sync [["Ann"; "1"]; ["Bob"; "2"]] 2
                    (Pg.start users_table)))
        = log (Pg.start users_table) ++ (Submitted <$> batch) ++ [Committed]
      ∧ Pg.tables (db (Pg.start users_table)) !! Pg.fold_name table = Some target
      ∧ Pg.tables (db (snd (DbSync.load_csv users_sync
                              [["Ann"; "1"]; ["Bob"; "2"]] 2
                              (Pg.start users_table))))
        !! Pg.fold_name table
        = Some (Pg.Relation (Pg.rel_columns target)
                  (Pg.rel_rows target
                   ++ (zip (DbSync.self_flatten_schema users_sync).*1
                       <$> [["Ann"; "1"]; ["Bob"; "2"]])))
      ∧ length (Pg.rel_rows target
                ++ (zip (DbSync.self_flatten_schema users_sync).*1
                    <$> [["Ann"; "1"]; ["Bob"; "2"]]))
        = length (Pg.rel_rows target) + length [["Ann"; "1"]; ["Bob"; "2"]]
      ∧ Pg.tables (db (snd (DbSync.load_csv users_sync
                              [["Ann"; "1"]; ["Bob"; "2"]] 2
                              (Pg.start users_table))))
        !! Pg.fold_name temp_table = None.
Proof.
  destruct (load_csv_without_keys users_config users_message users_sync
              [["Ann"; "1"]; ["Bob"; "2"]] 2 (Pg.start users_table))
    as [Hnone Hloads]; [vm_compute; reflexivity|reflexivity|].
  split; [exact Hnone|]. apply Hloads. vm_compute. reflexivity.
Defined.

(** A batch of two lines loads into [users_table]: the target holds its
    row and the two rows of the file. *)
Lemma load_csv_users_loads :
  fst (DbSync.load_csv users_sync [["Ann"; "1"]; ["Bob"; "2"]] 2
         (Pg.start users_table)) = Ret tt
  ∧ Pg.rel_rows
      <$> Pg.tables (db (snd (DbSync.load_csv users_sync
                                [["Ann"; "1"]; ["Bob"; "2"]] 2
                                (Pg.start users_table))))
          !! "public.users"
    = Some [[("id", "7"); ("full_name", "Eve")];
            [("full_name", "Ann"); ("id", "1")];
            [("full_name", "Bob"); ("id", "2")]].
Proof. split; by vm_compute. Qed.




(** ** Schema evolution *)

(** C1, the failing input.  The column [full_name] is new.  [update_columns]
    submits its one Add and no Replace, and then raises [KeyError]: the
    replacement loop reads [columns_dict[name_lower]] before its test
    [name_lower in columns_dict]. *)
Lemma update_columns_new_column_raises :
  fst (DbSync.update_columns users_sync (Pg.start users_table_without_name))
  = Raise (KeyError "full_name")
  ∧ log (snd (DbSync.update_columns users_sync
                (Pg.start users_table_without_name)))
    = [Submitted (SelectColumns "users" "public"); Committed;
       Submitted (AddColumn "public.users"
                    (Clause (safe_column_name "full_name") "character varying"));
       Committed].
Proof. split; by vm_compute. Qed.

(** C5, the failing input.  [id] is stored as a boolean and is now a 64-bit
    integer, and the column [full_name] is new.  [update_columns] adds
    [full_name] and raises [KeyError] before any column is replaced: no
    drop is submitted and [id] keeps its stored type. *)
Lemma update_columns_new_column_blocks_replace :
  column_type (kind "integer") true = Ret "bigint"
  ∧ fst (DbSync.update_columns users_sync (Pg.start users_table_with_boolean_id))
    = Raise (KeyError "full_name")
  ∧ log (snd (DbSync.update_columns users_sync
                (Pg.start users_table_with_boolean_id)))
    = [Submitted (SelectColumns "users" "public"); Committed;
       Submitted (AddColumn "public.users"
                    (Clause (safe_column_name "full_name") "character varying"));
       Committed]
  ∧ Pg.rel_columns
      <$> Pg.tables (db (snd (DbSync.update_columns users_sync
                                (Pg.start users_table_with_boolean_id))))
          !! "public.users"
    = Some [("id", "boolean"); ("full_name", "character varying")].
Proof. repeat split; by vm_compute. Qed.

(** With every desired column live, the same retyping is applied: the
    column is dropped and added with the desired type. *)
Lemma update_columns_replaces_when_all_live :
  fst (DbSync.update_columns users_sync (Pg.start users_table_retyped)) = Ret tt
  ∧ log (snd (DbSync.update_columns users_sync (Pg.start users_table_retyped)))
    = [Submitted (SelectColumns "users" "public"); Committed;
       Submitted (DropColumn "public.users" (safe_column_name "id")); Committed;
       Submitted (AddColumn "public.users"
                    (Clause (safe_column_name "id") "bigint"));
       Committed]
  ∧ Pg.rel_columns
      <$> Pg.tables (db (snd (DbSync.update_columns users_sync
                                (Pg.start users_table_retyped))))
          !! "public.users"
    = Some [("full_name", "character varying"); ("id", "bigint")].
Proof. repeat split; by vm_compute. Qed.

(** ** The missing-column defect of [update_columns], in general *)

Section Evolution_facts.

Lemma replacement_requires_live self columns_dict name props found :
  DbSync.replacement self columns_dict (name, props) = Ret found →
  Py.has_key (Str.lower name) columns_dict = true.
Proof.
  unfold DbSync.replacement, Py.has_key.
  destruct (column_type props _) as [type| |]; cbn [bind]; [|done..].
  by destruct (Py.lookup (Str.lower name) columns_dict).
Qed.

Lemma columns_to_replace_requires_live self columns_dict items plan :
  DbSync.columns_to_replace self columns_dict items = Ret plan →
  Forall (λ item, Py.has_key (Str.lower (fst item)) columns_dict = true) items.
Proof.
  revert plan.
  induction items as [|[name props] items IH]; intros plan; [constructor|].
  cbn [DbSync.columns_to_replace].
  destruct (DbSync.replacement self columns_dict (name, props))
    as [found| |] eqn:Hfound; cbn [bind]; [|done..].
  destruct (DbSync.columns_to_replace self columns_dict items)
    as [more| |]; cbn [bind]; [|done..].
  intros _. constructor; [|by apply (IH more)].
  by apply (replacement_requires_live _ _ _ _ _ Hfound).
Qed.

(** The decision of the replacement loop on a column that is live. *)
Lemma replacement_of_live_column self columns_dict name props column
    stored desired :
  column_type props (DbSync.self_use_simple_column_type self) = Ret desired →
  Py.lookup (Str.lower name) columns_dict = Some column →
  Py.lookup "data_type" column = Some stored →
  DbSync.replacement self columns_dict (name, props) =
  Ret (if String.eqb (Str.lower stored) (Str.lower desired)
          || (String.eqb (Str.lower stored) "timestamp without time zone"
              && String.eqb (Str.lower desired) "timestamp with time zone")
       then []
       else [(safe_column_name name, Clause (safe_column_name name) desired)]).
Proof.
  intros Htype Hlive Hstored.
  unfold DbSync.replacement, column_clause. rewrite Htype. cbn [bind].
  unfold Py.has_key, dict_row in *. rewrite Hlive. cbn [bind]. rewrite Hstored. cbn [bind andb].
  destruct (String.eqb (Str.lower stored) (Str.lower desired)); [done|].
  cbn [negb orb].
  by destruct (String.eqb (Str.lower stored) "timestamp without time zone"
               && String.eqb (Str.lower desired) "timestamp with time zone").
Qed.

(** Whenever a desired column is missing from the live columns,
    [update_columns] does not complete. *)
Lemma update_columns_fails_on_new_column {D : Type} `{Connection D}
    (self : DbSync.t) (s : session D) table rows d columns_dict name props :
  inflect_name (stream (DbSync.self_stream_schema_message self)) = Ret table →
  execute (SelectColumns (Str.lower table) (Str.lower (DbSync.self_schema_name self)))
          (db s) = (Rows rows, d) →
  DbSync.columns_by_name rows = Ret columns_dict →
  (name, props) ∈ DbSync.self_flatten_schema self →
  Py.has_key (Str.lower name) columns_dict = false →
  fst (DbSync.update_columns self s) ≠ Ret tt.
Proof.
  intros Htable Hselect Hdict Hin Hmissing.
  unfold DbSync.update_columns, DbSync.get_table_columns, DbSync.query,
    DbSync.with_connection, DbSync.cursor_execute, io_bind, lift.
  rewrite Htable. cbn [db log]. rewrite Hselect, Hdict.
  destruct (DbSync.columns_to_add _ _ _) as [to_add| |]; [|done..].
  destruct (for_each to_add _ _) as [[[]| |] s']; [|done..].
  destruct (DbSync.columns_to_replace _ _ _) as [plan| |] eqn:Hplan; [|done..].
  apply columns_to_replace_requires_live in Hplan.
  apply (proj1 (Forall_forall _ _) Hplan) in Hin. simpl in Hin. congruence.
Qed.

End Evolution_facts.

(** ** Fuel *)

Section Fuel_facts.

Variable json_dumps : value → string.

Lemma flatten_key_not_stuck k parent_key sep :
  flatten_key k parent_key sep ≠ Stuck.
Proof.
  unfold flatten_key.
  destruct (mapM inflect_name (parent_key ++ [k])) as [inflected| |] eqn:Hmap;
    cbn [bind]; [|done|].
  - destruct (reduce_loop_returns sep inflected (length inflected) 0)
      as (j & _ & Hrun & _); [lia..|].
    change (abbreviated 0 inflected) with inflected in Hrun. by rewrite Hrun.
  - exfalso. revert Hmap. generalize (parent_key ++ [k]).
    intros names. induction names as [|n names IH]; simpl; [done|].
    unfold inflect_name at 1.
    destruct (first_char _) as [c| |] eqn:Hc; simpl; [|done|].
    + destruct (mapM inflect_name names); simpl; [done..|by apply IH].
    + by destruct (Re.sub _ _).
Qed.

Lemma flatten_record_loop_not_stuck rec entries parent_key sep items :
  (∀ k v, (k, v) ∈ entries → rec v (parent_key ++ [k]) sep ≠ Stuck) →
  flatten_record_loop json_dumps rec entries parent_key sep items ≠ Stuck.
Proof.
  revert items. induction entries as [|[k v] entries IH]; intros items Hrec;
    simpl; [done|].
  pose proof (flatten_key_not_stuck k parent_key sep) as Hkey.
  destruct (flatten_key k parent_key sep) as [new_key| |]; simpl; [|done..].
  assert (∀ items', flatten_record_loop json_dumps rec entries parent_key sep
                      items' ≠ Stuck) as Hrest.
  { intros items'. apply IH. intros k' v' Hin. apply Hrec. by right. }
  destruct (Py.is_dict v); simpl; [|done].
  pose proof (Hrec k v ltac:(left)) as Hv.
  by destruct (rec v (parent_key ++ [k]) sep); simpl.
Qed.

(** [flatten_record] never runs out of fuel: it returns or raises. *)
Lemma flatten_record_not_stuck d parent_key sep :
  flatten_record json_dumps d parent_key sep ≠ Stuck.
Proof.
  unfold flatten_record. remember (Py.depth d) as fuel eqn:Hfuel.
  assert (Py.depth d ≤ fuel) as Hle by lia. clear Hfuel.
  revert d parent_key Hle. induction fuel as [|fuel IH]; intros d parent_key Hle;
    rewrite flatten_record_aux_unfold;
    (destruct d as [| | | | | |entries];
       cbn [Py.is_dict negb]; rewrite ?orb_true_r; try done);
    destruct (negb (Py.truthy (VDict entries)) || false); try done.
  - simpl in Hle. lia.
  - cbn [Py.items bind].
    pose proof (flatten_record_loop_not_stuck
                  (flatten_record_aux json_dumps fuel) entries parent_key sep [])
      as Hloop.
    destruct (flatten_record_loop _ _ _ _ _ _); [done..|].
    exfalso. apply Hloop; [|done]. intros k v Hin. apply IH.
    pose proof (depth_entry entries k v Hin). lia.
Qed.

End Fuel_facts.

Section Schema_fuel_facts.

Implicit Types (rec : value → list string → string →
                      outcome (list (string * value))).

Lemma contains_not_stuck k v : Py.contains k v ≠ Stuck.
Proof. by destruct v. Qed.

Lemma getitem_not_stuck k v : Py.getitem k v ≠ Stuck.
Proof. destruct v as [| | | | | |entries]; try done. simpl. by destruct (Py.lookup k entries). Qed.

Lemma getitem0_not_stuck v : Py.getitem0 v ≠ Stuck.
Proof. by destruct v as [| | | |[|c s]|[|x elems]|]. Qed.

Lemma items_not_stuck v : Py.items v ≠ Stuck.
Proof. by destruct v. Qed.

Lemma lookup_elem_of {A} k (entries : list (string * A)) x :
  Py.lookup k entries = Some x → (k, x) ∈ entries.
Proof.
  induction entries as [|[k' x'] entries IH]; simpl; [done|].
  destruct (String.eqb_spec k k') as [->|].
  - intros [= ->]. left.
  - intros Hx. right. by apply IH.
Qed.

Lemma getitem_depth k v x : Py.getitem k v = Ret x → Py.depth x < Py.depth v.
Proof.
  destruct v as [| | | | | |entries]; try done. cbn [Py.getitem].
  destruct (Py.lookup k entries) as [x'|] eqn:Hx; [|done].
  intros [= <-]. apply (depth_entry entries k). by apply lookup_elem_of.
Qed.

Lemma getitem0_depth v x : Py.getitem0 v = Ret x → Py.depth x ≤ Py.depth v.
Proof.
  destruct v as [| | | |[|c s]|[|y elems]|]; try done.
  - by intros [= <-].
  - intros [= <-]. simpl. lia.
Qed.

Lemma flatten_schema_entry_not_stuck rec k v parent_key sep :
  (∀ v', Py.depth v' ≤ Py.depth v → rec v' (parent_key ++ [k]) sep ≠ Stuck) →
  flatten_schema_entry rec k v parent_key sep ≠ Stuck.
Proof.
  intros Hrec. unfold flatten_schema_entry.
  pose proof (flatten_key_not_stuck k parent_key sep) as Hkey.
  destruct (flatten_key k parent_key sep) as [new_key| |]; cbn [bind]; [|done..].
  pose proof (contains_not_stuck "anyOf" v) as Hany.
  destruct (Py.contains "anyOf" v) as [any_of| |]; cbn [bind]; [|done..].
  assert (∀ v', Py.depth v' ≤ Py.depth v →
    (keys <- Py.items v';;
     if Py.has_key "type" keys
     then type <- Py.getitem "type" v';;
          is_object <- Py.contains "object" type;;
          has_properties <- (if is_object then Py.contains "properties" v'
                             else Ret false);;
          if has_properties then rec v' (parent_key ++ [k]) sep
          else Ret [(new_key, v')]
     else match keys with
          | [] => Ret []
          | (_, first) :: _ =>
              elem <- Py.getitem0 first;;
              type <- Py.getitem "type" elem;;
              if Py.is_str "string" type
              then Ret [(new_key, set_type elem ["null"; "string"])]
              else if Py.is_str "array" type
              then Ret [(new_key, set_type elem ["null"; "array"])]
              else Ret []
          end) ≠ Stuck) as Hbody.
  { intros v' Hv'.
    pose proof (items_not_stuck v') as Hitems.
    destruct (Py.items v') as [keys| |]; cbn [bind]; [|done..].
    destruct (Py.has_key "type" keys).
    - pose proof (getitem_not_stuck "type" v') as Htype.
      destruct (Py.getitem "type" v') as [type| |]; cbn [bind]; [|done..].
      pose proof (contains_not_stuck "object" type) as Hobject.
      destruct (Py.contains "object" type) as [[]| |]; cbn [bind]; [| |done..].
      + pose proof (contains_not_stuck "properties" v') as Hprops.
        destruct (Py.contains "properties" v') as [[]| |]; cbn [bind];
          [by apply Hrec|done..].
      + done.
    - destruct keys as [|[k0 first] keys]; [done|].
      pose proof (getitem0_not_stuck first) as Hfirst.
      destruct (Py.getitem0 first) as [elem| |]; cbn [bind]; [|done..].
      pose proof (getitem_not_stuck "type" elem) as Htype.
      destruct (Py.getitem "type" elem) as [type| |]; cbn [bind]; [|done..].
      by repeat destruct (Py.is_str _ type). }
  destruct any_of; [|by apply Hbody].
  pose proof (getitem_not_stuck "anyOf" v) as Halt.
  destruct (Py.getitem "anyOf" v) as [alternatives| |] eqn:Halts;
    cbn [bind]; [|done..].
  pose proof (getitem0_not_stuck alternatives) as Hhead.
  destruct (Py.getitem0 alternatives) as [v'| |] eqn:Hv'; cbn [bind]; [|done..].
  apply Hbody. apply getitem_depth in Halts. apply getitem0_depth in Hv'. lia.
Qed.

Lemma flatten_schema_loop_not_stuck rec entries parent_key sep items :
  (∀ k v v', (k, v) ∈ entries → Py.depth v' ≤ Py.depth v →
             rec v' (parent_key ++ [k]) sep ≠ Stuck) →
  flatten_schema_loop rec entries parent_key sep items ≠ Stuck.
Proof.
  revert items. induction entries as [|[k v] entries IH]; intros items Hrec;
    simpl; [done|].
  pose proof (flatten_schema_entry_not_stuck rec k v parent_key sep) as Hentry.
  destruct (flatten_schema_entry rec k v parent_key sep) as [added| |];
    cbn [bind]; [|done|].
  - apply IH. intros k' v0 v' Hin. apply Hrec. by right.
  - exfalso. apply Hentry; [|done]. intros v'. apply Hrec. left.
Qed.

(** With the fuel [flatten_schema] gives it, the walk never runs out. *)
Lemma flatten_schema_aux_not_stuck fuel d parent_key sep :
  Py.depth d < fuel →
  flatten_schema_aux fuel d parent_key sep ≠ Stuck
  ∧ schema_columns_aux fuel d parent_key sep ≠ Stuck.
Proof.
  revert d parent_key. induction fuel as [|fuel IH]; intros d parent_key Hfuel;
    [lia|].
  cbn [flatten_schema_aux schema_columns_aux].
  pose proof (getitem_not_stuck "properties" d) as Hprops.
  destruct (Py.getitem "properties" d) as [properties| |] eqn:Hproperties;
    cbn [bind]; [|done..].
  apply getitem_depth in Hproperties.
  pose proof (items_not_stuck properties) as Hitems.
  destruct (Py.items properties) as [entries| |] eqn:Hentries;
    cbn [bind]; [|done..].
  destruct properties; try done. injection Hentries as ->.
  assert (∀ k v v', (k, v) ∈ entries → Py.depth v' ≤ Py.depth v →
                    Py.depth v' < fuel) as Hdepth.
  { intros k v v' Hin Hv'. pose proof (depth_entry entries k v Hin). lia. }
  split.
  - pose proof (flatten_schema_loop_not_stuck (flatten_schema_aux fuel)
                  entries parent_key sep []) as Hloop.
    destruct (flatten_schema_loop _ _ _ _ _) as [items| |]; cbn [bind].
    + by destruct (check_groups _) as [[]| |] eqn:Hcheck;
        [..|rewrite check_groups_adjacent in Hcheck;
            destruct (first_adjacent _)].
    + done.
    + exfalso. apply Hloop; [|done].
      intros k v v' Hin Hv'. by apply IH, (Hdepth k v).
  - apply flatten_schema_loop_not_stuck.
    intros k v v' Hin Hv'. by apply IH, (Hdepth k v).
Qed.

Lemma flatten_schema_not_stuck d parent_key sep :
  flatten_schema d parent_key sep ≠ Stuck.
Proof. apply flatten_schema_aux_not_stuck. lia. Qed.

End Schema_fuel_facts.

(** * Further properties *)

(** ** Normalized names *)

Ltac is_true_split :=
  repeat match goal with
  | H : Is_true (_ && _) |- _ => apply andb_prop_elim in H as [? ?]
  | H : Is_true (Str.all _ (String _ _)) |- _ => cbn [Str.all] in H
  end.

Section Identifier_facts.

Lemma all_impl (p q : ascii → bool) (s : string) :
  (∀ c, p c → q c) → Str.all p s → Str.all q s.
Proof.
  intros Hpq. induction s as [|c s IH]; simpl; [done|].
  intros [Hc Hs]%andb_prop_elim. apply andb_prop_intro. split; auto.
Qed.

Lemma ident_not_upper c : is_ident c → Str.is_upper c = false.
Proof. destruct c as [[] [] [] [] [] [] [] []]; by vm_compute. Qed.

Lemma ident_word c : is_ident c → Str.is_word c.
Proof. destruct c as [[] [] [] [] [] [] [] []]; by vm_compute. Qed.

Lemma lower_char_ident c : Str.is_word c → is_ident (Str.lower_char c).
Proof. destruct c as [[] [] [] [] [] [] [] []]; by vm_compute. Qed.

Lemma upper_char_word c : Str.is_word c → Str.is_word (Str.upper_char c).
Proof. destruct c as [[] [] [] [] [] [] [] []]; by vm_compute. Qed.

Lemma lower_char_digit c : Str.is_digit (Str.lower_char c) = Str.is_digit c.
Proof. destruct c as [[] [] [] [] [] [] [] []]; by vm_compute. Qed.

Lemma ident_underscore c :
  is_ident c → Str.is_alnum c = false → c = Str.underscore_char.
Proof. destruct c as [[] [] [] [] [] [] [] []]; by vm_compute. Qed.

Lemma lower_ident (s : string) :
  Str.all Str.is_word s → Str.all is_ident (Str.lower s).
Proof.
  induction s as [|c s IH]; simpl; [done|].
  intros [Hc Hs]%andb_prop_elim. apply andb_prop_intro.
  split; [by apply lower_char_ident|by apply IH].
Qed.

Lemma lower_fixed (s : string) : Str.all is_ident s → Str.lower s = s.
Proof.
  unfold Str.lower. induction s as [|c s IH]; simpl; [done|].
  intros [Hc Hs]%andb_prop_elim. rewrite IH by done.
  unfold Str.lower_char. by rewrite (ident_not_upper c Hc).
Qed.

Lemma lower_starts (s : string) :
  starts_without_digit s → starts_without_digit (Str.lower s).
Proof. destruct s as [|c s]; simpl; [done|]. by rewrite lower_char_digit. Qed.

Lemma starts_app (s1 s2 : string) :
  starts_without_digit s1 → starts_without_digit (s1 +:+ s2).
Proof. by destruct s1. Qed.

(** A substitution whose replacements begin like the text they replace
    keeps the first character of the text out of the digits. *)
Lemma scan_starts m bos (s : string) :
  (∀ bos s repl n, starts_without_digit s → m bos s = Some (repl, n) →
                   starts_without_digit repl) →
  starts_without_digit s → starts_without_digit (Re.scan m bos 0 s).
Proof.
  intros Hm Hs. destruct s as [|c s]; [done|]. cbn [Re.scan].
  destruct (m bos (String c s)) as [[repl n]|] eqn:Hmatch; [|done].
  apply starts_app. by apply (Hm bos (String c s) repl n).
Qed.

Lemma underscore_starts (word : string) :
  starts_without_digit word → starts_without_digit (inflection.underscore word).
Proof.
  intros Hword. unfold inflection.underscore, Re.sub.
  apply lower_starts.
  apply scan_starts.
  { intros bos [|c s] repl n _; simpl; [done|].
    destruct (Ascii.eqb c "-"); [|done]. by intros [= <- <-]. }
  apply scan_starts.
  { intros bos [|a [|b s]] repl n Hs; simpl; try done.
    destruct (_ && _); [|done]. by intros [= <- <-]. }
  apply scan_starts; [|done].
  intros bos s repl n Hs. unfold Re.acronym_word.
  pose proof (span_app Str.is_upper s) as Happ.
  destruct (Str.span Str.is_upper s) as [run [|b rest]]; [done|].
  destruct (Str.unsnoc run) as [[[|r init] a]|] eqn:Hrun; try done.
  destruct (Str.is_lower b); [|done]. intros [= <- <-].
  apply unsnoc_app in Hrun as ->. simpl in Happ. by rewrite <- Happ in Hs.
Qed.

Lemma underscore_ident (word : string) :
  Str.all Str.is_word word → Str.all is_ident (inflection.underscore word).
Proof.
  intros Hword. unfold inflection.underscore, Re.sub.
  apply lower_ident.
  apply scan_all; [apply hyphen_preserves|].
  apply scan_all; [apply lower_upper_preserves|].
  by apply scan_all; [apply acronym_word_preserves|].
Qed.

End Identifier_facts.

Section Normal_form_facts.

Lemma inflect_name_ident (name normalized : string) :
  inflect_name name = Ret normalized → Str.all is_ident normalized.
Proof.
  unfold inflect_name.
  set (n3 := Re.sub Re.lower_underscore_upper _).
  assert (Is_true (Str.all Str.is_word n3)) as Hn3.
  { apply scan_all; [apply lower_underscore_upper_preserves|].
    apply scan_all; [apply acronym_underscore_word_preserves|].
    apply non_alnum_word. }
  clearbody n3. destruct n3 as [|c rest]; simpl; [done|].
  intros [= <-]. apply underscore_ident.
  destruct (Str.is_digit c); [|done]. by rewrite all_app.
Qed.

Lemma inflect_name_starts (name normalized : string) :
  inflect_name name = Ret normalized → starts_without_digit normalized.
Proof.
  unfold inflect_name.
  set (n3 := Re.sub Re.lower_underscore_upper _).
  clearbody n3. destruct n3 as [|c rest]; simpl; [done|].
  intros [= <-]. apply underscore_starts.
  destruct (Str.is_digit c) eqn:Hc; [done|]. simpl. by rewrite Hc.
Qed.

End Normal_form_facts.

Section Idempotence_facts.

Lemma all_tail p c (s : string) : Str.all p (String c s) → Str.all p s.
Proof. simpl. by intros [_ ?]%andb_prop_elim. Qed.

(** A substitution that finds no match in text over [[a-z0-9_]] leaves
    such text as it is. *)
Lemma scan_quiet m bos (s : string) :
  (∀ bos s, Str.all is_ident s → m bos s = None) →
  Str.all is_ident s → Re.scan m bos 0 s = s.
Proof.
  intros Hm. revert bos. induction s as [|c s IH]; intros bos Hs; [done|].
  cbn [Re.scan]. rewrite (Hm bos (String c s) Hs).
  by rewrite (IH false (all_tail _ _ _ Hs)).
Qed.

Lemma non_alnum_quiet bos (s : string) :
  Str.all is_ident s → Re.scan Re.non_alnum bos 0 s = s.
Proof.
  revert bos. induction s as [|c s IH]; intros bos Hs; [done|].
  cbn [Re.scan Re.non_alnum]. pose proof (all_tail _ _ _ Hs) as Hs'.
  simpl in Hs. apply andb_prop_elim in Hs as [Hc _].
  destruct (Str.is_alnum c) eqn:Halnum.
  - by rewrite (IH false Hs').
  - rewrite (ident_underscore c Hc Halnum). simpl. by rewrite (IH false Hs').
Qed.

Lemma span_upper_ident (s : string) :
  Str.all is_ident s → Str.span Str.is_upper s = (EmptyString, s).
Proof.
  destruct s as [|c s]; [done|]. simpl.
  intros [Hc _]%andb_prop_elim. by rewrite (ident_not_upper c Hc).
Qed.

Lemma acronym_underscore_word_quiet bos (s : string) :
  Str.all is_ident s → Re.acronym_underscore_word bos s = None.
Proof.
  intros Hs. unfold Re.acronym_underscore_word.
  by rewrite (span_upper_ident s Hs).
Qed.

Lemma lower_underscore_upper_quiet bos (s : string) :
  Str.all is_ident s → Re.lower_underscore_upper bos s = None.
Proof.
  destruct s as [|a [|u0 [|b s]]]; try done. intros Hs. is_true_split.
  cbn [Re.lower_underscore_upper].
  rewrite (ident_not_upper b) by done. by rewrite andb_false_r.
Qed.

Lemma acronym_word_quiet bos (s : string) :
  Str.all is_ident s → Re.acronym_word bos s = None.
Proof.
  intros Hs. unfold Re.acronym_word. rewrite (span_upper_ident s Hs).
  by destruct s.
Qed.

Lemma lower_upper_quiet bos (s : string) :
  Str.all is_ident s → Re.lower_upper bos s = None.
Proof.
  destruct s as [|a [|b s]]; try done. intros Hs. is_true_split.
  cbn [Re.lower_upper].
  rewrite (ident_not_upper b) by done. by rewrite andb_false_r.
Qed.

Lemma hyphen_quiet bos (s : string) :
  Str.all is_ident s → Re.hyphen bos s = None.
Proof.
  destruct s as [|c s]; [done|]. intros Hs. is_true_split.
  cbn [Re.hyphen].
  match goal with Hc : Is_true (is_ident c) |- _ => revert Hc end. clear.
  destruct c as [[] [] [] [] [] [] [] []]; by vm_compute.
Qed.

Lemma underscore_quiet (word : string) :
  Str.all is_ident word → inflection.underscore word = word.
Proof.
  intros Hword. unfold inflection.underscore, Re.sub.
  rewrite (scan_quiet _ _ _ acronym_word_quiet Hword).
  rewrite (scan_quiet _ _ _ lower_upper_quiet Hword).
  rewrite (scan_quiet _ _ _ hyphen_quiet Hword).
  by apply lower_fixed.
Qed.

(** A name over [[a-z0-9_]] that starts with no digit is its own
    normalized name. *)
Lemma inflect_name_fixed (name : string) :
  Str.all is_ident name → starts_without_digit name →
  inflect_name name = Ret name.
Proof.
  intros Hname Hstart. unfold inflect_name, Re.sub.
  rewrite (non_alnum_quiet _ _ Hname).
  rewrite (scan_quiet _ _ _ acronym_underscore_word_quiet Hname).
  rewrite (scan_quiet _ _ _ lower_underscore_upper_quiet Hname).
  destruct name as [|c rest]; [done|]. simpl in Hstart. simpl.
  destruct (Str.is_digit c); [done|]. by rewrite underscore_quiet.
Qed.

End Idempotence_facts.

(** X1.  A normalized name is an unquoted lower-case identifier: whenever
    [inflect_name] returns, the name holds lower-case letters, digits and
    underscores only, is not empty and begins with no digit. *)
Theorem inflect_name_identifier (name normalized : string) :
  inflect_name name = Ret normalized →
  Str.all is_ident normalized ∧ starts_without_digit normalized.
Proof.
  intros Hname. split.
  - by apply (inflect_name_ident name).
  - by apply (inflect_name_starts name).
Qed.

Lemma inflect_name_identifier_witness :
  Str.all is_ident "_2nd__http_request"
  ∧ starts_without_digit "_2nd__http_request".
Proof. apply (inflect_name_identifier "2nd HTTPRequest"). reflexivity. Defined.

(** X2.  [inflect_name] is idempotent: a name it returned is returned
    unchanged when it is normalized again. *)
Theorem inflect_name_idempotent (name normalized : string) :
  inflect_name name = Ret normalized →
  inflect_name normalized = Ret normalized.
Proof.
  intros Hname. apply inflect_name_fixed.
  - by apply (inflect_name_ident name).
  - by apply (inflect_name_starts name).
Qed.

Lemma inflect_name_idempotent_witness :
  inflect_name "_2nd__http_request" = Ret "_2nd__http_request".
Proof. apply (inflect_name_idempotent "2nd HTTPRequest"). reflexivity. Defined.

Section Abbreviation_facts.

Lemma word_start_preserves : preserves Str.is_word Re.word_start.
Proof.
  intros bos [|a [|b s]] repl n Hs; simpl; try done.
  - destruct (bos && _); [|done]. intros [= <- <-]. is_true_split.
    simpl. rewrite andb_true_r. by apply upper_char_word.
  - is_true_split. destruct (bos && _).
    + intros [= <- <-]. simpl. rewrite andb_true_r. by apply upper_char_word.
    + destruct (_ && _); [|done]. intros [= <- <-].
      simpl. rewrite andb_true_r. by apply upper_char_word.
Qed.

Lemma lower_letter_preserves : preserves Str.is_word Re.lower_letter.
Proof.
  intros bos [|c s] repl n Hs; simpl; [done|].
  destruct (Str.is_lower c); [|done]. by intros [= <- <-].
Qed.

Lemma all_substring p (n : nat) (s : string) :
  Str.all p s → Str.all p (String.substring 0 n s).
Proof.
  revert n. induction s as [|c s IH]; intros [|n] Hs; try done.
  is_true_split. simpl. apply andb_prop_intro. split; [done|by apply IH].
Qed.

Lemma substring_length_le (n : nat) (s : string) :
  String.length (String.substring 0 n s) ≤ String.length s.
Proof.
  revert n. induction s as [|c s IH]; intros [|n]; simpl; try lia.
  specialize (IH n). lia.
Qed.

Lemma reduce_segment_ident (segment : string) :
  Str.all Str.is_word segment → Str.all is_ident (reduce_segment segment).
Proof.
  intros Hseg. unfold reduce_segment. apply lower_ident.
  destruct (1 <? _).
  - unfold inflection.camelize, Re.sub.
    apply scan_all; [apply lower_letter_preserves|].
    by apply scan_all; [apply word_start_preserves|].
  - by apply all_substring.
Qed.

(** A substitution whose replacements are no longer than their matches
    never lengthens the text. *)
Lemma scan_shrinks m bos skip (s : string) :
  (∀ bos s repl n, m bos s = Some (repl, n) →
     String.length repl ≤ n ∧ 1 ≤ n ∧ n ≤ String.length s) →
  String.length (Re.scan m bos skip s) ≤ String.length s - skip.
Proof.
  intros Hm. revert bos skip.
  induction s as [|c s IH]; intros bos skip; simpl; [lia|].
  destruct skip as [|k]; [|apply IH].
  destruct (m bos (String c s)) as [[repl n]|] eqn:Hmatch.
  - apply Hm in Hmatch as (Hrepl & Hn & Hs). simpl in Hs.
    rewrite string_length_app. specialize (IH false (Nat.pred n)). lia.
  - simpl. specialize (IH false 0). lia.
Qed.

Lemma reduce_segment_length (segment : string) :
  String.length (reduce_segment segment) ≤ String.length segment.
Proof.
  unfold reduce_segment, Str.lower. rewrite string_length_map.
  destruct (1 <? _); [|apply substring_length_le].
  unfold inflection.camelize, Re.sub.
  etrans; [apply scan_shrinks|].
  { intros bos [|c s] repl n; simpl; [done|].
    destruct (Str.is_lower c); [|done]. intros [= <- <-]. simpl. lia. }
  etrans; [apply Nat.le_sub_l|].
  etrans; [apply scan_shrinks|lia].
  intros bos [|a [|b s]] repl n; simpl; try done.
  - destruct (bos && _); [|done]. intros [= <- <-]. simpl. lia.
  - destruct (bos && _); [intros [= <- <-]; simpl; lia|].
    destruct (_ && _); [|done]. intros [= <- <-]. simpl. lia.
Qed.

Lemma join_length_cons sep x l :
  String.length (Str.join sep (x :: l)) =
  String.length x
  + match l with
    | [] => 0
    | _ => String.length sep + String.length (Str.join sep l)
    end.
Proof. destruct l; simpl; [lia|]. by rewrite !string_length_app. Qed.

Lemma join_length_le sep (l1 l2 : list string) :
  Forall2 (λ a b, String.length a ≤ String.length b) l1 l2 →
  String.length (Str.join sep l1) ≤ String.length (Str.join sep l2).
Proof.
  induction 1 as [|a b l1 l2 Hab Hl IH]; [done|].
  rewrite !join_length_cons. destruct Hl; lia.
Qed.

Lemma abbreviated_shorter i (inflected : list string) :
  Forall2 (λ a b, String.length a ≤ String.length b)
    (abbreviated i inflected) inflected.
Proof.
  unfold abbreviated. rewrite <- (take_drop i inflected) at 3.
  apply Forall2_app.
  - apply Forall2_fmap_l, Forall2_same_length_lookup_2; [done|].
    intros j a b Ha Hb. simplify_eq. apply reduce_segment_length.
  - apply Forall2_same_length_lookup_2; [done|].
    intros j a b Ha Hb. by simplify_eq.
Qed.

Lemma join_ident sep (l : list string) :
  Str.all is_ident sep → Forall (λ n, Str.all is_ident n) l →
  Str.all is_ident (Str.join sep l).
Proof.
  intros Hsep. induction 1 as [|x l Hx Hl IH]; [done|].
  destruct l as [|y l]; [done|].
  change (Str.join sep (x :: y :: l)) with (x +:+ sep +:+ Str.join sep (y :: l)).
  rewrite !all_app. repeat (apply andb_prop_intro; split); done.
Qed.

Lemma mapM_inflect_name_ident (names inflected : list string) :
  mapM inflect_name names = Ret inflected →
  Forall (λ n, Str.all is_ident n) inflected.
Proof.
  revert inflected. induction names as [|n names IH]; intros inflected; simpl.
  - by intros [= <-].
  - destruct (inflect_name n) as [n'| |] eqn:Hn; simpl; [|done..].
    destruct (mapM inflect_name names) as [rest| |]; simpl; [|done..].
    intros [= <-]. constructor; [by apply (inflect_name_ident n)|by apply IH].
Qed.

Lemma reduce_loop_ident fuel sep (l l' : list string) i :
  Forall (λ n, Str.all is_ident n) l →
  reduce_loop fuel sep l i = Ret l' →
  Forall (λ n, Str.all is_ident n) l'.
Proof.
  revert l i. induction fuel as [|fuel IH]; intros l i Hl;
    rewrite reduce_loop_unfold; destruct (_ && _); try done;
    try by intros [= <-].
  unfold list_index. destruct (l !! i) as [segment|] eqn:Hseg; [|done].
  cbn [bind]. apply IH. apply Forall_insert; [done|].
  apply reduce_segment_ident. apply (all_impl is_ident); [apply ident_word|].
  by apply (Forall_lookup_1 _ _ _ _ Hl Hseg).
Qed.

Lemma mapM_inflect_name_raises (names : list string) :
  EmptyString ∈ names → mapM inflect_name names = Raise IndexError.
Proof.
  induction names as [|n names IH]; [by intros ?%elem_of_nil|].
  intros Hin. simpl. destruct (decide (n = EmptyString)) as [->|Hn]; [done|].
  destruct (inflect_name_returns n Hn) as [n' [-> _]]. simpl.
  rewrite IH; [done|]. apply elem_of_cons in Hin as [?|?]; [congruence|done].
Qed.

Lemma flatten_key_ident (k : string) (parent_key : list string)
    (sep name : string) :
  Str.all is_ident sep →
  flatten_key k parent_key sep = Ret name →
  Str.all is_ident name.
Proof.
  intros Hsep. unfold flatten_key.
  destruct (mapM inflect_name (parent_key ++ [k])) as [inflected| |] eqn:Hinf;
    simpl; [|done..].
  destruct (reduce_loop _ _ _ _) as [reduced| |] eqn:Hloop; simpl; [|done..].
  intros [= <-]. apply join_ident; [done|].
  apply (reduce_loop_ident _ _ _ _ _ (mapM_inflect_name_ident _ _ Hinf) Hloop).
Qed.

Lemma flatten_key_raises (k : string) (parent_key : list string) (sep : string) :
  EmptyString ∈ parent_key ++ [k] →
  flatten_key k parent_key sep = Raise IndexError.
Proof.
  intros Hin. unfold flatten_key. by rewrite (mapM_inflect_name_raises _ Hin).
Qed.

Lemma flatten_key_returns (k : string) (parent_key : list string) (sep : string) :
  EmptyString ∉ parent_key ++ [k] →
  ∃ name, flatten_key k parent_key sep = Ret name.
Proof.
  intros Hnot.
  assert (Forall (λ n, n ≠ EmptyString) (parent_key ++ [k])) as Hnames.
  { apply Forall_forall. intros n Hn ->. done. }
  destruct (mapM_inflect_name_returns _ Hnames) as [inflected [Hinf _]].
  destruct (reduce_loop_returns sep inflected (length inflected) 0)
    as (i & _ & Hrun & _); [lia..|].
  eexists. unfold flatten_key. rewrite Hinf. simpl.
  change inflected with (abbreviated 0 inflected) at 2. by rewrite Hrun.
Qed.

End Abbreviation_facts.

(** X3.  With a separator over [[a-z0-9_]] (the program's is ["__"]),
    every name [flatten_key] returns is over [[a-z0-9_]], abbreviated
    segments included. *)
Theorem flatten_key_identifier (k : string) (parent_key : list string)
    (sep name : string) :
  Str.all is_ident sep →
  flatten_key k parent_key sep = Ret name →
  Str.all is_ident name.
Proof. apply flatten_key_ident. Qed.

Lemma flatten_key_identifier_witness :
  Str.all is_ident "billing_address__zip_code".
Proof.
  apply (flatten_key_identifier "zipCode" ["billingAddress"] "__"); reflexivity.
Defined.

(** X4.  Abbreviation never lengthens a name: what [flatten_key] returns
    is no longer than the normalized segments joined as they are, and it is
    that very name when it is shorter than 63 characters. *)
Theorem flatten_key_never_longer (k : string) (parent_key : list string)
    (sep : string) (inflected : list string) :
  mapM inflect_name (parent_key ++ [k]) = Ret inflected →
  ∃ name,
    flatten_key k parent_key sep = Ret name
    ∧ String.length name ≤ String.length (Str.join sep inflected)
    ∧ (String.length (Str.join sep inflected) < 63 →
       name = Str.join sep inflected).
Proof.
  intros Hinf.
  destruct (reduce_loop_returns sep inflected (length inflected) 0)
    as (i & Hi & Hrun & Hstop & Hmin); [lia..|].
  exists (Str.join sep (abbreviated i inflected)). split; [|split].
  - unfold flatten_key. rewrite Hinf. simpl.
    change inflected with (abbreviated 0 inflected) at 2. by rewrite Hrun.
  - apply join_length_le, abbreviated_shorter.
  - intros Hshort. destruct i as [|i]; [done|].
    specialize (Hmin 0). unfold abbreviated in Hmin at 1. simpl in Hmin.
    rewrite drop_0 in Hmin. lia.
Qed.

Lemma flatten_key_never_longer_witness :
  ∃ name,
    flatten_key "zipCode" ["billingAddress"] "__" = Ret name
    ∧ String.length name
      ≤ String.length (Str.join "__" ["billing_address"; "zip_code"])
    ∧ (String.length (Str.join "__" ["billing_address"; "zip_code"]) < 63 →
       name = Str.join "__" ["billing_address"; "zip_code"]).
Proof.
  apply (flatten_key_never_longer "zipCode" ["billingAddress"] "__"). reflexivity.
Defined.

(** X5.  [flatten_key] raises [IndexError] when a segment of the path is
    the empty string, returns for every other path, and raises nothing
    else. *)
Theorem flatten_key_empty_segment (k : string) (parent_key : list string)
    (sep : string) :
  (EmptyString ∈ parent_key ++ [k] →
   flatten_key k parent_key sep = Raise IndexError)
  ∧ (EmptyString ∉ parent_key ++ [k] →
     ∃ name, flatten_key k parent_key sep = Ret name)
  ∧ ∀ e, flatten_key k parent_key sep = Raise e → e = IndexError.
Proof.
  split; [apply flatten_key_raises|]. split; [apply flatten_key_returns|].
  intros e He. destruct (decide (EmptyString ∈ parent_key ++ [k])) as [Hin|Hnot].
  - rewrite (flatten_key_raises _ _ sep Hin) in He. by injection He.
  - destruct (flatten_key_returns _ _ sep Hnot) as [name Hname]. congruence.
Qed.

Lemma flatten_key_empty_segment_witness :
  flatten_key "" ["billingAddress"] "__" = Raise IndexError
  ∧ ∃ name, flatten_key "zipCode" ["billingAddress"] "__" = Ret name.
Proof.
  split.
  - apply (proj1 (flatten_key_empty_segment "" ["billingAddress"] "__")).
    apply (bool_decide_unpack _). by vm_compute.
  - apply (proj1 (proj2 (flatten_key_empty_segment "zipCode" ["billingAddress"] "__"))).
    apply (bool_decide_unpack _). by vm_compute.
Defined.

(** ** The order of casts *)

Section Cast_facts.

Lemma filter_sublists {A} (P : A → Prop) `{!∀ x, Decision (P x)} (l : list A) :
  filter P l ∈ sublists l.
Proof.
  induction l as [|x l IH]; simpl; [by left|].
  rewrite filter_cons. apply elem_of_app. destruct (decide (P x)).
  - left. by apply list_elem_of_fmap_2.
  - by right.
Qed.

Lemma usable_kinds types t : t ∈ get_usable_types types → t ∈ kinds.
Proof. unfold get_usable_types, JSONSCHEMA_TYPES, kinds. set_solver. Qed.

Lemma castable_usable u : get_usable_types (get_castable_types u) = get_castable_types u.
Proof. unfold get_castable_types, get_usable_types. set_solver. Qed.

Lemma usable_cases (P : gset string → Prop) :
  Forall (λ l, P (list_to_set l)) (sublists kinds) →
  ∀ types, P (get_usable_types types).
Proof.
  intros Hall types.
  set (observed := get_usable_types types).
  assert (observed = list_to_set (filter (λ k, k ∈ observed) kinds)) as ->.
  { apply set_eq. intros x. rewrite elem_of_list_to_set, list_elem_of_filter.
    split; [|by intros [? _]]. intros Hx. split; [done|].
    by apply (usable_kinds types). }
  rewrite Forall_forall in Hall. apply Hall, filter_sublists.
Qed.

Lemma castable_known t u : t ∈ get_castable_types u → t ∈ kinds ∧ u ∈ kinds.
Proof.
  intros Ht. split.
  { rewrite <- castable_usable in Ht. by apply usable_kinds in Ht. }
  revert Ht. unfold get_castable_types. cbn [Py.lookup _JSONSCHEMA_TYPE_CAN_CAST_TO].
  repeat match goal with
  | |- context [String.eqb u ?k] =>
      destruct (String.eqb_spec u k) as [->|?];
      [first [ by intros _; apply (bool_decide_unpack _)
             | cbn [default]; unfold get_usable_types; set_solver ]|]
  end.
  cbn [default]. unfold get_usable_types, JSONSCHEMA_TYPES. set_solver.
Qed.

End Cast_facts.

Section Lattice_order_facts.

Lemma most_general_type_of_observed types :
  most_general_type types
  = most_general_type (elements (get_usable_types (list_to_set types))).
Proof.
  set (observed := get_usable_types (list_to_set types)).
  assert (get_usable_types (list_to_set (elements observed)) = observed) as Hobs.
  { rewrite list_to_set_elements_L. unfold observed, get_usable_types. set_solver. }
  destruct (decide (observed = ∅)) as [Hempty|Hne].
  - rewrite Hempty, elements_empty. cbn [most_general_type].
    destruct types as [|t types]; [done|].
    rewrite most_general_type_unfold by done. cbv zeta.
    fold observed. rewrite Hempty. by vm_compute.
  - assert (elements observed ≠ []) as Hel.
    { intros Hnil. apply Hne. by apply elements_empty_inv, leibniz_equiv in Hnil. }
    assert (types ≠ []) as Htypes.
    { intros ->. apply Hne. apply usable_of_nil. }
    rewrite (most_general_type_unfold types Htypes).
    rewrite (most_general_type_unfold _ Hel). cbv zeta. by rewrite Hobs.
Qed.

End Lattice_order_facts.

(** X6.  The casts [get_castable_types] tabulates order the six kinds:
    every kind casts to itself, casts compose, two distinct kinds never
    cast to each other, every kind casts to ["string"], and a cast relates
    kinds only (["null"] and unknown names are outside it). *)
Theorem cast_partial_order :
  (∀ t, t ∈ kinds → casts_to t t)
  ∧ (∀ t u v, casts_to t u → casts_to u v → casts_to t v)
  ∧ (∀ t u, casts_to t u → casts_to u t → t = u)
  ∧ (∀ t, t ∈ kinds → casts_to t "string")
  ∧ (∀ t u, casts_to t u → t ∈ kinds ∧ u ∈ kinds).
Proof.
  assert (Forall (λ t, casts_to t t ∧ casts_to t "string"
            ∧ Forall (λ u, (casts_to t u → casts_to u t → t = u)
                ∧ Forall (λ v, casts_to t u → casts_to u v → casts_to t v) kinds)
                kinds) kinds) as Hall.
  { unfold casts_to. apply (bool_decide_unpack _). by vm_compute. }
  rewrite Forall_forall in Hall.
  split; [|split; [|split; [|split]]].
  - intros t Ht. by apply Hall.
  - intros t u v Htu Huv.
    destruct (castable_known _ _ Htu) as [Ht Hu].
    destruct (castable_known _ _ Huv) as [_ Hv].
    destruct (Hall t Ht) as (_ & _ & Hu').
    rewrite Forall_forall in Hu'. destruct (Hu' u Hu) as [_ Hv'].
    rewrite Forall_forall in Hv'. by apply Hv'.
  - intros t u Htu Hut.
    destruct (castable_known _ _ Htu) as [Ht Hu].
    destruct (Hall t Ht) as (_ & _ & Hu').
    rewrite Forall_forall in Hu'. destruct (Hu' u Hu) as [Hanti _]. by apply Hanti.
  - intros t Ht. by apply Hall.
  - intros t u. apply castable_known.
Qed.

Lemma cast_partial_order_witness : casts_to "boolean" "number".
Proof.
  apply (proj1 (proj2 cast_partial_order) "boolean" "integer" "number");
    unfold casts_to; apply (bool_decide_unpack _); by vm_compute.
Defined.

(** X7.  [most_general_type] returns the least upper bound of the observed
    kinds in the order of casts: every observed kind casts to the result,
    and the result casts to every kind that all observed kinds cast to.
    When no usable kind is observed the result is ["string"]. *)
Theorem most_general_type_least_upper_bound (types : list string) :
  let observed := get_usable_types (list_to_set types) in
  (∀ t, t ∈ observed → casts_to t (most_general_type types))
  ∧ (observed ≠ ∅ →
     ∀ u, (∀ t, t ∈ observed → casts_to t u) →
          casts_to (most_general_type types) u)
  ∧ (observed = ∅ → most_general_type types = "string").
Proof.
  cbv zeta. rewrite most_general_type_of_observed. unfold casts_to.
  set (P := λ X : gset string,
         X ⊆ get_castable_types (most_general_type (elements X))
         ∧ (X ≠ ∅ →
            Forall (λ u, X ⊆ get_castable_types u →
                         most_general_type (elements X) ∈ get_castable_types u)
                   kinds)
         ∧ (X = ∅ → most_general_type (elements X) = "string")).
  assert (Forall (λ l, P (list_to_set l)) (sublists kinds)) as Hall.
  { unfold P. apply (bool_decide_unpack _). by vm_compute. }
  destruct (usable_cases P Hall (list_to_set types)) as (Hupper & Hleast & Hempty).
  split; [done|]. split; [|done].
  intros Hne u Hu. specialize (Hleast Hne). rewrite Forall_forall in Hleast.
  apply Hleast; [|done].
  apply set_choose_L in Hne as [t Ht].
  by destruct (castable_known t u (Hu t Ht)).
Qed.

Lemma most_general_type_least_upper_bound_witness :
  casts_to (most_general_type ["null"; "boolean"; "integer"]) "number".
Proof.
  apply (proj1 (proj2 (most_general_type_least_upper_bound
                         ["null"; "boolean"; "integer"]))).
  - apply (bool_decide_unpack _). by vm_compute.
  - intros t Ht. unfold casts_to.
    assert (t = "boolean" ∨ t = "integer") as [-> | ->].
    { revert Ht. unfold get_usable_types, JSONSCHEMA_TYPES. set_solver. }
    all: apply (bool_decide_unpack _); by vm_compute.
Defined.

Section Table_facts.

Lemma most_general_type_cases (types : list string) :
  let X := get_usable_types (list_to_set types) in
  Forall (λ t, X = {[t]} → most_general_type types = t) kinds
  ∧ ("string" ∈ X → most_general_type types = "string")
  ∧ ("number" ∈ X → X ⊆ list_to_set ["number"; "integer"; "boolean"] →
     most_general_type types = "number")
  ∧ (X = list_to_set ["integer"; "boolean"] →
     most_general_type types = "integer")
  ∧ (X = list_to_set ["object"; "array"] →
     most_general_type types = "object")
  ∧ Forall (λ t, Forall (λ u, t ∈ X → u ∈ X →
                     most_general_type types = "string")
                   ["object"; "array"])
           ["number"; "integer"; "boolean"].
Proof.
  cbv zeta. rewrite most_general_type_of_observed.
  set (P := λ X : gset string,
         Forall (λ t, X = {[t]} → most_general_type (elements X) = t) kinds
         ∧ ("string" ∈ X → most_general_type (elements X) = "string")
         ∧ ("number" ∈ X → X ⊆ list_to_set ["number"; "integer"; "boolean"] →
            most_general_type (elements X) = "number")
         ∧ (X = list_to_set ["integer"; "boolean"] →
            most_general_type (elements X) = "integer")
         ∧ (X = list_to_set ["object"; "array"] →
            most_general_type (elements X) = "object")
         ∧ Forall (λ t, Forall (λ u, t ∈ X → u ∈ X →
                            most_general_type (elements X) = "string")
                          ["object"; "array"])
                  ["number"; "integer"; "boolean"]).
  assert (Forall (λ l, P (list_to_set l)) (sublists kinds)) as Hall.
  { unfold P. apply (bool_decide_unpack _). by vm_compute. }
  apply (usable_cases P Hall (list_to_set types)).
Qed.

Lemma most_general_type_single (types : list string) (t : string) :
  get_usable_types (list_to_set types) = {[t]} → most_general_type types = t.
Proof.
  intros Ht. destruct (most_general_type_cases types) as [Hone _].
  rewrite Forall_forall in Hone. apply Hone; [|done].
  apply (usable_kinds (list_to_set types)). rewrite Ht. set_solver.
Qed.

End Table_facts.

(** X8.  The outcome of [most_general_type] by the set of observed kinds:
    a single kind is returned as it is; ["string"] wins whenever it is
    observed; ["number"] covers ["integer"] and ["boolean"]; ["integer"]
    covers ["boolean"]; ["object"] covers ["array"]; a numeric kind
    together with a structured kind gives ["string"]. *)
Theorem most_general_type_table (types : list string) :
  let observed := get_usable_types (list_to_set types) in
  (∀ t, observed = {[t]} → most_general_type types = t)
  ∧ ("string" ∈ observed → most_general_type types = "string")
  ∧ ("number" ∈ observed →
     observed ⊆ list_to_set ["number"; "integer"; "boolean"] →
     most_general_type types = "number")
  ∧ (observed = list_to_set ["integer"; "boolean"] →
     most_general_type types = "integer")
  ∧ (observed = list_to_set ["object"; "array"] →
     most_general_type types = "object")
  ∧ (∀ t u, t ∈ observed → u ∈ observed →
            t ∈ ["number"; "integer"; "boolean"] → u ∈ ["object"; "array"] →
            most_general_type types = "string").
Proof.
  cbv zeta.
  destruct (most_general_type_cases types)
    as (Hone & Hstring & Hnumber & Hinteger & Hobject & Hmixed).
  repeat split; try done.
  - apply most_general_type_single.
  - intros t u Ht Hu Hnum Hobj. rewrite Forall_forall in Hmixed.
    specialize (Hmixed t Hnum). rewrite Forall_forall in Hmixed.
    by apply (Hmixed u Hobj).
Qed.

Lemma most_general_type_table_witness :
  most_general_type ["null"; "integer"; "number"] = "number".
Proof.
  apply (proj1 (proj2 (proj2 (most_general_type_table
                                ["null"; "integer"; "number"])))).
  - apply (bool_decide_unpack _). by vm_compute.
  - apply (bool_decide_unpack _). by vm_compute.
Defined.

Section Column_type_facts.

Lemma postgres_type_of_kind (k pg : string) :
  Py.lookup k JSONSCHEMA_TYPE_TO_POSTGRES_TYPE = Some pg →
  pg ∈ postgres_types ∧ Str.lower pg = pg.
Proof.
  cbn [Py.lookup JSONSCHEMA_TYPE_TO_POSTGRES_TYPE].
  repeat case_match; intros; simplify_eq;
    (split; [apply (bool_decide_unpack _)|]; by vm_compute).
Qed.

Lemma existsb_is_str (x : string) (listed : list string) :
  existsb (Py.is_str x) (VStr <$> listed) = bool_decide (x ∈ listed).
Proof.
  induction listed as [|y listed IH]; [done|].
  cbn [fmap list_fmap existsb Py.is_str]. rewrite IH.
  destruct (String.eqb_spec y x) as [->|Hne].
  - simpl. symmetry. apply bool_decide_eq_true. left.
  - simpl. apply bool_decide_ext. rewrite elem_of_cons. naive_solver.
Qed.

Lemma hashable_names_strings (listed : list string) :
  hashable_names (VStr <$> listed) = Ret listed.
Proof.
  induction listed as [|y listed IH]; [done|].
  cbn [fmap list_fmap hashable_names]. cbn [fmap list_fmap] in IH.
  by rewrite IH.
Qed.

End Column_type_facts.

Section Column_type_range_facts.

Lemma column_type_known (schema_property : value) (use_simple : bool)
    (type : string) :
  column_type schema_property use_simple = Ret type →
  type ∈ postgres_types ∧ Str.lower type = type.
Proof.
  destruct use_simple; cbn [column_type].
  - unfold _column_type_simple, bind.
    repeat case_match; intros; simplify_eq;
      (split; [apply (bool_decide_unpack _)|]; by vm_compute).
  - unfold _column_type_generic, bind.
    repeat case_match; intros; simplify_eq;
      try (split; [apply (bool_decide_unpack _)|]; by vm_compute);
      by eapply postgres_type_of_kind.
Qed.

End Column_type_range_facts.

(** X9.  Whatever the schema and the mode, a type [column_type] returns is
    one of the seven PostgreSQL types of the program, and it is in lower
    case already. *)
Theorem column_type_range (schema_property : value) (use_simple : bool)
    (type : string) :
  column_type schema_property use_simple = Ret type →
  type ∈ postgres_types ∧ Str.lower type = type.
Proof. apply column_type_known. Qed.

Lemma column_type_range_witness :
  "timestamp with time zone" ∈ postgres_types
  ∧ Str.lower "timestamp with time zone" = "timestamp with time zone".
Proof.
  apply (column_type_range
           (VDict [("type", VList [VStr "null"; VStr "string"]);
                   ("format", VStr "date-time")]) false).
  reflexivity.
Defined.

(** X10.  On a property that lists one usable kind (next to ["null"] or
    names that are no kinds) and has no format, the simple and the generic
    mode return the same type: the one of the table
    [JSONSCHEMA_TYPE_TO_POSTGRES_TYPE]. *)
Theorem column_type_single_kind (entries : list (string * value))
    (listed : list string) (k : string) :
  Py.lookup "type" entries = Some (VList (VStr <$> listed)) →
  Py.has_key "format" entries = false →
  get_usable_types (list_to_set listed) = {[k]} →
  ∃ pg, Py.lookup k JSONSCHEMA_TYPE_TO_POSTGRES_TYPE = Some pg
        ∧ column_type (VDict entries) true = Ret pg
        ∧ column_type (VDict entries) false = Ret pg.
Proof.
  intros Htype Hformat Hk.
  assert (∀ x, x ∈ kinds → bool_decide (x ∈ listed) = bool_decide (x = k)) as Hin.
  { intros x Hx. apply bool_decide_ext.
    assert (x ∈ get_usable_types (list_to_set listed) ↔ x ∈ listed) as <-.
    { unfold get_usable_types, JSONSCHEMA_TYPES.
      revert Hx. unfold kinds. set_solver. }
    rewrite Hk. set_solver. }
  assert (k ∈ kinds) as Hkind.
  { apply (usable_kinds (list_to_set listed)). rewrite Hk. set_solver. }
  cbn [column_type]. unfold _column_type_simple, _column_type_generic,
    property_format_of.
  cbn [Py.getitem Py.contains]. rewrite Htype, Hformat.
  cbn [bind Py.contains type_names Py.is_str].
  rewrite hashable_names_strings. cbn [bind].
  rewrite (most_general_type_single listed k Hk).
  rewrite !existsb_is_str.
  rewrite !Hin by (apply (bool_decide_unpack _); by vm_compute).
  unfold kinds in Hkind.
  repeat (apply elem_of_cons in Hkind as [->|Hkind]; [by eexists|]).
  by apply elem_of_nil in Hkind.
Qed.

Lemma column_type_single_kind_witness :
  ∃ pg, Py.lookup "integer" JSONSCHEMA_TYPE_TO_POSTGRES_TYPE = Some pg
        ∧ column_type (kind "integer") true = Ret pg
        ∧ column_type (kind "integer") false = Ret pg.
Proof.
  apply (column_type_single_kind _ ["null"; "integer"]).
  - reflexivity.
  - reflexivity.
  - apply (bool_decide_unpack _). by vm_compute.
Defined.

(** ** Flattened schemas and records *)

Section Schema_name_facts.

Variable P : string → Prop.

Lemma flatten_schema_entry_names rec k v parent_key sep added :
  (∀ name, flatten_key k parent_key sep = Ret name → P name) →
  (∀ v' cols, rec v' (parent_key ++ [k]) sep = Ret cols →
              Forall (λ kv : string * value, P (fst kv)) cols) →
  flatten_schema_entry rec k v parent_key sep = Ret added →
  Forall (λ kv, P (fst kv)) added.
Proof.
  intros Hkey Hrec. unfold flatten_schema_entry, bind.
  repeat case_match; intros; simplify_eq; eauto.
Qed.

Lemma flatten_schema_loop_names rec entries parent_key sep items cols :
  (∀ k name, flatten_key k parent_key sep = Ret name → P name) →
  (∀ k v' cols, rec v' (parent_key ++ [k]) sep = Ret cols →
                Forall (λ kv : string * value, P (fst kv)) cols) →
  Forall (λ kv, P (fst kv)) items →
  flatten_schema_loop rec entries parent_key sep items = Ret cols →
  Forall (λ kv, P (fst kv)) cols.
Proof.
  intros Hkey Hrec. revert items.
  induction entries as [|[k v] entries IH]; intros items Hitems; simpl.
  - by intros [= <-].
  - destruct (flatten_schema_entry rec k v parent_key sep) as [added| |] eqn:Hadd;
      simpl; [|done..].
    apply IH. apply Forall_app. split; [done|].
    eapply flatten_schema_entry_names; [apply Hkey|apply Hrec|done].
Qed.

End Schema_name_facts.

Section Schema_order_facts.

Lemma flatten_schema_aux_inv fuel d parent_key sep flat :
  flatten_schema_aux (S fuel) d parent_key sep = Ret flat →
  ∃ properties entries items,
    Py.getitem "properties" d = Ret properties
    ∧ Py.items properties = Ret entries
    ∧ flatten_schema_loop (flatten_schema_aux fuel) entries parent_key sep []
      = Ret items
    ∧ NoDup (items.*1)
    ∧ flat = sorted_by_key items.
Proof.
  cbn [flatten_schema_aux].
  destruct (Py.getitem "properties" d) as [properties| |] eqn:Hprops;
    simpl; [|done..].
  destruct (Py.items properties) as [entries| |] eqn:Hentries; simpl; [|done..].
  destruct (flatten_schema_loop _ _ _ _ _) as [items| |] eqn:Hloop;
    simpl; [|done..].
  destruct (collision_check items) as [Hunique Hclash].
  destruct (decide (NoDup (items.*1))) as [Hnodup|Hdup].
  - destruct (Hunique Hnodup) as [-> ->]. simpl. intros [= <-].
    by exists properties, entries, items.
  - by destruct (Hclash Hdup) as [name ->].
Qed.

Lemma flatten_schema_aux_names (P : string → Prop) fuel d parent_key sep flat :
  (∀ k parent_key name, flatten_key k parent_key sep = Ret name → P name) →
  flatten_schema_aux fuel d parent_key sep = Ret flat →
  Forall (λ kv, P (fst kv)) flat.
Proof.
  intros Hkey. revert d parent_key flat.
  induction fuel as [|fuel IH]; intros d parent_key flat Hflat; [done|].
  apply flatten_schema_aux_inv in Hflat
    as (properties & entries & items & _ & _ & Hloop & _ & ->).
  destruct (sorted_by_key_keys items) as [_ Hperm]. rewrite Hperm.
  eapply (flatten_schema_loop_names P); [| |constructor|exact Hloop].
  - intros k name. apply Hkey.
  - intros k v' cols. apply IH.
Qed.

Lemma flatten_schema_ordered d parent_key sep flat :
  flatten_schema d parent_key sep = Ret flat →
  StronglySorted String.le (flat.*1) ∧ NoDup (flat.*1).
Proof.
  unfold flatten_schema. intros Hflat.
  apply flatten_schema_aux_inv in Hflat
    as (properties & entries & items & _ & _ & _ & Hnodup & ->).
  destruct (sorted_by_key_keys items) as [Hsorted Hperm].
  split; [done|]. by rewrite Hperm.
Qed.

Lemma flatten_schema_ident d parent_key sep flat :
  Str.all is_ident sep →
  flatten_schema d parent_key sep = Ret flat →
  Forall (λ kv, Str.all is_ident (fst kv)) flat.
Proof.
  intros Hsep. apply (flatten_schema_aux_names (λ name, Str.all is_ident name)).
  intros k parent_key' name. by apply flatten_key_ident.
Qed.

End Schema_order_facts.

(** X11.  A flattened schema lists its columns in ascending order of
    their names, every name once, whatever the order of the properties in
    the schema. *)
Theorem flatten_schema_sorted_unique (d : value) (parent_key : list string)
    (sep : string) (flat : list (string * value)) :
  flatten_schema d parent_key sep = Ret flat →
  StronglySorted String.le (flat.*1) ∧ NoDup (flat.*1).
Proof. apply flatten_schema_ordered. Qed.

Lemma flatten_schema_sorted_unique_witness :
  StronglySorted String.le
    ([("customer__name", kind "string"); ("order_id", kind "integer");
      ("placed_at", VDict [("type", VList [VStr "null"; VStr "string"]);
                           ("format", VStr "date-time")]);
      ("tags", kind "array")].*1)
  ∧ NoDup ([("customer__name", kind "string"); ("order_id", kind "integer");
            ("placed_at", VDict [("type", VList [VStr "null"; VStr "string"]);
                                 ("format", VStr "date-time")]);
            ("tags", kind "array")].*1).
Proof.
  apply (flatten_schema_sorted_unique (schema orders_message) [] "__").
  reflexivity.
Defined.

(** X12.  Every column name a [DbSync] object quotes is a name over
    [[a-z0-9_]] between two double quotes: [safe_column_name] escapes
    nothing, and nothing in a name needs escaping. *)
Theorem column_names_are_quoted_identifiers (target_config : TargetConfig)
    (stream_schema_message : StreamSchemaMessage) (self : DbSync.t)
    (quoted : string) :
  DbSync.__init__ target_config stream_schema_message = Ret self →
  quoted ∈ DbSync.column_names self →
  ∃ name, quoted = safe_column_name name ∧ Str.all is_ident name.
Proof.
  intros Hinit Hquoted. apply init_fields in Hinit as (_ & _ & Hflat).
  apply flatten_schema_ident in Hflat; [|done].
  unfold DbSync.column_names in Hquoted.
  apply list_elem_of_In, in_map_iff in Hquoted as ([name props] & <- & Hin).
  exists name. split; [done|]. rewrite Forall_forall in Hflat.
  by apply (Hflat (name, props)), list_elem_of_In.
Qed.

Lemma column_names_are_quoted_identifiers_witness :
  ∃ name, safe_column_name "customer__name" = safe_column_name name
          ∧ Str.all is_ident name.
Proof.
  assert (∃ self, DbSync.__init__ users_config orders_message = Ret self
                  ∧ safe_column_name "customer__name" ∈ DbSync.column_names self)
    as (self & Hinit & Hin).
  { eexists. split; [reflexivity|]. apply (bool_decide_unpack _). by vm_compute. }
  apply (column_names_are_quoted_identifiers users_config orders_message self
           _ Hinit Hin).
Defined.

Section Dict_facts.

Context {A : Type}.

Lemma lookup_dict_set k k' (x : A) d :
  Py.lookup k (Py.dict_set k' x d)
  = if String.eqb k k' then Some x else Py.lookup k d.
Proof.
  induction d as [|[k0 x0] d IH]; simpl.
  - done.
  - destruct (String.eqb_spec k' k0) as [->|Hne]; simpl.
    + by destruct (String.eqb_spec k k0).
    + destruct (String.eqb_spec k k0) as [->|Hne'].
      * by destruct (String.eqb_spec k0 k').
      * done.
Qed.

Lemma elem_of_dict_set (kv : string * A) k x d :
  kv ∈ Py.dict_set k x d → kv = (k, x) ∨ kv ∈ d.
Proof.
  induction d as [|[k0 x0] d IH]; simpl.
  - intros ?%list_elem_of_singleton. by left.
  - destruct (String.eqb k k0).
    + intros [->|Hin]%elem_of_cons; [by left|]. right. by right.
    + intros [->|Hin]%elem_of_cons; [right; left|].
      destruct (IH Hin) as [?|?]; [by left|]. right. by right.
Qed.

Lemma dict_set_keys k (x : A) d k' :
  k' ∈ (Py.dict_set k x d).*1 ↔ k' = k ∨ k' ∈ d.*1.
Proof.
  induction d as [|[k0 x0] d IH]; simpl.
  - rewrite list_elem_of_singleton. set_solver.
  - destruct (String.eqb_spec k k0) as [->|Hne]; simpl.
    + rewrite !elem_of_cons. naive_solver.
    + rewrite !elem_of_cons, IH. naive_solver.
Qed.

Lemma dict_set_NoDup k (x : A) d : NoDup (d.*1) → NoDup ((Py.dict_set k x d).*1).
Proof.
  induction d as [|[k0 x0] d IH]; simpl.
  - intros _. apply NoDup_singleton.
  - intros [Hk0 Hd]%NoDup_cons.
    destruct (String.eqb_spec k k0) as [->|Hne]; simpl.
    + by apply NoDup_cons.
    + apply NoDup_cons. split; [|by apply IH].
      rewrite dict_set_keys. naive_solver.
Qed.

Lemma dict_lookup_app k (l1 l2 : list (string * A)) :
  Py.lookup k (l1 ++ l2)
  = match Py.lookup k l1 with Some x => Some x | None => Py.lookup k l2 end.
Proof.
  induction l1 as [|[k0 x0] l1 IH]; simpl; [done|].
  by destruct (String.eqb k k0).
Qed.

Lemma fold_dict_set (l : list (string * A)) d :
  let flat := fold_left (λ d kv, Py.dict_set (fst kv) (snd kv) d) l d in
  (NoDup (d.*1) → NoDup (flat.*1))
  ∧ (∀ k, Py.lookup k flat
          = match Py.lookup k (rev l) with
            | Some x => Some x
            | None => Py.lookup k d
            end)
  ∧ (∀ kv, kv ∈ flat → kv ∈ d ∨ kv ∈ l).
Proof.
  revert d. induction l as [|[k0 x0] l IH]; intros d; simpl.
  - split; [done|]. split; [done|]. by left.
  - destruct (IH (Py.dict_set k0 x0 d)) as (Hnodup & Hlookup & Helem).
    split; [|split].
    + intros Hd. by apply Hnodup, dict_set_NoDup.
    + intros k. rewrite Hlookup, dict_lookup_app, lookup_dict_set. simpl.
      destruct (Py.lookup k (rev l)); [done|]. by destruct (String.eqb k k0).
    + intros kv Hkv. destruct (Helem kv Hkv) as [Hd|Hl]; [|right; by right].
      apply elem_of_dict_set in Hd as [->|Hd]; [right; left|by left].
Qed.

(** [dict(items)] has every key once, under each key the last value
    listed for it, and no pair that is not listed. *)
Lemma dict_of_items_spec (l : list (string * A)) :
  NoDup ((Py.dict_of_items l).*1)
  ∧ (∀ k, Py.lookup k (Py.dict_of_items l) = Py.lookup k (rev l))
  ∧ (∀ kv, kv ∈ Py.dict_of_items l → kv ∈ l).
Proof.
  destruct (fold_dict_set l []) as (Hnodup & Hlookup & Helem).
  split; [apply Hnodup; constructor|]. split.
  - intros k. unfold Py.dict_of_items. rewrite Hlookup.
    by destruct (Py.lookup k (rev l)).
  - intros kv Hkv. destruct (Helem kv Hkv) as [Hnil|?]; [|done].
    by apply elem_of_nil in Hnil.
Qed.

End Dict_facts.

Section Record_shape_facts.

Variable json_dumps : value → string.

Lemma flatten_record_not_dict d parent_key sep :
  Py.is_dict d = false → flatten_record json_dumps d parent_key sep = Ret [].
Proof.
  intros Hd. unfold flatten_record. rewrite flatten_record_aux_unfold.
  by rewrite Hd, orb_true_r.
Qed.

Lemma flatten_record_chunks entries parent_key sep flat :
  flatten_record json_dumps (VDict entries) parent_key sep = Ret flat →
  ∃ chunks,
    Forall2 (contributes json_dumps parent_key sep) entries chunks
    ∧ flat = Py.dict_of_items (concat chunks).
Proof.
  unfold flatten_record. rewrite flatten_record_aux_unfold.
  destruct entries as [|entry entries].
  { intros [= <-]. exists []. split; [constructor|done]. }
  change (negb (Py.truthy (VDict (entry :: entries))) ||
          negb (Py.is_dict (VDict (entry :: entries)))) with false.
  change (Py.depth (VDict (entry :: entries))) with
    (S (list_max (List.map (λ kv, Py.depth (snd kv)) (entry :: entries)))).
  cbn [Py.items bind].
  destruct (flatten_record_loop _ _ _ _ _ _) as [items| |] eqn:Hloop; [|done..].
  intros [= <-].
  apply flatten_record_loop_chunks in Hloop as (chunks & Hall & ->).
  - by exists chunks.
  - intros k v Hin. apply Nat.lt_succ_r.
    apply (depth_entry (entry :: entries) k v Hin).
Qed.

Lemma flatten_record_scalar n d parent_key sep flat :
  Py.depth d ≤ n →
  flatten_record json_dumps d parent_key sep = Ret flat →
  Forall (λ kv, is_scalar (snd kv)) flat.
Proof.
  revert d parent_key flat.
  induction n as [|n IH]; intros d parent_key flat Hn Hflat.
  - destruct d as [| | | | |elems|entries]; try (simpl in Hn; lia);
      rewrite flatten_record_not_dict in Hflat by done; by injection Hflat as <-.
  - destruct d as [| | | | | |entries];
      try (rewrite flatten_record_not_dict in Hflat by done;
           by injection Hflat as <-).
    apply flatten_record_chunks in Hflat as (chunks & Hall & ->).
    assert (Forall (λ kv, is_scalar (snd kv)) (concat chunks)) as Hchunks.
    { apply Forall_concat.
      assert (∀ k v, (k, v) ∈ entries → Py.depth v ≤ n) as Hdepth.
      { intros k v Hin. pose proof (depth_entry entries k v Hin). lia. }
      clear Hn. induction Hall as [|[k v] chunk entries chunks Hone _ IHall];
        constructor.
      - destruct Hone as (new_key & _ & Hchunk). cbn [snd fst] in Hchunk.
        destruct v; try (subst chunk; by repeat constructor).
        destruct Hchunk as (children & Hsub & ->).
        apply Forall_app. split; [|by repeat constructor].
        apply (IH _ _ _ (Hdepth k _ ltac:(left)) Hsub).
      - apply IHall. intros k' v' Hin. apply (Hdepth k'). by right. }
    apply Forall_forall. intros kv Hkv.
    destruct (dict_of_items_spec (concat chunks)) as (_ & _ & Helem).
    rewrite Forall_forall in Hchunks. by apply Hchunks, Helem.
Qed.

End Record_shape_facts.

(** X13.  Every value of a flattened record is a scalar: lists and
    nested mappings are replaced by their serialized text. *)
Theorem flatten_record_values_are_scalars (json_dumps : value → string)
    (d : value) (parent_key : list string) (sep : string)
    (flat : list (string * value)) :
  flatten_record json_dumps d parent_key sep = Ret flat →
  Forall (λ kv, is_scalar (snd kv)) flat.
Proof. by apply (flatten_record_scalar json_dumps (Py.depth d)). Qed.

Lemma flatten_record_values_are_scalars_witness :
  Forall (λ kv, is_scalar (snd kv))
    [("id", VInt 1); ("answers__q1", VStr "x"); ("answers", VStr "{}");
     ("tags", VStr "{}")].
Proof.
  apply (flatten_record_values_are_scalars (λ _, "{}")
           (VDict [("id", VInt 1); ("answers", VDict [("q1", VStr "x")]);
                   ("tags", VList [])]) [] "__").
  reflexivity.
Defined.

(** X14.  A flattened record has every key once.  [flatten_record] has
    no collision check: when two paths flatten to the same name, the value
    registered last is the one kept. *)
Theorem flatten_record_last_wins (json_dumps : value → string)
    (entries : list (string * value)) (parent_key : list string) (sep : string)
    (flat : list (string * value)) :
  flatten_record json_dumps (VDict entries) parent_key sep = Ret flat →
  ∃ chunks,
    Forall2 (contributes json_dumps parent_key sep) entries chunks
    ∧ NoDup (flat.*1)
    ∧ ∀ name, Py.lookup name flat = Py.lookup name (rev (concat chunks)).
Proof.
  intros Hflat.
  apply flatten_record_chunks in Hflat as (chunks & Hall & ->).
  exists chunks. split; [done|].
  destruct (dict_of_items_spec (concat chunks)) as (Hnodup & Hlookup & _).
  by split.
Qed.

Lemma flatten_record_last_wins_witness :
  ∃ chunks,
    Forall2 (contributes (λ _, "{}") [] "__")
      [("a", VDict [("b", VInt 1)]); ("a__b", VInt 2)] chunks
    ∧ NoDup ([("a__b", VInt 2); ("a", VStr "{}")].*1)
    ∧ ∀ name, Py.lookup name [("a__b", VInt 2); ("a", VStr "{}")]
              = Py.lookup name (rev (concat chunks)).
Proof.
  apply (flatten_record_last_wins (λ _, "{}")
           [("a", VDict [("b", VInt 1)]); ("a__b", VInt 2)] [] "__").
  reflexivity.
Defined.

Section Record_failure_facts.

Variable json_dumps : value → string.

Lemma flatten_record_loop_answers rec entries parent_key sep items :
  EmptyString ∉ parent_key →
  (∀ k v, (k, v) ∈ entries → k ≠ EmptyString →
          answers v (rec v (parent_key ++ [k]) sep)) →
  answers (VDict entries)
    (flatten_record_loop json_dumps rec entries parent_key sep items).
Proof.
  intros Hparent. revert items.
  induction entries as [|[k v] entries IH]; intros items Hrec.
  - by eexists.
  - unfold answers. cbn [well_keyed forallb fst snd flatten_record_loop].
    destruct (String.eqb_spec k EmptyString) as [->|Hk]; cbn [negb andb].
    + rewrite flatten_key_raises; [done|]. apply elem_of_app. right. left.
    + destruct (flatten_key_returns k parent_key sep) as [new_key ->].
      { intros [?|?%list_elem_of_singleton]%elem_of_app; done. }
      cbn [bind].
      assert (∀ items',
        answers (VDict entries)
          (flatten_record_loop json_dumps rec entries parent_key sep items'))
        as Hrest.
      { intros items'. apply IH. intros k' v' Hin. apply Hrec. by right. }
      unfold answers in Hrest. cbn [well_keyed] in Hrest.
      destruct v as [| | | | | |sub]; cbn [Py.is_dict Py.is_list bind well_keyed andb];
        try apply Hrest.
      specialize (Hrec k (VDict sub) ltac:(left) Hk). unfold answers in Hrec.
      cbn [well_keyed] in Hrec.
      destruct (forallb _ sub).
      * destruct Hrec as [children ->]. cbn [bind andb]. apply Hrest.
      * by rewrite Hrec.
Qed.

Lemma flatten_record_answers n d parent_key sep :
  Py.depth d ≤ n → EmptyString ∉ parent_key →
  answers d (flatten_record json_dumps d parent_key sep).
Proof.
  revert d parent_key.
  induction (lt_wf n) as [n _ IH]. intros d parent_key Hn Hparent.
  destruct d as [| | | | | |entries];
    try (unfold answers; rewrite flatten_record_not_dict by done;
         cbn [well_keyed]; by eexists).
  destruct entries as [|entry entries]; [by eexists|].
  unfold flatten_record. rewrite flatten_record_aux_unfold.
  change (negb (Py.truthy (VDict (entry :: entries))) ||
          negb (Py.is_dict (VDict (entry :: entries)))) with false.
  change (Py.depth (VDict (entry :: entries))) with
    (S (list_max (List.map (λ kv, Py.depth (snd kv)) (entry :: entries)))) in *.
  set (m := list_max _) in *. cbn [Py.items bind].
  pose proof (flatten_record_loop_answers (flatten_record_aux json_dumps m)
                (entry :: entries) parent_key sep [] Hparent) as Hloop.
  unfold answers in *.
  assert (∀ k v, (k, v) ∈ entry :: entries → k ≠ EmptyString →
            if well_keyed v
            then ∃ flat, flatten_record_aux json_dumps m v (parent_key ++ [k]) sep
                         = Ret flat
            else flatten_record_aux json_dumps m v (parent_key ++ [k]) sep
                 = Raise IndexError) as Hrec.
  { intros k v Hin Hk.
    pose proof (depth_entry (entry :: entries) k v Hin) as Hlt.
    change (Py.depth (VDict (entry :: entries))) with (S m) in Hlt.
    rewrite flatten_record_aux_fuel by lia.
    apply (IH (Py.depth v)); [lia|done|].
    intros [?|?%list_elem_of_singleton]%elem_of_app; done. }
  specialize (Hloop Hrec).
  destruct (well_keyed (VDict (entry :: entries))).
  - destruct Hloop as [items ->]. by eexists.
  - by rewrite Hloop.
Qed.

End Record_failure_facts.

(** X15.  Called on a path without empty segments, [flatten_record]
    returns when no mapping reachable through mappings has the empty
    string as a key, and raises [IndexError] when one has. *)
Theorem flatten_record_empty_key (json_dumps : value → string) (d : value)
    (parent_key : list string) (sep : string) :
  EmptyString ∉ parent_key →
  (well_keyed d = true →
   ∃ flat, flatten_record json_dumps d parent_key sep = Ret flat)
  ∧ (well_keyed d = false →
     flatten_record json_dumps d parent_key sep = Raise IndexError).
Proof.
  intros Hparent.
  pose proof (flatten_record_answers json_dumps (Py.depth d) d parent_key sep
                (Nat.le_refl _) Hparent) as Hd.
  unfold answers in Hd. by destruct (well_keyed d).
Qed.

Lemma flatten_record_empty_key_witness :
  (∃ flat, flatten_record (λ _, "{}")
             (VDict [("a", VDict [("b", VInt 1)])]) [] "__" = Ret flat)
  ∧ flatten_record (λ _, "{}")
      (VDict [("a", VDict [("", VInt 1)])]) [] "__" = Raise IndexError.
Proof.
  split.
  - apply (proj1 (flatten_record_empty_key (λ _, "{}")
                    (VDict [("a", VDict [("b", VInt 1)])]) [] "__"
                    (not_elem_of_nil _))).
    reflexivity.
  - apply (proj2 (flatten_record_empty_key (λ _, "{}")
                    (VDict [("a", VDict [("", VInt 1)])]) [] "__"
                    (not_elem_of_nil _))).
    reflexivity.
Defined.

(** ** Statements, batches and schema evolution *)

Section Statement_facts.

Lemma column_clauses_quoted flat use_simple clauses :
  mapM (λ item : string * value, column_clause (fst item) (snd item) use_simple)
       flat = Ret clauses →
  clause_name <$> clauses = (λ item, safe_column_name (fst item)) <$> flat
  ∧ Forall (λ c, clause_type c ∈ postgres_types) clauses.
Proof.
  revert clauses. induction flat as [|[name props] flat IH]; intros clauses; simpl.
  - by intros [= <-].
  - unfold column_clause at 1.
    destruct (column_type props use_simple) as [type| |] eqn:Htype;
      cbn [bind]; [|done..].
    destruct (mapM _ flat) as [rest| |]; cbn [bind]; [|done..].
    intros [= <-]. destruct (IH rest eq_refl) as [Hnames Htypes].
    split; [by rewrite fmap_cons, Hnames|].
    constructor; [|done]. by apply column_type_known in Htype as [? _].
Qed.

End Statement_facts.

(** X16.  The statement [create_table_query] builds names the table of
    [table_name], has one column per flattened column with the quoted
    names of [column_names] in the same order and a type of the program,
    and has a primary key exactly when key properties are declared. *)
Theorem create_table_query_columns (self : DbSync.t) (is_temporary : bool)
    (create : statement) :
  DbSync.create_table_query self is_temporary = Ret create →
  ∃ table columns primary_key,
    create = CreateTable is_temporary table columns primary_key
    ∧ DbSync.table_name self (stream (DbSync.self_stream_schema_message self))
        is_temporary = Ret table
    ∧ clause_name <$> columns = DbSync.column_names self
    ∧ Forall (λ c, clause_type c ∈ postgres_types) columns
    ∧ (primary_key = None
       ↔ key_properties (DbSync.self_stream_schema_message self) = []).
Proof.
  unfold DbSync.create_table_query.
  destruct (mapM _ _) as [columns| |] eqn:Hcolumns; cbn [bind]; [|done..].
  apply column_clauses_quoted in Hcolumns as [Hnames Htypes].
  destruct (key_properties (DbSync.self_stream_schema_message self))
    as [|p keys] eqn:Hkeys; cbn [length Nat.eqb bind].
  - destruct (DbSync.table_name _ _ _) as [table| |]; cbn [bind]; [|done..].
    intros [= <-]. by eexists _, _, _.
  - destruct (primary_column_names _) as [key| |]; cbn [bind]; [|done..].
    destruct (DbSync.table_name _ _ _) as [table| |]; cbn [bind]; [|done..].
    intros [= <-]. eexists _, _, _. repeat split; try done.
Qed.

Lemma create_table_query_columns_witness :
  ∃ table columns primary_key,
    CreateTable true "users_temp"
      [Clause (safe_column_name "full_name") "character varying";
       Clause (safe_column_name "id") "bigint"] None
    = CreateTable true table columns primary_key
    ∧ DbSync.table_name users_sync (stream (DbSync.self_stream_schema_message users_sync))
        true = Ret table
    ∧ clause_name <$> columns = DbSync.column_names users_sync
    ∧ Forall (λ c, clause_type c ∈ postgres_types) columns
    ∧ (primary_key = None
       ↔ key_properties (DbSync.self_stream_schema_message users_sync) = []).
Proof. apply (create_table_query_columns users_sync true). reflexivity. Defined.

(** X18.  The staging table and the target table of a stream never have
    the same name, letter case aside: the drop of staging cannot name the
    target. *)
Theorem staging_table_is_not_target (self : DbSync.t) (stream temp table : string) :
  DbSync.table_name self stream true = Ret temp →
  DbSync.table_name self stream false = Ret table →
  Str.lower temp ≠ Str.lower table.
Proof.
  unfold DbSync.table_name.
  destruct (inflect_name stream) as [name| |] eqn:Hname; cbn [bind]; [|done..].
  intros [= <-] [= <-] Heq.
  by apply (staging_is_not_target (DbSync.self_schema_name self) stream name).
Qed.

Lemma staging_table_is_not_target_witness :
  Str.lower "users_temp" ≠ Str.lower "public.users".
Proof.
  apply (staging_table_is_not_target users_sync "Users"); reflexivity.
Defined.

Section Keyed_facts.

Context {D : Type} `{Connection D}.

(** With key properties the batch is the staging create, the copy, the
    update of the rows already in the target, the insert of the others
    and the drop. *)
Lemma keyed_batch (self : DbSync.t) (file : list (list string)) create :
  key_properties (DbSync.self_stream_schema_message self) ≠ [] →
  DbSync.create_table_query self true = Ret create →
  ∃ name clauses key,
    inflect_name (stream (DbSync.self_stream_schema_message self)) = Ret name
    ∧ primary_column_names (DbSync.self_stream_schema_message self) = Ret key
    ∧ create = CreateTable true (name +:+ "_temp") clauses (Some key)
    ∧ ∀ count (s : session D),
        DbSync.load_csv self file count s
        = DbSync.with_connection
            (DbSync.submit_all
               [CreateTable true (name +:+ "_temp") clauses (Some key);
                Copy (name +:+ "_temp") (DbSync.column_names self) file;
                Update (DbSync.self_schema_name self +:+ "." +:+ name)
                  (DbSync.column_names self) (name +:+ "_temp") key;
                InsertNew (DbSync.self_schema_name self +:+ "." +:+ name)
                  (DbSync.column_names self) (name +:+ "_temp") key;
                DropTable (name +:+ "_temp")]) s.
Proof.
  intros Hkeys Hcreate.
  destruct (batch_statements_builds self file create Hcreate)
    as (prior & drop & _ & Hplan & _ & Hload).
  unfold DbSync.batch_statements, DbSync.insert_from_temp_table,
    DbSync.update_from_temp_table, DbSync.drop_temp_table in Hplan.
  rewrite Hcreate in Hplan. cbn [bind] in Hplan.
  unfold DbSync.create_table_query in Hcreate.
  destruct (key_properties (DbSync.self_stream_schema_message self))
    as [|p keys] eqn:Hkey; [done|].
  destruct (mapM _ _) as [clauses| |] eqn:Hclauses;
    cbn [bind length Nat.eqb] in Hcreate; [|done..].
  destruct (primary_column_names _) as [key| |] eqn:Hprimary;
    cbn [bind] in Hcreate, Hplan; [|done..].
  unfold DbSync.table_name in Hcreate, Hplan.
  destruct (inflect_name _) as [name| |] eqn:Hname;
    cbn [bind length Nat.ltb Nat.leb Nat.eqb] in Hcreate, Hplan; [|done..].
  injection Hcreate as <-. injection Hplan as Hplan.
  exists name, clauses, key. split; [done|]. split; [done|]. split; [done|].
  intros count s. by rewrite Hload, <- Hplan.
Qed.

End Keyed_facts.

(** X17.  With key properties declared, a batch that loads submits, in
    this order and in one transaction: the create of the staging table
    with the primary key, the copy, the update of the target from
    staging, the insert of the staged rows whose key is new, and the drop
    of staging; update, insert and primary key use the same key columns. *)
Theorem load_csv_with_keys {D : Type} `{Connection D} (self : DbSync.t)
    (file : list (list string)) (count : nat) (s : session D) :
  key_properties (DbSync.self_stream_schema_message self) ≠ [] →
  fst (DbSync.load_csv self file count s) = Ret tt →
  ∃ table temp_table clauses key,
    DbSync.table_name self (stream (DbSync.self_stream_schema_message self))
      false = Ret table
    ∧ DbSync.table_name self (stream (DbSync.self_stream_schema_message self))
        true = Ret temp_table
    ∧ primary_column_names (DbSync.self_stream_schema_message self) = Ret key
    ∧ log (snd (DbSync.load_csv self file count s))
      = log s
        ++ (Submitted <$>
              [CreateTable true temp_table clauses (Some key);
               Copy temp_table (DbSync.column_names self) file;
               Update table (DbSync.column_names self) temp_table key;
               InsertNew table (DbSync.column_names self) temp_table key;
               DropTable temp_table])
        ++ [Committed].
Proof.
  intros Hkeys.
  destruct (DbSync.create_table_query self true) as [create|e|] eqn:Hcreate.
  - destruct (keyed_batch self file create Hkeys Hcreate)
      as (name & clauses & key & Hname & Hkey & _ & ->).
    intros Hret.
    exists (DbSync.self_schema_name self +:+ "." +:+ name), (name +:+ "_temp"),
      clauses, key.
    split; [by rewrite (table_name_stream self false name Hname)|].
    split; [by rewrite (table_name_stream self true name Hname)|].
    split; [done|].
    unfold DbSync.with_connection in *.
    destruct (submit_all_log
      [CreateTable true (name +:+ "_temp") clauses (Some key);
       Copy (name +:+ "_temp") (DbSync.column_names self) file;
       Update (DbSync.self_schema_name self +:+ "." +:+ name)
         (DbSync.column_names self) (name +:+ "_temp") key;
       InsertNew (DbSync.self_schema_name self +:+ "." +:+ name)
         (DbSync.column_names self) (name +:+ "_temp") key;
       DropTable (name +:+ "_temp")] s) as (done & Hlog & Hdone).
    destruct (DbSync.submit_all _ s) as [[[]|e|] s']; try done.
    simpl in *. subst done. rewrite Hlog. by rewrite <- app_assoc.
  - unfold DbSync.load_csv, DbSync.with_connection, io_bind, lift.
    by rewrite Hcreate.
  - unfold DbSync.load_csv, DbSync.with_connection, io_bind, lift.
    by rewrite Hcreate.
Qed.

Lemma load_csv_with_keys_witness :
  ∃ table temp_table clauses key,
    DbSync.table_name orders_sync
      (stream (DbSync.self_stream_schema_message orders_sync)) false = Ret table
    ∧ DbSync.table_name orders_sync
        (stream (DbSync.self_stream_schema_message orders_sync)) true
      = Ret temp_table
    ∧ primary_column_names (DbSync.self_stream_schema_message orders_sync)
      = Ret key
    ∧ log (snd (DbSync.load_csv orders_sync [["Ann"; "7"; ""; "[1]"]] 1
                  (Pg.start orders_table)))
      = log (Pg.start orders_table)
        ++ (Submitted <$>
              [CreateTable true temp_table clauses (Some key);
               Copy temp_table (DbSync.column_names orders_sync)
                 [["Ann"; "7"; ""; "[1]"]];
               Update table (DbSync.column_names orders_sync) temp_table key;
               InsertNew table (DbSync.column_names orders_sync) temp_table key;
               DropTable temp_table])
        ++ [Committed].
Proof.
  apply (load_csv_with_keys orders_sync [["Ann"; "7"; ""; "[1]"]] 1
           (Pg.start orders_table)).
  - discriminate.
  - by vm_compute.
Defined.

Section Up_to_date_facts.

Lemma columns_to_add_none self columns_dict items :
  Forall (λ item : string * value,
            Py.has_key (Str.lower (fst item)) columns_dict = true) items →
  DbSync.columns_to_add self columns_dict items = Ret [].
Proof.
  induction 1 as [|[name props] items Hlive _ IH]; [done|].
  cbn [DbSync.columns_to_add]. simpl in Hlive. by rewrite Hlive.
Qed.

Lemma columns_to_replace_none self columns_dict items :
  Forall (settled self columns_dict) items →
  DbSync.columns_to_replace self columns_dict items = Ret [].
Proof.
  induction 1 as [|[name props] items Hitem _ IH]; [done|].
  cbn [DbSync.columns_to_replace].
  destruct Hitem as (column & stored & desired & Htype & Hlive & Hstored & Hsame).
  cbn [fst snd] in Htype, Hlive.
  rewrite (replacement_of_live_column _ _ _ _ _ _ _ Htype Hlive Hstored).
  cbn [bind]. rewrite IH. cbn [bind].
  destruct Hsame as [->|[-> ->]].
  - by rewrite String.eqb_refl.
  - by rewrite orb_true_r.
Qed.

End Up_to_date_facts.

Lemma update_columns_settled {D : Type} `{Connection D} (self : DbSync.t)
    (s : session D) (table : string) (rows : list dict_row) (d : D)
    (columns_dict : list (string * dict_row)) :
  inflect_name (stream (DbSync.self_stream_schema_message self)) = Ret table →
  execute (SelectColumns (Str.lower table)
             (Str.lower (DbSync.self_schema_name self))) (db s)
  = (Rows rows, d) →
  DbSync.columns_by_name rows = Ret columns_dict →
  Forall (settled self columns_dict) (DbSync.self_flatten_schema self) →
  DbSync.update_columns self s
  = (Ret tt,
     Session (commit d)
       (log s ++ [Submitted (SelectColumns (Str.lower table)
                               (Str.lower (DbSync.self_schema_name self)));
                  Committed])).
Proof.
  intros Htable Hselect Hdict Hsettled.
  unfold DbSync.update_columns, DbSync.get_table_columns, DbSync.query,
    DbSync.with_connection, DbSync.cursor_execute, io_bind, lift.
  rewrite Htable. cbn [db log]. rewrite Hselect, Hdict.
  rewrite columns_to_add_none.
  - cbn [for_each]. unfold lift.
    rewrite (columns_to_replace_none _ _ _ Hsettled). cbn [for_each].
    unfold lift. cbn [db log]. by rewrite <- app_assoc.
  - eapply Forall_impl; [exact Hsettled|].
    intros item (column & _ & _ & _ & Hlive & _). unfold Py.has_key, dict_row in *.
    by rewrite Hlive.
Qed.

(** X19.  When every column of the flattened schema is live with the
    desired type, or is stored as a timestamp without time zone where a
    timestamp with time zone is desired, [update_columns] returns after
    its read of the live columns: it submits no ALTER TABLE. *)
Theorem update_columns_up_to_date {D : Type} `{Connection D} (self : DbSync.t)
    (s : session D) (table : string) (rows : list dict_row) (d : D)
    (columns_dict : list (string * dict_row)) :
  inflect_name (stream (DbSync.self_stream_schema_message self)) = Ret table →
  execute (SelectColumns (Str.lower table)
             (Str.lower (DbSync.self_schema_name self))) (db s)
  = (Rows rows, d) →
  DbSync.columns_by_name rows = Ret columns_dict →
  Forall (settled self columns_dict) (DbSync.self_flatten_schema self) →
  DbSync.update_columns self s
  = (Ret tt,
     Session (commit d)
       (log s ++ [Submitted (SelectColumns (Str.lower table)
                               (Str.lower (DbSync.self_schema_name self)));
                  Committed])).
Proof. apply update_columns_settled. Qed.

Lemma update_columns_up_to_date_witness :
  DbSync.update_columns orders_sync (Pg.start orders_table)
  = (Ret tt,
     Session (commit (db (Pg.start orders_table)))
       (log (Pg.start orders_table)
        ++ [Submitted (SelectColumns (Str.lower "orders")
                         (Str.lower (DbSync.self_schema_name orders_sync)));
            Committed])).
Proof.
  eapply (update_columns_up_to_date orders_sync (Pg.start orders_table) "orders").
  - reflexivity.
  - reflexivity.
  - reflexivity.
  - repeat constructor; eexists _, _, _;
      (split; [reflexivity|split; [reflexivity|split; [reflexivity|by left]]]).
Defined.

Section Transaction_facts.

Context {D : Type} `{Connection D}.

Lemma own_transactions_app steps1 steps2 :
  own_transactions (steps1 ++ steps2)
  = own_transactions steps1 ++ own_transactions steps2.
Proof. unfold own_transactions. by rewrite fmap_app, concat_app. Qed.

Lemma stepwise_lift {A} (o : outcome A) : stepwise (D := D) (lift o).
Proof.
  intros s. exists []. unfold lift. simpl.
  split; [by rewrite app_nil_r|]. split; [constructor|]. split; [done|].
  intros _. constructor.
Qed.

Lemma stepwise_query q :
  alters_columns q → stepwise (D := D) (DbSync.query q).
Proof.
  intros Hq s.
  unfold DbSync.query, DbSync.with_connection, DbSync.cursor_execute.
  destruct (execute q (db s)) as [[rows|e] d].
  - exists [(q, true)]. simpl. split; [by rewrite <- app_assoc|].
    split; [by repeat constructor|]. split.
    + by intros [|i] step; [intros [= <-]|].
    + intros _. by repeat constructor.
  - exists [(q, false)]. simpl. split; [by rewrite <- app_assoc|].
    split; [by repeat constructor|]. split.
    + by intros [|i] step; [intros [= <-]|].
    + by intros [a Ha].
Qed.

Lemma stepwise_bind {A B} (m : io D A) (k : A → io D B) :
  stepwise (D := D) m → (∀ a, stepwise (D := D) (k a)) →
  stepwise (D := D) (io_bind m k).
Proof.
  intros Hm Hk s. unfold io_bind.
  destruct (Hm s) as (steps1 & Hlog1 & Hkind1 & Hlast1 & Hok1).
  destruct (m s) as [[a|e|] s1]; simpl in *.
  - destruct (Hk a s1) as (steps2 & Hlog2 & Hkind2 & Hlast2 & Hok2).
    specialize (Hok1 ltac:(by eexists)).
    exists (steps1 ++ steps2). split; [|split; [|split]].
    + by rewrite Hlog2, Hlog1, own_transactions_app, app_assoc.
    + by apply Forall_app.
    + intros i step Hi Hfail. rewrite length_app.
      apply lookup_app_Some in Hi as [Hi|[Hge Hi]].
      * rewrite Forall_forall in Hok1.
        apply list_elem_of_lookup_2 in Hi. specialize (Hok1 step Hi). congruence.
      * specialize (Hlast2 _ _ Hi Hfail). lia.
    + intros Hret. apply Forall_app. split; [done|]. by apply Hok2.
  - exists steps1. split; [done|]. split; [done|]. split; [done|].
    by intros [b Hb].
  - exists steps1. split; [done|]. split; [done|]. split; [done|].
    by intros [b Hb].
Qed.

Lemma stepwise_for_each {A} (l : list A) (body : A → io D unit) :
  (∀ x, stepwise (D := D) (body x)) → stepwise (D := D) (for_each l body).
Proof.
  intros Hbody. induction l as [|x l IH]; simpl.
  - apply stepwise_lift.
  - apply stepwise_bind; [apply Hbody|]. by intros _.
Qed.

Lemma stepwise_update_columns self :
  stepwise (D := D) (DbSync.update_columns self).
Proof.
  unfold DbSync.update_columns, DbSync.get_table_columns, DbSync.add_column,
    DbSync.drop_column.
  repeat first
    [ apply stepwise_lift
    | apply stepwise_query; done
    | apply stepwise_for_each; intros
    | apply stepwise_bind; [|intros]
    | match goal with
      | |- stepwise (let '(_, _) := ?p in _) => destruct p
      end ].
Qed.

End Transaction_facts.

(** X20.  [update_columns] runs every statement in a connection block of
    its own: the log it adds is a sequence of statements of schema
    evolution, each followed at once by its commit, or by its rollback if
    it failed; only the last statement can have failed, and none has when
    the call returns.  Changes made before a failure stay committed. *)
Theorem update_columns_own_transactions {D : Type} `{Connection D}
    (self : DbSync.t) (s : session D) :
  ∃ steps,
    log (snd (DbSync.update_columns self s)) = log s ++ own_transactions steps
    ∧ Forall (λ step, alters_columns (fst step)) steps
    ∧ (∀ i step, steps !! i = Some step → snd step = false →
                 S i = length steps)
    ∧ (fst (DbSync.update_columns self s) = Ret tt →
       Forall (λ step, snd step = true) steps).
Proof.
  destruct (stepwise_update_columns self s) as (steps & Hlog & Hkind & Hlast & Hok).
  exists steps. repeat split; try done. intros Hret. apply Hok. by exists tt.
Qed.

Lemma update_columns_own_transactions_witness :
  ∃ steps,
    log (snd (DbSync.update_columns users_sync (Pg.start users_table_retyped)))
    = log (Pg.start users_table_retyped) ++ own_transactions steps
    ∧ Forall (λ step, alters_columns (fst step)) steps
    ∧ Forall (λ step, snd step = true) steps.
Proof.
  destruct (update_columns_own_transactions users_sync
              (Pg.start users_table_retyped))
    as (steps & Hlog & Hkind & _ & Hok).
  exists steps. split; [done|]. split; [done|]. apply Hok. by vm_compute.
Defined.

(** ** Rows and keys of records *)

Section Row_facts.

Variable json_dumps : value → string.
Variable json_loads : string → option value.

Lemma jsonb_value_scalar v : is_scalar (DbSync.jsonb_value json_dumps json_loads v).
Proof.
  unfold DbSync.jsonb_value. destruct v; try done.
  by destruct (json_loads _).
Qed.

Lemma jsonb_value_document v :
  (∀ v, is_Some (json_loads (json_dumps v))) →
  ∃ text, DbSync.jsonb_value json_dumps json_loads v = VStr text
          ∧ is_Some (json_loads text).
Proof.
  intros Hround. unfold DbSync.jsonb_value.
  destruct v as [| | | |text| |]; try (eexists; split; [done|apply Hround]).
  destruct (json_loads text) eqn:Htext.
  - exists text. split; [done|]. by rewrite Htext.
  - eexists. split; [done|apply Hround].
Qed.

(** The row is built column by column, in the order of the flattened
    schema. *)
Lemma record_to_csv_row_loop_fields self flatten items row result :
  DbSync.record_to_csv_row_loop json_dumps json_loads self flatten items row
  = Ret result →
  ∃ fields,
    result = row ++ fields
    ∧ Forall2 (λ item field,
                 DbSync.csv_field json_dumps json_loads self flatten
                   (fst item) (snd item) = Ret field) items fields.
Proof.
  revert row result. induction items as [|[name schema] items IH];
    intros row result; simpl.
  - intros [= <-]. exists []. split; [by rewrite app_nil_r|constructor].
  - destruct (DbSync.csv_field _ _ _ _ _ _) as [field| |] eqn:Hfield;
      simpl; [|done..].
    intros (fields & -> & Hall)%IH. exists (field :: fields).
    split; [by rewrite <- app_assoc|]. by constructor.
Qed.

Lemma csv_field_scalar self flatten name schema field :
  Forall (λ kv : string * value, is_scalar (snd kv)) flatten →
  DbSync.csv_field json_dumps json_loads self flatten name schema = Ret field →
  is_scalar field.
Proof.
  intros Hflat. unfold DbSync.csv_field.
  destruct (Py.lookup name flatten) as [v|] eqn:Hv; [|by intros [= <-]].
  apply lookup_elem_of in Hv. rewrite Forall_forall in Hflat.
  specialize (Hflat _ Hv). simpl in Hflat.
  assert (∀ w, is_scalar w →
    (type <- column_type schema (DbSync.self_use_simple_column_type self) ;;
     Ret (if String.eqb (Str.lower type) "jsonb"
          then DbSync.jsonb_value json_dumps json_loads w else w))
    = Ret field → is_scalar field) as Hany.
  { intros w Hw. destruct (column_type _ _) as [type| |]; cbn [bind]; [|done..].
    intros [= <-]. destruct (String.eqb _ _); [apply jsonb_value_scalar|done]. }
  destruct v; try (by apply Hany). by intros [= <-].
Qed.

Lemma record_to_csv_row_fields self record row :
  DbSync.record_to_csv_row json_dumps json_loads self record = Ret row →
  ∃ flatten,
    flatten_record json_dumps record [] "__" = Ret flatten
    ∧ Forall2 (λ item field,
                 DbSync.csv_field json_dumps json_loads self flatten
                   (fst item) (snd item) = Ret field)
              (DbSync.self_flatten_schema self) row.
Proof.
  unfold DbSync.record_to_csv_row.
  destruct (flatten_record _ _ _ _) as [flatten| |]; cbn [bind]; [|done..].
  intros (fields & -> & Hall)%record_to_csv_row_loop_fields.
  by exists flatten.
Qed.

End Row_facts.

(** X21.  A row [record_to_csv_row] returns has one field per column of
    [column_names], and every field is a scalar. *)
Theorem record_to_csv_row_shape (json_dumps : value → string)
    (json_loads : string → option value) (self : DbSync.t) (record : value)
    (row : list value) :
  DbSync.record_to_csv_row json_dumps json_loads self record = Ret row →
  length row = length (DbSync.column_names self)
  ∧ Forall (λ field, is_scalar field) row.
Proof.
  intros (flatten & Hflat & Hall)%record_to_csv_row_fields. split.
  - unfold DbSync.column_names. rewrite length_map.
    symmetry. by apply (Forall2_length _ _ _ Hall).
  - apply flatten_record_scalar with (n := Py.depth record) in Hflat; [|done].
    clear -Hall Hflat. induction Hall as [|item field items row Hone _ IH];
      constructor; [|done].
    by apply (csv_field_scalar _ _ _ _ _ _ _ Hflat Hone).
Qed.

Lemma record_to_csv_row_shape_witness :
  length [VStr "Eve"; VInt 7; VStr ""; VStr "[]"]
  = length (DbSync.column_names orders_sync)
  ∧ Forall (λ field, is_scalar field) [VStr "Eve"; VInt 7; VStr ""; VStr "[]"].
Proof.
  apply (record_to_csv_row_shape (λ _, "[]") (λ _, None) orders_sync
           (VDict [("orderId", VInt 7);
                   ("customer", VDict [("name", VStr "Eve")]);
                   ("tags", VList []); ("note", VStr "n/a")])).
  reflexivity.
Defined.

(** X22.  Provided [json.loads] accepts whatever [json.dumps] produces,
    the field [record_to_csv_row] puts in a [jsonb] column is the empty
    string (no value) or a text that [json.loads] accepts. *)
Theorem record_to_csv_row_jsonb (json_dumps : value → string)
    (json_loads : string → option value) (self : DbSync.t) (record : value)
    (row : list value) :
  (∀ v, is_Some (json_loads (json_dumps v))) →
  DbSync.record_to_csv_row json_dumps json_loads self record = Ret row →
  Forall2 (λ item field,
             column_type (snd item) (DbSync.self_use_simple_column_type self)
             = Ret "jsonb" →
             field = VStr ""
             ∨ ∃ text, field = VStr text ∧ is_Some (json_loads text))
          (DbSync.self_flatten_schema self) row.
Proof.
  intros Hround (flatten & _ & Hall)%record_to_csv_row_fields.
  eapply Forall2_impl; [exact Hall|].
  intros [name schema] field Hfield Htype. cbn [fst snd] in *.
  unfold DbSync.csv_field in Hfield. rewrite Htype in Hfield.
  cbn [bind] in Hfield.
  change (String.eqb (Str.lower "jsonb") "jsonb") with true in Hfield.
  destruct (Py.lookup name flatten) as [v|]; [|left; by injection Hfield].
  pose proof (jsonb_value_document json_dumps json_loads v Hround) as Hdoc.
  destruct v; try (right; by injection Hfield as <-).
  left. by injection Hfield.
Qed.

Lemma record_to_csv_row_jsonb_witness :
  Forall2 (λ item field,
             column_type (snd item) (DbSync.self_use_simple_column_type orders_sync)
             = Ret "jsonb" →
             field = VStr ""
             ∨ ∃ text, field = VStr text
                       ∧ is_Some ((λ text, if String.eqb text "[]"
                                           then Some (VList []) else None) text))
          (DbSync.self_flatten_schema orders_sync)
          [VStr "Eve"; VInt 7; VStr ""; VStr "[]"].
Proof.
  apply (record_to_csv_row_jsonb (λ _, "[]")
           (λ text, if String.eqb text "[]" then Some (VList []) else None)
           orders_sync
           (VDict [("orderId", VInt 7);
                   ("customer", VDict [("name", VStr "Eve")]);
                   ("tags", VStr "red, blue"); ("note", VStr "n/a")])).
  - intros v. by eexists.
  - reflexivity.
Defined.

(** X23.  [record_primary_key_string] returns [None] when no key
    property is declared or the record is falsy; on a truthy record that
    is no mapping it raises [KeyError] with the normalized first key; it
    returns a string only for a non-empty mapping. *)
Theorem record_primary_key_string_edges (json_dumps str : value → string)
    (self : DbSync.t) (record : value) :
  let key_properties := key_properties (DbSync.self_stream_schema_message self) in
  let result := DbSync.record_primary_key_string json_dumps str self record in
  (key_properties = [] ∨ Py.truthy record = false → result = Ret None)
  ∧ (∀ p rest name,
       key_properties = p :: rest → Py.truthy record = true →
       Py.is_dict record = false → inflect_name p = Ret name →
       result = Raise (KeyError name))
  ∧ (∀ text, result = Ret (Some text) →
       key_properties ≠ [] ∧ Py.truthy record = true
       ∧ Py.is_dict record = true).
Proof.
  cbv zeta. unfold DbSync.record_primary_key_string.
  destruct (key_properties (DbSync.self_stream_schema_message self))
    as [|p rest]; cbn [length Nat.eqb].
  { split; [done|]. split; [done|]. done. }
  destruct (Py.truthy record) eqn:Htruthy; cbn [negb].
  2: { split; [done|]. split; [done|]. done. }
  split; [by intros [?|?]|].
  destruct (Py.is_dict record) eqn:Hdict.
  - split; [done|]. intros text _. done.
  - rewrite flatten_record_not_dict by done. cbn [bind mapM].
    split.
    + intros p' rest' name [= <- <-] _ _ ->. done.
    + intros text. destruct (inflect_name p) as [name| |]; done.
Qed.

Lemma record_primary_key_string_edges_witness :
  DbSync.record_primary_key_string (λ _, "[]") (λ _, "7") orders_sync
    (VList [VInt 7])
  = Raise (KeyError "order_id").
Proof.
  apply (proj1 (proj2 (record_primary_key_string_edges
                         (λ _, "[]") (λ _, "7") orders_sync (VList [VInt 7])))
           "orderId" []); reflexivity.
Defined.

(** ** Table synchronization *)

Section Sync_facts.

Context {D : Type} `{Connection D} `{DbSync.Catalogue D}.

Lemma found_tables_filter (name : string) (tables : list dict_row) :
  Forall (λ row : dict_row, is_Some (Py.lookup "table_name" row)) tables →
  DbSync.found_tables name tables = Ret (List.filter (names_table name) tables).
Proof.
  induction 1 as [|row tables [table_name Hrow] _ IH]; [done|].
  cbn [DbSync.found_tables List.filter]. unfold names_table at 1.
  unfold dict_row in *. rewrite Hrow, IH. cbn [bind].
  by destruct (String.eqb _ _).
Qed.

Lemma filter_none {A} (p : A → bool) (l : list A) :
  Nat.eqb (length (List.filter p l)) 0 = negb (existsb p l).
Proof.
  induction l as [|x l IH]; [done|]. simpl. by destruct (p x).
Qed.

Lemma sync_table_unfold (self : DbSync.t) (s : session D) name tables d :
  inflect_name (stream (DbSync.self_stream_schema_message self)) = Ret name →
  DbSync.select_tables (DbSync.self_schema_name self) (db s) = (Rows tables, d) →
  Forall (λ row : dict_row, is_Some (Py.lookup "table_name" row)) tables →
  DbSync.sync_table self s
  = (if existsb (names_table name) tables
     then DbSync.update_columns self
     else (create <~ lift (DbSync.create_table_query self false) ;;
           _ <~ DbSync.query create ;;
           lift (Ret tt)))
      (Session (commit d) (log s ++ [Committed])).
Proof.
  intros Hname Hselect Htables.
  unfold DbSync.sync_table, DbSync.get_tables, DbSync.with_connection.
  unfold io_bind at 1. unfold lift at 1. rewrite Hname.
  unfold io_bind at 1. rewrite Hselect. cbn [db log].
  unfold io_bind at 1. unfold lift at 1.
  rewrite (found_tables_filter name tables Htables), filter_none.
  by destruct (existsb _ _).
Qed.

End Sync_facts.

Section Fresh_table_facts.

Lemma lower_app (s1 s2 : string) :
  Str.lower (s1 +:+ s2) = Str.lower s1 +:+ Str.lower s2.
Proof.
  unfold Str.lower. induction s1 as [|c s1 IH]; [done|].
  cbn [Str.map]. change (String c s1 +:+ s2) with (String c (s1 +:+ s2)).
  cbn [Str.map]. by rewrite IH.
Qed.

Lemma strip_prefix_app (prefix rest : string) :
  strip_prefix prefix (prefix +:+ rest) = Some rest.
Proof.
  induction prefix as [|c prefix IH]; [by destruct rest|].
  change (String c prefix +:+ rest) with (String c (prefix +:+ rest)).
  cbn [strip_prefix]. by rewrite Ascii.eqb_refl.
Qed.

Lemma dict_lookup_NoDup {A} (l : list (string * A)) k x :
  NoDup (l.*1) → (k, x) ∈ l → Py.lookup k l = Some x.
Proof.
  induction l as [|[k' x'] l IH]; [by intros _ ?%elem_of_nil|].
  intros [Hk' Hl]%NoDup_cons [[= -> ->]|Hin]%elem_of_cons; simpl.
  - by rewrite String.eqb_refl.
  - destruct (String.eqb_spec k k') as [->|]; [|by apply IH].
    destruct Hk'. apply list_elem_of_fmap. by exists (k', x).
Qed.

Lemma mapM_fmap {A B} (f : A → outcome B) (g : A → B) (l : list A) :
  (∀ x, x ∈ l → f x = Ret (g x)) → mapM f l = Ret (g <$> l).
Proof.
  induction l as [|x l IH]; [done|]. intros Hf. simpl.
  rewrite (Hf x) by left. cbn [bind]. rewrite IH; [done|].
  intros y Hy. apply Hf. by right.
Qed.

Lemma column_clauses_types flat use_simple clauses :
  mapM (λ item : string * value, column_clause (fst item) (snd item) use_simple)
       flat = Ret clauses →
  Forall2 (λ item c, column_type (snd item) use_simple = Ret (clause_type c)
                     ∧ clause_name c = safe_column_name (fst item))
          flat clauses.
Proof.
  revert clauses. induction flat as [|[name props] flat IH]; intros clauses; simpl.
  - intros [= <-]. constructor.
  - unfold column_clause at 1.
    destruct (column_type props use_simple) as [type| |] eqn:Htype;
      cbn [bind]; [|done..].
    destruct (mapM _ flat) as [rest| |]; cbn [bind]; [|done..].
    intros [= <-]. constructor; [done|]. by apply IH.
Qed.

Lemma columns_by_name_rows (columns : list (string * string)) :
  DbSync.columns_by_name (catalogue_rows columns)
  = Ret (Py.dict_of_items
           ((λ c, (Str.lower (fst c),
                   [("column_name", fst c); ("data_type", snd c)]))
            <$> columns)).
Proof.
  unfold DbSync.columns_by_name.
  match goal with
  | |- bind (mapM ?f _) _ = _ =>
      assert (mapM f (catalogue_rows columns)
              = Ret ((λ c, (Str.lower (fst c),
                            [("column_name", fst c); ("data_type", snd c)]))
                     <$> columns)) as Hrows
  end.
  { induction columns as [|c columns IH]; [done|].
    change (catalogue_rows (c :: columns))
      with ([("column_name", fst c); ("data_type", snd c)]
            :: catalogue_rows columns).
    cbn [mapM Py.lookup].
    change (String.eqb "column_name" "column_name") with true. cbn [bind].
    by rewrite IH. }
  by rewrite Hrows.
Qed.

(** The columns a [CREATE TABLE] of the program makes are the columns the
    replacement loop leaves alone. *)
Lemma created_columns_settled (self : DbSync.t) clauses :
  NoDup ((DbSync.self_flatten_schema self).*1) →
  Forall (λ kv, Str.all is_ident (fst kv)) (DbSync.self_flatten_schema self) →
  mapM (λ item : string * value,
          column_clause (fst item) (snd item)
            (DbSync.self_use_simple_column_type self))
       (DbSync.self_flatten_schema self) = Ret clauses →
  ∃ columns_dict,
    DbSync.columns_by_name
      (catalogue_rows ((λ c, (Pg.unquote (clause_name c), clause_type c))
                       <$> clauses)) = Ret columns_dict
    ∧ Forall (settled self columns_dict) (DbSync.self_flatten_schema self).
Proof.
  intros Hnodup Hident Hclauses.
  pose proof (column_clauses_types _ _ _ Hclauses) as Htypes.
  rewrite columns_by_name_rows. eexists. split; [done|].
  rewrite <- list_fmap_compose.
  set (flat := DbSync.self_flatten_schema self) in *.
  set (entry := (λ c, (Str.lower (fst c),
                       [("column_name", fst c); ("data_type", snd c)]))
                ∘ (λ c, (Pg.unquote (clause_name c), clause_type c))).
  assert ((entry <$> clauses).*1 = flat.*1) as Hkeys.
  { clear -Htypes Hident. induction Htypes as [|item c flat clauses [_ Hc] _ IH];
      [done|].
    apply Forall_cons in Hident as [Hitem Hident].
    rewrite !fmap_cons, IH by done. f_equal. unfold entry. cbn [fst compose].
    rewrite Hc, unquote_safe_column_name. by apply lower_fixed. }
  assert (NoDup ((entry <$> clauses).*1)) as Hunique by (by rewrite Hkeys).
  rewrite dict_of_items_NoDup by exact Hunique.
  apply Forall_forall. intros [name props] Hitem.
  apply list_elem_of_lookup in Hitem as [i Hi].
  destruct (Forall2_lookup_l _ _ _ _ _ Htypes Hi) as (c & Hc & Htype & Hname).
  cbn [fst snd] in *.
  exists [("column_name", name); ("data_type", clause_type c)],
    (clause_type c), (clause_type c).
  split; [done|]. split; [|split; [done|by left]].
  apply dict_lookup_NoDup; [exact Hunique|].
  apply list_elem_of_fmap. exists c. split; [|by apply list_elem_of_lookup_2 in Hc].
  unfold entry. cbn [compose fst snd].
  by rewrite Hname, unquote_safe_column_name.
Qed.

End Fresh_table_facts.

Section Fresh_database_facts.

Lemma string_app_assoc (s1 s2 s3 : string) : (s1 +:+ s2) +:+ s3 = s1 +:+ s2 +:+ s3.
Proof.
  induction s1 as [|c s1 IH]; [done|].
  change (String c ((s1 +:+ s2) +:+ s3) = String c (s1 +:+ s2 +:+ s3)).
  by rewrite IH.
Qed.

Lemma select_tables_empty (table_schema : string) :
  DbSync.select_tables table_schema (Pg.State ∅ ∅) = (Rows [], Pg.State ∅ ∅).
Proof. cbn. by rewrite map_to_list_empty. Qed.

Lemma select_tables_single (table_schema name : string) (r : Pg.relation)
    (c : gmap string Pg.relation) :
  DbSync.select_tables table_schema
    (Pg.State (<[table_schema +:+ "." +:+ name := r]> ∅) c)
  = (Rows [[("table_name", name)]],
     Pg.State (<[table_schema +:+ "." +:+ name := r]> ∅) c).
Proof.
  cbn. rewrite insert_empty, map_to_list_singleton. cbn [omap list_omap fst].
  by rewrite <- string_app_assoc, strip_prefix_app.
Qed.

End Fresh_database_facts.

(** X24.  On the PostgreSQL model and an empty database, for names the
    server stores as written: the schema name is an unquoted lower-case
    identifier, the schema name, the table name and every column name
    have from 1 to 63 characters, and the key columns are columns of the
    table, each named once.  Then a [sync_table] that returns has
    submitted the non-temporary CREATE TABLE and nothing else; a second
    [sync_table] finds the table, reads its columns and submits no ALTER
    TABLE, leaving the database as it is. *)
Theorem sync_table_creates_then_settles (target_config : TargetConfig)
    (stream_schema_message : StreamSchemaMessage) (self : DbSync.t)
    (name : string) (key : list string) :
  DbSync.__init__ target_config stream_schema_message = Ret self →
  inflect_name (stream stream_schema_message) = Ret name →
  primary_column_names stream_schema_message = Ret key →
  Str.all is_ident (config_schema target_config) →
  starts_without_digit (config_schema target_config) →
  Pg.kept_whole (config_schema target_config) →
  Pg.kept_whole name →
  Forall (λ item, Pg.kept_whole (fst item)) (DbSync.self_flatten_schema self) →
  NoDup key →
  key ⊆ DbSync.column_names self →
  let s0 := Pg.start (Pg.State ∅ ∅) in
  fst (DbSync.sync_table self s0) = Ret tt →
  let s1 := snd (DbSync.sync_table self s0) in
  ∃ create,
    DbSync.create_table_query self false = Ret create
    ∧ log s1 = [Committed; Submitted create; Committed]
    ∧ DbSync.sync_table self s1
      = (Ret tt,
         Session (db s1)
           (log s1 ++ [Committed;
                       Submitted (SelectColumns name
                                    (config_schema target_config));
                       Committed])).
Proof.
  intros Hinit Hstream _ Hword _ _ _ _ _ _. cbv zeta.
  pose proof (lower_fixed _ Hword) as Hschema.
  pose proof Hinit as Hfields.
  apply init_fields in Hfields as (Hmsg & Hname & Hflat).
  pose proof (flatten_schema_ordered _ _ _ _ Hflat) as [_ Hnodup].
  pose proof (flatten_schema_ident _ _ "__" _ I Hflat) as Hident.
  rewrite <- Hmsg in Hstream.
  rewrite (sync_table_unfold self (Pg.start (Pg.State ∅ ∅)) name []
             (Pg.State ∅ ∅) Hstream (select_tables_empty _) ltac:(constructor)).
  cbn [existsb].
  destruct (DbSync.create_table_query self false) as [create| |] eqn:Hcreate.
  2,3: unfold io_bind, lift; done.
  assert (∃ clauses primary_key,
            mapM (λ item : string * value,
                    column_clause (fst item) (snd item)
                      (DbSync.self_use_simple_column_type self))
                 (DbSync.self_flatten_schema self) = Ret clauses
            ∧ create = CreateTable false
                         (DbSync.self_schema_name self +:+ "." +:+ name)
                         clauses primary_key)
    as (clauses & primary_key & Hclauses & ->).
  { unfold DbSync.create_table_query, DbSync.table_name in Hcreate.
    rewrite Hstream in Hcreate.
    destruct (mapM _ _) as [clauses| |]; cbn [bind] in Hcreate; [|done..].
    destruct (if Nat.eqb _ 0 then _ else _) as [primary_key| |];
      cbn [bind] in Hcreate; [|done..].
    injection Hcreate as <-. by eexists _, _. }
  set (table := DbSync.self_schema_name self +:+ "." +:+ name).
  assert (Pg.fold_name table = table) as Hfold.
  { unfold Pg.fold_name, table. rewrite !lower_app, Hname, Hschema.
    rewrite (lower_fixed name); [done|]. by apply (inflect_name_ident _ _ Hstream). }
  set (r := Pg.Relation ((λ c, (Pg.unquote (clause_name c), clause_type c))
                         <$> clauses) []).
  assert (∀ l,
    (create <~ lift (Ret (CreateTable false table clauses primary_key)) ;;
     _ <~ DbSync.query create ;; lift (Ret tt))
      (Session (Pg.State ∅ ∅) l)
    = (Ret tt, Session (Pg.State (<[table := r]> ∅) (<[table := r]> ∅))
                 (l ++ [Submitted (CreateTable false table clauses primary_key);
                        Committed]))) as Hfirst.
  { intros l. unfold io_bind, lift, DbSync.query, DbSync.with_connection,
      DbSync.cursor_execute.
    cbn [execute Pg.connection Pg.run db log Pg.tables].
    rewrite Hfold, lookup_empty. cbn. by rewrite <- app_assoc. }
  change (commit (Pg.State ∅ ∅)) with (Pg.State ∅ ∅).
  rewrite Hfirst. cbn [fst snd log Pg.start app].
  intros _. exists (CreateTable false table clauses primary_key).
  split; [done|]. split; [done|].
  set (st1 := Pg.State (<[table := r]> ∅) (<[table := r]> ∅)).
  match goal with |- DbSync.sync_table self ?s = _ => set (s1 := s) end.
  assert (DbSync.select_tables (DbSync.self_schema_name self) (db s1)
          = (Rows [[("table_name", name)]], st1)) as Hselect.
  { apply select_tables_single. }
  rewrite (sync_table_unfold self s1 name [[("table_name", name)]] st1 Hstream
             Hselect ltac:(repeat constructor; by eexists)).
  assert (existsb (names_table name) [[("table_name", name)]] = true) as ->.
  { unfold names_table. cbn. by rewrite String.eqb_refl. }
  destruct (created_columns_settled self clauses Hnodup Hident Hclauses)
    as (columns_dict & Hdict & Hsettled).
  rewrite (update_columns_settled self _ name
             (catalogue_rows (Pg.rel_columns r)) st1 columns_dict
             Hstream).
  - cbn [db log]. rewrite Hname, Hschema.
    rewrite (lower_fixed name) by (by apply (inflect_name_ident _ _ Hstream)).
    by rewrite <- app_assoc.
  - cbn [execute Pg.connection Pg.run db commit Pg.tables st1].
    rewrite Hname, Hschema.
    rewrite (lower_fixed name) by (by apply (inflect_name_ident _ _ Hstream)).
    fold table. rewrite <- Hname. fold table.
    by rewrite lookup_insert_eq.
  - done.
  - done.
Qed.

Lemma sync_table_creates_then_settles_witness :
  ∃ create,
    DbSync.create_table_query orders_sync false = Ret create
    ∧ log (snd (DbSync.sync_table orders_sync (Pg.start (Pg.State ∅ ∅))))
      = [Committed; Submitted create; Committed]
    ∧ DbSync.sync_table orders_sync
        (snd (DbSync.sync_table orders_sync (Pg.start (Pg.State ∅ ∅))))
      = (Ret tt,
         Session (db (snd (DbSync.sync_table orders_sync
                             (Pg.start (Pg.State ∅ ∅)))))
           (log (snd (DbSync.sync_table orders_sync (Pg.start (Pg.State ∅ ∅))))
            ++ [Committed;
                Submitted (SelectColumns "orders" (config_schema users_config));
                Committed])).
Proof.
  apply (sync_table_creates_then_settles users_config orders_message orders_sync
           "orders" [safe_column_name "order_id"]).
  - by vm_compute.
  - by vm_compute.
  - by vm_compute.
  - by vm_compute.
  - by vm_compute.
  - by vm_compute.
  - by vm_compute.
  - repeat constructor.
  - apply NoDup_singleton.
  - intros k Hk%list_elem_of_singleton. subst k.
    apply (bool_decide_unpack _). by vm_compute.
  - by vm_compute.
Defined.

(** X25.  When the names the walk of the schema registers are distinct,
    [flatten_schema] returns, and what it returns is a rearrangement of
    the registered columns: none is lost, none is added. *)
Theorem flatten_schema_keeps_columns (d : value) (parent_key : list string)
    (sep : string) (cols : list (string * value)) :
  schema_columns d parent_key sep = Ret cols →
  NoDup (cols.*1) →
  ∃ flat, flatten_schema d parent_key sep = Ret flat ∧ flat ≡ₚ cols.
Proof.
  intros Hcols Hnodup.
  destruct (flatten_schema_checked d parent_key sep cols Hcols)
    as [[_ Hflat]|[Hdup _]]; done.
Qed.

Lemma flatten_schema_keeps_columns_witness :
  ∃ flat, flatten_schema (schema orders_message) [] "__" = Ret flat
          ∧ flat ≡ₚ [("order_id", kind "integer");
                     ("customer__name", kind "string");
                     ("tags", kind "array");
                     ("placed_at",
                      VDict [("type", VList [VStr "null"; VStr "string"]);
                             ("format", VStr "date-time")])].
Proof.
  apply (flatten_schema_keeps_columns (schema orders_message) [] "__").
  - reflexivity.
  - apply (bool_decide_unpack _). by vm_compute.
Defined.
